(** * Rex-AI: claim completeness checker and policy coverage engine

    A shallow embedding of

    - [src/fnol/checker.py]           ([check_claim]),
    - [backend/src/policy/service.py] ([PolicyService] and its helpers),
    - [src/policy/store.py]           (the keyed table behind [PolicyStore]), and
    - [backend/src/policy/llm_coverage.py] (the unwrapping of the model's reply),

    followed by the properties stated about them.

    Modelling conventions.

    - Python [str] values are [string]s, read as ASCII text: the character
      classes below ([isspace], [isdigit], [isword], [lower_char]) are the
      ones Python uses on code points below 128.
    - Amounts and confidences that enter the functions ([float] fields of the
      pydantic models) are finite binary64 values, written as the rationals
      [Q] they are; NaN and the infinities are outside the model as inputs.
      The code only compares them and, in [compute_payout], subtracts the
      deductible from the cost.  Comparisons of binary64 values are those of
      the rationals; the subtraction is the binary64 one, [Py.fsub]: the exact
      difference rounded to the nearest binary64 value, ties to even, and to
      an infinity beyond the largest one.  A rational that is not a binary64
      value is read there as the nearest one, as Python reads a literal.
    - The completeness score is computed by the code from float literals and
      small integer ratios; it is evaluated here in binary64 ([PrimFloat]),
      operation for operation.
    - [datetime] values are points on the proleptic time line, in
      microseconds, with an optional UTC offset (absent for a naive value).
      The clock reading [datetime.utcnow()] is an explicit argument.
    - A raised exception is the [Raise] outcome of the [result] type. *)

From Stdlib Require Import ZArith QArith Qminmax Qround String Ascii List Bool.
From Stdlib Require Import Lia Lqa.
From Stdlib Require Import PrimFloat Uint63 SpecFloat FloatOps.
From stdpp Require Import base option list gmap strings sorting.

#[local] Arguments String.append : simpl nomatch.

Local Open Scope string_scope.
Local Open Scope list_scope.

(* ===================================================================== *)
(** * Part I: the program                                                  *)
(* ===================================================================== *)

(** ** Python values: exceptions, strings, numbers, datetimes *)

Module Py.

Inductive exn : Type := TypeError | ValueError.

Inductive result (A : Type) : Type :=
| Ok (a : A)
| Raise (e : exn).
Arguments Ok {A} a.
Arguments Raise {A} e.

#[global] Instance result_ret : MRet result := @Ok.

#[global] Instance result_bind : MBind result :=
  fun A B (k : A -> result B) (r : result A) =>
    match r with
    | Ok a => k a
    | Raise e => Raise e
    end.

(** *** Characters *)

Definition code (c : ascii) : nat := nat_of_ascii c.

Definition between (lo hi n : nat) : bool := (lo <=? n)%nat && (n <=? hi)%nat.

(** [str.isspace] on one ASCII character: TAB..CR, FS..US and SPACE.
    The same set is [\s] of the [re] module. *)
Definition isspace (c : ascii) : bool :=
  between 9 13 (code c) || between 28 32 (code c).

(** [\d] on ASCII. *)
Definition isdigit (c : ascii) : bool := between 48 57 (code c).

Definition isupper (c : ascii) : bool := between 65 90 (code c).

Definition islower (c : ascii) : bool := between 97 122 (code c).

(** [\w] on ASCII: letters, digits and the underscore. *)
Definition isword (c : ascii) : bool :=
  isupper c || islower c || isdigit c || (code c =? 95)%nat.

Definition lower_char (c : ascii) : ascii :=
  if isupper c then ascii_of_nat (code c + 32) else c.

(** *** Strings *)

Definition is_empty (s : string) : bool :=
  match s with
  | EmptyString => true
  | String _ _ => false
  end.

(** Truth value of a [str]: non-empty. *)
Definition truthy (s : string) : bool := negb (is_empty s).

(** Truth value of an [Optional[str]]. *)
Definition truthy_opt (o : option string) : bool :=
  match o with
  | Some s => truthy s
  | None => false
  end.

(** Truth value of a [list]: non-empty. *)
Definition truthy_list {A : Type} (l : list A) : bool :=
  match l with
  | [] => false
  | _ :: _ => true
  end.

Fixpoint all_chars (p : ascii -> bool) (s : string) : bool :=
  match s with
  | EmptyString => true
  | String c r => p c && all_chars p r
  end.

(** [s.lower()] *)
Fixpoint lower (s : string) : string :=
  match s with
  | EmptyString => EmptyString
  | String c r => String (lower_char c) (lower r)
  end.

(** The longest prefix of [s] made of characters in [p], and what
    follows it. *)
Fixpoint take_while (p : ascii -> bool) (s : string) : string :=
  match s with
  | EmptyString => EmptyString
  | String c r => if p c then String c (take_while p r) else EmptyString
  end.

Fixpoint skip_while (p : ascii -> bool) (s : string) : string :=
  match s with
  | EmptyString => EmptyString
  | String c r => if p c then skip_while p r else s
  end.

Definition lstrip (s : string) : string := skip_while isspace s.

Fixpoint rstrip (s : string) : string :=
  match s with
  | EmptyString => EmptyString
  | String c r =>
      match rstrip r with
      | EmptyString => if isspace c then EmptyString else String c EmptyString
      | r' => String c r'
      end
  end.

(** [s.strip()] *)
Definition strip (s : string) : string := rstrip (lstrip s).

(** [s.split()]: the maximal runs of non-whitespace characters. *)
Fixpoint split (s : string) : list string :=
  match s with
  | EmptyString => []
  | String c r =>
      if isspace c then split r
      else
        match r with
        | EmptyString => [String c EmptyString]
        | String c' _ =>
            if isspace c' then String c EmptyString :: split r
            else
              match split r with
              | w :: ws => String c w :: ws
              | [] => [String c EmptyString]
              end
        end
  end.

(** [sep.join(words)] *)
Definition join (sep : string) (words : list string) : string :=
  String.concat sep words.

(** [s.startswith(p)], returning what follows the prefix. *)
Fixpoint drop_prefix (p s : string) : option string :=
  match p with
  | EmptyString => Some s
  | String a p' =>
      match s with
      | EmptyString => None
      | String b s' => if Ascii.eqb a b then drop_prefix p' s' else None
      end
  end.

Definition startswith (p s : string) : bool :=
  match drop_prefix p s with
  | Some _ => true
  | None => false
  end.

(** [needle in hay] *)
Fixpoint contains (needle hay : string) : bool :=
  startswith needle hay ||
  match hay with
  | EmptyString => false
  | String _ r => contains needle r
  end.

(** [s.replace(old, new)] for a non-empty [old]: occurrences are replaced
    left to right, without overlap.  [skip] counts the characters of a
    matched occurrence that are still to be passed over. *)
Fixpoint replace_from (skip : nat) (old new s : string) : string :=
  match s with
  | EmptyString => EmptyString
  | String c r =>
      match skip with
      | S k => replace_from k old new r
      | O =>
          if startswith old s
          then new +:+ replace_from (String.length old - 1) old new r
          else String c (replace_from 0 old new r)
      end
  end.

Definition replace (s old new : string) : string := replace_from 0 old new s.

(** *** Regular expressions

    The two patterns of the policy service are sequences of a literal, a
    greedy run of a character class and a final non-empty greedy run that
    is captured.  In both, the character that has to follow a run is
    outside the run's class, so backtracking into a run never yields a
    match and the match at a given start is the one computed here. *)

(** [re.search]: the match at the leftmost start where one exists. *)
Fixpoint re_search {A : Type} (match_at : string -> option A) (s : string)
  : option A :=
  match match_at s with
  | Some g => Some g
  | None =>
      match s with
      | EmptyString => None
      | String _ r => re_search match_at r
      end
  end.

(** A captured non-empty run [(p+)] at the start of [s]. *)
Definition capture_plus (p : ascii -> bool) (s : string) : option string :=
  let g := take_while p s in
  if is_empty g then None else Some g.

(** *** Integers *)

(** CPython's default limit on the number of digits [int(str)] accepts;
    beyond it the conversion raises [ValueError]. *)
Definition int_max_str_digits : nat := 4300.

Definition digit_value (c : ascii) : Z := Z.of_nat (code c - 48).

Fixpoint decimal_from (acc : Z) (s : string) : Z :=
  match s with
  | EmptyString => acc
  | String c r => decimal_from (10 * acc + digit_value c) r
  end.

Definition decimal (s : string) : Z := decimal_from 0 s.

(** [int(s)] for text; [Raise ValueError] unless [s] is a non-empty run of
    decimal digits within the digit limit.  (The callers below only pass
    the capture of [(\d+)].) *)
Definition int (s : string) : result Z :=
  if is_empty s || negb (all_chars isdigit s) then Raise ValueError
  else if (int_max_str_digits <? String.length s)%nat then Raise ValueError
  else Ok (decimal s).

(** *** Numbers *)

Definition Qlt_bool (x y : Q) : bool := negb (Qle_bool y x).

(** [min(a, b)] and [max(a, b)]: the first argument unless the second is
    strictly smaller (larger). *)
Definition min (a b : Q) : Q := if Qlt_bool b a then b else a.
Definition max (a b : Q) : Q := if Qlt_bool a b then b else a.

(** *** Arithmetic in binary64

    A finite binary64 value is a multiple [m * 2^e] of a power of two with
    [|m| < 2^53] and [-1074 <= e <= 971].  An arithmetic operation answers
    with the exact result rounded to the nearest such value, an exact middle
    going to the neighbour with the even [m], and with an infinity when the
    rounded result reaches [2^1024]. *)

(** What an operation on finite values answers (never a NaN, for a
    subtraction). *)
Inductive float64 : Type :=
| Finite (q : Q)
| PosInf
| NegInf.

(** The nearest integer, an exact half going to the even neighbour. *)
Definition rne (y : Q) : Z :=
  let f := Qfloor y in
  match Qcompare (y - inject_Z f) (1 # 2) with
  | Lt => f
  | Gt => (f + 1)%Z
  | Eq => if Z.even f then f else (f + 1)%Z
  end.

(** The number of low bits a non-negative [y] has beyond 53. *)
Definition shift (y : Q) : Z := Z.max 0 (Z.log2 (Qfloor y) - 52).

(** A non-negative [y] rounded to an integer of at most 53 significant
    bits. *)
Definition round53 (y : Q) : Z :=
  let s := shift y in
  (rne (y / inject_Z (2 ^ s)) * 2 ^ s)%Z.

(** The same for either sign: rounding to nearest even is symmetric. *)
Definition round_int (y : Q) : Z :=
  if Qle_bool 0 y then round53 y else (- round53 (- y))%Z.

(** Every finite binary64 value is an integer multiple of [2^-1074], below
    [2^1024 = huge / scale] in absolute value. *)
Definition scale : Z := 2 ^ 1074.
Definition huge : Z := 2 ^ 2098.

(** The binary64 value nearest to a rational. *)
Definition round64 (x : Q) : float64 :=
  let m := round_int (x * inject_Z scale) in
  if (huge <=? m)%Z then PosInf
  else if (m <=? - huge)%Z then NegInf
  else Finite (Qred (inject_Z m / inject_Z scale)).

(** The finite binary64 value an amount stands for: the amount itself
    when it is one, and the nearest one otherwise, as for a literal such as
    [3000.1] (for an amount within the range of the finite values). *)
Definition nearest (x : Q) : Q :=
  Qred (inject_Z (round_int (x * inject_Z scale)) / inject_Z scale).

(** [a - b] on binary64 values: their exact difference, rounded. *)
Definition fsub (a b : Q) : float64 := round64 (nearest a - nearest b).

(** The rational a [PrimFloat] value is; [None] for a NaN.  It relates the
    definitions above to the binary64 arithmetic of [PrimFloat]. *)
Definition Q_of_float (f : float) : option float64 :=
  match Prim2SF f with
  | S754_zero _ => Some (Finite 0)
  | S754_infinity s => Some (if s then NegInf else PosInf)
  | S754_nan => None
  | S754_finite s m e =>
      let v := if (0 <=? e)%Z then inject_Z (Zpos m * 2 ^ e)
               else (inject_Z (Zpos m) / inject_Z (2 ^ (- e)))%Q in
      Some (Finite (Qred (if s then (- v)%Q else v)))
  end.

(** [x or 0] for an [Optional[float]]: [None] and zero are falsy. *)
Definition or_zero (x : option Q) : Q :=
  match x with
  | Some c => if Qeq_bool c 0 then 0%Q else c
  | None => 0%Q
  end.

Definition float_of_nat (n : nat) : float :=
  PrimFloat.of_uint63 (Uint63.of_Z (Z.of_nat n)).

(** [len(a) / len(b)]: true division of two small integers. *)
Definition len_ratio {A : Type} (a b : list A) : float :=
  (float_of_nat (length a) / float_of_nat (length b))%float.

(** *** Datetimes *)

Record datetime : Type := {
  micros : Z;              (* position on the time line, in microseconds *)
  utcoffset : option Z     (* [None] for a naive datetime *)
}.

Definition naive (t : Z) : datetime := {| micros := t; utcoffset := None |}.

(** [a < b]: naive values compare by their fields, aware values by their
    UTC instant; comparing a naive with an aware value raises
    [TypeError]. *)
Definition dt_lt (a b : datetime) : result bool :=
  match utcoffset a, utcoffset b with
  | None, None => Ok (micros a <? micros b)%Z
  | Some oa, Some ob => Ok (micros a - oa <? micros b - ob)%Z
  | _, _ => Raise TypeError
  end.

Definition dt_gt (a b : datetime) : result bool := dt_lt b a.

Definition micros_per_day : Z := 86400 * 1000000.

(** [d - timedelta(days=n)] *)
Definition minus_days (d : datetime) (n : Z) : datetime :=
  {| micros := (micros d - n * micros_per_day)%Z; utcoffset := utcoffset d |}.

End Py.


(** ** [fnol/schema.py]: the claim record *)

Module Fnol.

(** Modelled from the spec: [fnol/schema.py], which declares the claim
    record and its enumerations, is not among the sources.  The types of
    this module follow the data model of the specification and the
    attributes that [checker.py] and [service.py] read. *)
Inductive IncidentType : Type :=
| MISROUTE | DELAY | LOSS | PREDICTION_FAILURE | PRICING_ERROR
| SYSTEM_OUTAGE | DATA_ERROR | UNKNOWN.

(** Modelled from the spec: [IncidentType.value], the string of each
    member. *)
Definition IncidentType_value (t : IncidentType) : string :=
  match t with
  | MISROUTE => "misroute"
  | DELAY => "delay"
  | LOSS => "loss"
  | PREDICTION_FAILURE => "prediction_failure"
  | PRICING_ERROR => "pricing_error"
  | SYSTEM_OUTAGE => "system_outage"
  | DATA_ERROR => "data_error"
  | UNKNOWN => "unknown"
  end.

(** Modelled from the spec: the asset types.  The specification lists them
    up to an ellipsis; the members it does not name are gathered under
    [ASSET_OTHER]. *)
Inductive AssetType : Type :=
| SHIPMENT | PACKAGE | CONTAINER | AI_MODEL | SENSOR | ROUTE
| ASSET_OTHER (value : string)
| ASSET_UNKNOWN.

(** Modelled from the spec: the impact severities. *)
Inductive ImpactSeverity : Type :=
| MINOR | MODERATE | SEVERE | CRITICAL | SEVERITY_UNKNOWN.

(** Modelled from the spec: where a field's value came from, and the
    extractor's confidence in it. *)
Record Provenance : Type := {
  source_modality : string;
  confidence : Q;
  raw_snippet : option string
}.

(** Modelled from the spec: the claimant. *)
Record ClaimantInfo : Type := {
  name : option string;
  policy_number : option string;
  contact_phone : option string;
  contact_email : option string
}.

(** Modelled from the spec: an incident date is a [datetime] or, as
    [check_claim] provides for, a string still to be parsed. *)
Inductive DateValue : Type :=
| DateObject (d : Py.datetime)
| DateString (s : string).

(** Modelled from the spec: the incident, each primary field with its
    provenance. *)
Record IncidentInfo : Type := {
  incident_type : IncidentType;
  incident_type_provenance : option Provenance;
  incident_description : option string;
  incident_description_provenance : option Provenance;
  incident_location : option string;
  incident_location_provenance : option Provenance;
  incident_date : option DateValue
}.

(** Modelled from the spec: the operational impact. *)
Record OperationalImpactInfo : Type := {
  asset_type : AssetType;
  asset_type_provenance : option Provenance;
  impact_severity : ImpactSeverity;
  estimated_liability_cost : option Q;
  system_component : option string
}.

(** Modelled from the spec: the evidence checklist. *)
Record EvidenceChecklist : Type := {
  has_system_logs : bool;
  system_log_count : Z;
  has_incident_report : bool;
  has_liability_assessment : bool;
  missing_evidence : list string
}.

(** Modelled from the spec: the conflicts recorded by fusion. *)
Record ConsistencyFlags : Type := {
  has_conflicts : bool;
  conflict_details : list string
}.

(** Modelled from the spec: the claim. *)
Record OperationalLiabilityClaim : Type := {
  claim_id : string;
  claimant : ClaimantInfo;
  incident : IncidentInfo;
  operational_impact : OperationalImpactInfo;
  evidence : EvidenceChecklist;
  consistency : ConsistencyFlags
}.

(** [a == b] on the members of the enumerations. *)
Definition IncidentType_eqb (a b : IncidentType) : bool :=
  match a, b with
  | MISROUTE, MISROUTE | DELAY, DELAY | LOSS, LOSS
  | PREDICTION_FAILURE, PREDICTION_FAILURE | PRICING_ERROR, PRICING_ERROR
  | SYSTEM_OUTAGE, SYSTEM_OUTAGE | DATA_ERROR, DATA_ERROR
  | UNKNOWN, UNKNOWN => true
  | _, _ => false
  end.

Definition is_asset_unknown (a : AssetType) : bool :=
  match a with
  | ASSET_UNKNOWN => true
  | _ => false
  end.

Definition ImpactSeverity_eqb (a b : ImpactSeverity) : bool :=
  match a, b with
  | MINOR, MINOR | MODERATE, MODERATE | SEVERE, SEVERE
  | CRITICAL, CRITICAL | SEVERITY_UNKNOWN, SEVERITY_UNKNOWN => true
  | _, _ => false
  end.

End Fnol.

(** ** [fnol/checker.py] *)

Module Checker.
Import Py Fnol.

(** The messages appended to [contradictions].  The source builds them as
    text; each constructor stands for one message template and carries the
    values the template interpolates. *)
Inductive Contradiction : Type :=
| LowConfidenceIncidentType
    (* Low confidence on incident type classification (confidence < 0.3) *)
| LowConfidenceAssetType
    (* Low confidence on asset type classification (confidence < 0.3) *)
| LowConfidenceDescription
    (* Low confidence on incident description extraction (confidence < 0.3) *)
| CriticalButCostOnly (cost : Q)
    (* Severity marked as CRITICAL but estimated cost is only ${cost:.2f}
       (expected >$5000) *)
| SevereButCostOnly (cost : Q)
    (* Severity marked as SEVERE but estimated cost is only ${cost:.2f}
       (expected >$1000) *)
| MinorButCost (cost : Q)
    (* Severity marked as MINOR but estimated cost is ${cost:.2f}
       (expected <$50000) *)
| DescriptionWithoutLogs
    (* Incident description provided but no system logs uploaded *)
| HighCostWithoutAssessment (cost : Q)
    (* High estimated cost (${cost:.2f}) but no liability assessment
       provided *)
| DateInFuture (d : datetime)
    (* Incident date is in the future: {incident_date.isoformat()} *)
| DateTooOld (d : datetime)
    (* Incident date is more than 2 years old: {incident_date.isoformat()} *)
| LowConfidenceLocation.
    (* Incident location provided but with very low confidence
       (confidence < 0.3) *)

Record CheckReport : Type := {
  completeness_score : float;
  missing_required_evidence : list string;
  contradictions : list Contradiction;
  recommended_questions : list string
}.

(** The three lists a tier block works on: [tierN_items],
    [tierN_present] and the shared [missing_evidence]. *)
Record tier_state : Type := {
  items : list string;
  present : list string;
  missing : list string
}.

(** One block
    [items.append(name); if ok: present.append(name)
     else: missing_evidence.append(name)]. *)
Definition check_item (item : string) (ok : bool) (st : tier_state)
  : tier_state :=
  {| items := items st ++ [item];
     present := if ok then present st ++ [item] else present st;
     missing := if ok then missing st else missing st ++ [item] |}.

Definition new_tier (missing_evidence : list string) : tier_state :=
  {| items := []; present := []; missing := missing_evidence |}.

(** [x and x.strip()] as a condition. *)
Definition nonblank (o : option string) : bool :=
  match o with
  | Some s => truthy s && truthy (strip s)
  | None => false
  end.

Definition is_some {A : Type} (o : option A) : bool :=
  match o with
  | Some _ => true
  | None => false
  end.

Definition tier1 (claim : OperationalLiabilityClaim) (missing_evidence : list string)
  : tier_state :=
  let st := new_tier missing_evidence in
  let st := check_item "system_logs"
              (has_system_logs (evidence claim)
               && (1 <=? system_log_count (evidence claim))%Z) st in
  let st := check_item "incident_description"
              (nonblank (incident_description (incident claim))) st in
  let st := check_item "incident_type"
              (negb (IncidentType_eqb (incident_type (incident claim)) UNKNOWN)) st in
  check_item "asset_type"
    (negb (is_asset_unknown (asset_type (operational_impact claim)))) st.

Definition tier2 (claim : OperationalLiabilityClaim) (missing_evidence : list string)
  : tier_state :=
  let st := new_tier missing_evidence in
  let st := check_item "incident_location"
              (nonblank (incident_location (incident claim))) st in
  let st := check_item "estimated_liability_cost"
              (is_some (estimated_liability_cost (operational_impact claim))) st in
  check_item "incident_date" (is_some (incident_date (incident claim))) st.

Definition tier3 (claim : OperationalLiabilityClaim) (missing_evidence : list string)
  : tier_state :=
  let st := new_tier missing_evidence in
  let st := check_item "liability_assessment"
              (has_liability_assessment (evidence claim)) st in
  let st := check_item "system_component"
              (nonblank (system_component (operational_impact claim))) st in
  check_item "multiple_logs" (2 <=? system_log_count (evidence claim))%Z st.

(** [(len(present) / len(items)) * weight if items else 0.0] *)
Definition tier_score (st : tier_state) (weight : float) : float :=
  match items st with
  | [] => 0%float
  | _ :: _ => (len_ratio (present st) (items st) * weight)%float
  end.

(** The float literals [0.6], [0.3] and [0.1]. *)
Definition weight1 : float := 0x1.3333333333333p-1%float.
Definition weight2 : float := 0x1.3333333333333p-2%float.
Definition weight3 : float := 0x1.999999999999ap-4%float.

(** [prov and prov.confidence < 0.3] *)
Definition low_confidence (prov : option Provenance) : bool :=
  match prov with
  | Some p => Qlt_bool (confidence p) (3 # 10)
  | None => false
  end.

Definition when {A : Type} (b : bool) (x : A) : list A :=
  if b then [x] else [].

(** 1. Low confidence on critical fields. *)
Definition confidence_contradictions (claim : OperationalLiabilityClaim)
  : list Contradiction :=
  when (low_confidence (incident_type_provenance (incident claim)))
       LowConfidenceIncidentType
  ++ when (low_confidence (asset_type_provenance (operational_impact claim)))
       LowConfidenceAssetType
  ++ when (low_confidence (incident_description_provenance (incident claim)))
       LowConfidenceDescription.

(** 2. Severity against cost. *)
Definition severity_contradictions (severity : ImpactSeverity) (cost : option Q)
  : list Contradiction :=
  match cost with
  | Some c =>
      when (ImpactSeverity_eqb severity CRITICAL && Qlt_bool c 5000)
           (CriticalButCostOnly c)
      ++ when (ImpactSeverity_eqb severity SEVERE && Qlt_bool c 1000)
           (SevereButCostOnly c)
      ++ when (ImpactSeverity_eqb severity MINOR && Qlt_bool 50000 c)
           (MinorButCost c)
  | None => []
  end.

(** 3. A description but no logs. *)
Definition logs_contradictions (claim : OperationalLiabilityClaim)
  : list Contradiction :=
  when (negb (has_system_logs (evidence claim))
        && truthy_opt (incident_description (incident claim)))
       DescriptionWithoutLogs.

(** 4. A high cost without a liability assessment. *)
Definition assessment_contradictions (claim : OperationalLiabilityClaim)
  (cost : option Q) : list Contradiction :=
  match cost with
  | Some c =>
      when (Qlt_bool 25000 c && negb (has_liability_assessment (evidence claim)))
           (HighCostWithoutAssessment c)
  | None => []
  end.

(** 6. A location with low confidence. *)
Definition location_contradictions (claim : OperationalLiabilityClaim)
  : list Contradiction :=
  when (truthy_opt (incident_location (incident claim))
        && is_some (incident_location_provenance (incident claim))
        && low_confidence (incident_location_provenance (incident claim)))
       LowConfidenceLocation.

(** Truth value of the [incident_date] attribute: a [datetime] is always
    true, a string when it is not empty. *)
Definition date_truthy (d : DateValue) : bool :=
  match d with
  | DateObject _ => true
  | DateString s => truthy s
  end.

Definition question_logs : string :=
  "Can you provide system logs or telemetry data from the incident?".
Definition question_description : string :=
  "Can you describe what happened and how the operational failure occurred?".
Definition question_incident_type : string :=
  "Can you clarify the type of incident? (misroute, delay, loss, data error, prediction failure, pricing error, system outage)".
Definition question_asset_type : string :=
  "What type of asset was affected? (shipment, package, container, AI model, sensor, route, etc.)".
Definition question_location : string :=
  "Can you provide the system node, hub ID, or facility where the incident occurred?".
Definition question_date : string := "When did the incident occur?".
Definition question_cost : string :=
  "Do you have a liability estimate or expected cost range?".
Definition question_severity : string :=
  "How would you describe the impact severity? (minor, moderate, severe, or critical)".

(** [name in missing_evidence] *)
Definition mem (x : string) (l : list string) : bool :=
  existsb (String.eqb x) l.

Definition questions (claim : OperationalLiabilityClaim)
  (missing_evidence : list string) : list string :=
  let recommended :=
    when (mem "system_logs" missing_evidence) question_logs
    ++ when (mem "incident_description" missing_evidence) question_description
    ++ when (mem "incident_type" missing_evidence
             || (IncidentType_eqb (incident_type (incident claim)) UNKNOWN
                 || low_confidence (incident_type_provenance (incident claim))))
         question_incident_type
    ++ when (mem "asset_type" missing_evidence) question_asset_type
    ++ when (mem "incident_location" missing_evidence) question_location
    ++ when (mem "incident_date" missing_evidence) question_date
    ++ when (mem "estimated_liability_cost" missing_evidence) question_cost
    ++ when (ImpactSeverity_eqb (impact_severity (operational_impact claim))
               SEVERITY_UNKNOWN)
         question_severity in
  take 3 recommended.

Section WithParser.

(** [datetime.fromisoformat] of the standard library; [None] stands for
    its [ValueError]. *)
Variable fromisoformat : string -> option datetime.

(** The value the date check works on: the attribute itself, or the
    parse of [s.replace('Z', '+00:00').replace('+00:00', '')]; [None]
    after a [ValueError]. *)
Definition date_to_check (d : DateValue) : option datetime :=
  match d with
  | DateObject t => Some t
  | DateString s =>
      fromisoformat (replace (replace s "Z" "+00:00") "+00:00" "")
  end.

(** 5. An incident date in the future or more than two years old. *)
Definition date_contradictions (now : datetime) (date : option DateValue)
  : result (list Contradiction) :=
  match date with
  | Some d =>
      if date_truthy d then
        match date_to_check d with
        | Some incident_date =>
            future ← dt_gt incident_date now;
            if (future : bool) then Ok [DateInFuture incident_date]
            else
              old ← dt_lt incident_date (minus_days now 730);
              if (old : bool) then Ok [DateTooOld incident_date] else Ok []
        | None => Ok []
        end
      else Ok []
  | None => Ok []
  end.

(** [utcnow] is the reading of the clock, which [datetime.utcnow()] returns
    as a naive datetime. *)
Definition check_claim (utcnow : Z) (claim : OperationalLiabilityClaim)
  : result CheckReport :=
  let missing_evidence := [] in
  let t1 := tier1 claim missing_evidence in
  let t2 := tier2 claim (missing t1) in
  let t3 := tier3 claim (missing t2) in
  let missing_evidence := missing t3 in
  let tier1_score := tier_score t1 weight1 in
  let tier2_score := tier_score t2 weight2 in
  let tier3_score := tier_score t3 weight3 in
  let completeness_score := (tier1_score + tier2_score + tier3_score)%float in
  let severity := impact_severity (operational_impact claim) in
  let cost := estimated_liability_cost (operational_impact claim) in
  let contradictions :=
    confidence_contradictions claim
    ++ severity_contradictions severity cost
    ++ logs_contradictions claim
    ++ assessment_contradictions claim cost in
  dated ← date_contradictions (naive utcnow) (incident_date (incident claim));
  let contradictions :=
    contradictions ++ dated ++ location_contradictions claim in
  Ok {| completeness_score := completeness_score;
        missing_required_evidence := missing_evidence;
        contradictions := contradictions;
        recommended_questions := questions claim missing_evidence |}.

End WithParser.

End Checker.

(** ** [policy/schema.py] *)

Module PolicySchema.

Record ExtraInfoRule : Type := {
  condition : string;
  required_evidence : string;
  question_hint : option string;
  required : bool
}.

Record ResolutionRules : Type := {
  auto_resolve_max_amount : Q;
  require_name_match : bool;
  require_evidence_complete : bool;
  require_incident_type_covered : bool
}.

Record Policy : Type := {
  policy_number : string;
  named_insured : string;
  effective_from : option Py.datetime;
  effective_to : option Py.datetime;
  coverage_description : option string;
  covered_incident_types : list string;
  limit_amount : Q;
  deductible : Q;
  per_incident_type_limits : option (gmap string Q);
  extra_info_rules : list ExtraInfoRule;
  resolution_rules : ResolutionRules
}.

End PolicySchema.

(** ** [policy/service.py] *)

Module PolicyService.
Import Py PolicySchema.

Definition _normalize_name (name : option string) : string :=
  match name with
  | None => ""
  | Some n => if truthy n then join " " (split (lower (strip n))) else ""
  end.

(** The helpers below read a claim given as a model object; [t.value] is
    the enumeration member's string. *)
Definition _claim_incident_type (claim : Fnol.OperationalLiabilityClaim)
  : string :=
  Fnol.IncidentType_value (Fnol.incident_type (Fnol.incident claim)).

Definition _claim_estimated_cost (claim : Fnol.OperationalLiabilityClaim)
  : option Q :=
  Fnol.estimated_liability_cost (Fnol.operational_impact claim).

(** The dictionary [_claim_evidence] returns, with its three keys. *)
Record EvidenceFlags : Type := {
  has_system_logs : bool;
  has_liability_assessment : bool;
  has_incident_report : bool
}.

Definition _claim_evidence (claim : Fnol.OperationalLiabilityClaim)
  : EvidenceFlags :=
  {| has_system_logs := Fnol.has_system_logs (Fnol.evidence claim);
     has_liability_assessment :=
       Fnol.has_liability_assessment (Fnol.evidence claim);
     has_incident_report := Fnol.has_incident_report (Fnol.evidence claim) |}.

(** [x in policy.covered_incident_types] *)
Definition mem (x : string) (l : list string) : bool :=
  existsb (String.eqb x) l.

Definition verify_claimant_name (policy : Policy) (claimant_name : option string)
  : bool :=
  if negb (truthy (named_insured policy)) then false
  else
    let a := _normalize_name (Some (named_insured policy)) in
    let b := _normalize_name claimant_name in
    if negb (truthy b) then false
    else String.eqb a b || contains b a || contains a b.

(** Truth value of a [dict]: non-empty. *)
Definition dict_truthy (m : gmap string Q) : bool :=
  truthy_list (map_to_list m).

Definition compute_payout (claim : Fnol.OperationalLiabilityClaim)
  (policy : Policy) : option Q :=
  let incident_type := _claim_incident_type claim in
  if negb (mem incident_type (covered_incident_types policy)) then None
  else
    match _claim_estimated_cost claim with
    | None => None
    | Some cost =>
        if Qlt_bool cost 0 then None
        else
          let cap := limit_amount policy in
          let cap :=
            match per_incident_type_limits policy with
            | Some limits =>
                if dict_truthy limits then
                  match limits !! incident_type with
                  | Some type_limit => Py.min cap type_limit
                  | None => cap
                  end
                else cap
            | None => cap
            end in
          match fsub cost (deductible policy) with
          | Finite difference =>
              let after_deductible := Py.max 0 difference in
              Some (Py.min after_deductible cap)
          | PosInf =>
              (* max(0.0, inf) is inf, and min(inf, cap) is cap *)
              Some cap
          | NegInf =>
              (* max(0.0, -inf) is 0.0 *)
              Some (Py.min 0 cap)
          end
    end.

(** [re.search(r"incident_type\s*==\s*(\w+)", cond)], giving [m.group(1)]. *)
Definition match_incident_type_at (s : string) : option string :=
  rest ← drop_prefix "incident_type" s;
  rest ← drop_prefix "==" (skip_while isspace rest);
  capture_plus isword (skip_while isspace rest).

Definition search_incident_type (cond : string) : option string :=
  re_search match_incident_type_at cond.

(** [re.search(r">\s*(\d+)", cond)], giving [m.group(1)]. *)
Definition match_threshold_at (s : string) : option string :=
  rest ← drop_prefix ">" s;
  capture_plus isdigit (skip_while isspace rest).

Definition search_threshold (cond : string) : option string :=
  re_search match_threshold_at cond.

(** The condition part of the loop body: [true] when the rule is passed
    over ([continue]) on account of its condition. *)
Definition condition_skips (incident_type : string) (cost : Q)
  (rule : ExtraInfoRule) : bool :=
  let cond := lower (condition rule) in
  if contains "incident_type" cond && contains "==" cond then
    match search_incident_type cond with
    | Some group1 => negb (String.eqb incident_type (lower group1))
    | None => false
    end
  else if contains "estimated_liability_cost" cond || contains "cost" cond then
    match search_threshold cond with
    | Some group1 =>
        match Py.int group1 with
        | Ok n => Qle_bool cost (inject_Z n)
        | Raise _ => false       (* except Exception: pass *)
        end
    | None => false
    end
  else false.

(** The evidence part: [true] when the named evidence is already there. *)
Definition evidence_skips (evidence : EvidenceFlags) (rule : ExtraInfoRule)
  : bool :=
  let req := lower (required_evidence rule) in
  if String.eqb req "system_logs" && has_system_logs evidence then true
  else if String.eqb req "incident_report" && has_incident_report evidence then true
  else if String.eqb req "liability_assessment"
          && has_liability_assessment evidence then true
  else false.

(** What the rule appends to [out]. *)
Definition prompt (rule : ExtraInfoRule) : string :=
  if truthy_opt (question_hint rule) then default "" (question_hint rule)
  else "Please provide " +:+ replace (required_evidence rule) "_" " " +:+ ".".

(** The [for rule in policy.extra_info_rules] loop, with [out] as its
    state. *)
Fixpoint extra_info_loop (incident_type : string) (cost : Q)
  (evidence : EvidenceFlags) (rules : list ExtraInfoRule) (out : list string)
  : list string :=
  match rules with
  | [] => out
  | rule :: rest =>
      let continue := extra_info_loop incident_type cost evidence rest in
      if negb (required rule) then continue out
      else if condition_skips incident_type cost rule then continue out
      else if evidence_skips evidence rule then continue out
      else continue (out ++ [prompt rule])
  end.

Definition get_required_extra_info (claim : Fnol.OperationalLiabilityClaim)
  (policy : Policy) : list string :=
  let incident_type := _claim_incident_type claim in
  let cost := or_zero (_claim_estimated_cost claim) in
  let evidence := _claim_evidence claim in
  extra_info_loop incident_type cost evidence (extra_info_rules policy) [].

Definition can_auto_resolve (claim : Fnol.OperationalLiabilityClaim)
  (policy : Policy) (name_verified fraud_flagged : bool) : bool :=
  if fraud_flagged then false
  else
    let rules := resolution_rules policy in
    if require_name_match rules && negb name_verified then false
    else if require_incident_type_covered rules
            && negb (mem (_claim_incident_type claim)
                       (covered_incident_types policy)) then false
    else
      let cost := or_zero (_claim_estimated_cost claim) in
      if Qlt_bool (auto_resolve_max_amount rules) cost then false
      else if require_evidence_complete rules
              && truthy_list (get_required_extra_info claim policy)
      then false
      else true.

End PolicyService.

(** ** [policy/store.py] *)

Module PolicyStore.
Import Py PolicySchema.

Section WithRows.

(** A row of the [policies] table.  [save] fills its columns through
    [json.dumps] and [isoformat], and [_row_to_policy] reads them back
    through [json.loads] and the pydantic constructors; both are taken as
    given, and the table is the finite map from its primary key
    [policy_number] to the row. *)
Variable Row : Type.
Variable row_of_policy : Policy -> Row.
Variable _row_to_policy : Row -> Policy.

(** [SELECT * FROM policies WHERE policy_number = ?], answered for the
    stripped key; [None] for an empty or blank key or when no row matches. *)
Definition get_by_policy_number (table : gmap string Row) (policy_number : string)
  : option Policy :=
  if negb (truthy policy_number) || negb (truthy (strip policy_number)) then None
  else
    match table !! strip policy_number with
    | None => None
    | Some row => Some (_row_to_policy row)
    end.

(** [INSERT OR REPLACE INTO policies ...], keyed by the policy's number as
    it stands. *)
Definition save (table : gmap string Row) (policy : Policy) : gmap string Row :=
  <[policy_number policy := row_of_policy policy]> table.

(** [SELECT * FROM policies ORDER BY policy_number LIMIT ?]: the rows in
    the binary order of their keys, at most [limit] of them.  The limit is
    taken not to be negative (SQLite reads a negative one as no limit). *)
Definition list_all (table : gmap string Row) (limit : nat) : list Policy :=
  let rows :=
    merge_sort (fun a b : string * Row => String.le (fst a) (fst b))
      (map_to_list table) in
  (fun r : string * Row => _row_to_policy (snd r)) <$> take limit rows.

End WithRows.

End PolicyStore.

(** ** [policy/service.py]: policy lookup and the rule-based coverage check *)

Module PolicyServiceRest.
Import Py PolicySchema PolicyService.

(** Keeping the characters of a class: [re.sub(r"\D", "", p)] keeps the
    digits. *)
Fixpoint keep_chars (p : ascii -> bool) (s : string) : string :=
  match s with
  | EmptyString => EmptyString
  | String c r => if p c then String c (keep_chars p r) else keep_chars p r
  end.

Section WithStore.

(** [self.store.get_by_policy_number] *)
Variable store_get : string -> option Policy.

Definition get_policy (policy_number : string) : option Policy :=
  if negb (truthy policy_number) then None
  else
    let p := strip policy_number in
    match store_get p with
    | Some policy => Some policy
    | None =>
        let digits := keep_chars isdigit p in
        if truthy digits then store_get digits else None
    end.

End WithStore.

Definition _claimant_name (claim : Fnol.OperationalLiabilityClaim) : option string :=
  Fnol.name (Fnol.claimant claim).

Definition _claimant_policy_number (claim : Fnol.OperationalLiabilityClaim)
  : option string :=
  Fnol.policy_number (Fnol.claimant claim).

(** The two texts [check_coverage] gives as [reason]; the first
    interpolates the incident type and the policy's covered types. *)
Inductive CoverageReason : Type :=
| NotInCoveredTypes (incident_type : string) (covered : list string)
    (* Incident type '{incident_type}' is not in policy's covered types:
       {policy.covered_incident_types}. *)
| CoveredByPolicy.
    (* Incident type covered under policy; payout computed from limits and
       deductible. *)

Record CoverageResult : Type := {
  is_covered : bool;
  reason : CoverageReason;
  required_evidence : list string;
  suggested_payout_cap : option Q
}.

(** [CoverageResult(...)]: the constructor validates
    [suggested_payout_cap] against its bound [ge=0] and raises pydantic's
    [ValidationError], a [ValueError], when a cap is below it. *)
Definition new_CoverageResult (covered : bool) (why : CoverageReason)
  (evidence : list string) (cap : option Q) : result CoverageResult :=
  let r := {| is_covered := covered; reason := why;
              required_evidence := evidence; suggested_payout_cap := cap |} in
  match cap with
  | Some x => if Qle_bool 0 x then Ok r else Raise ValueError
  | None => Ok r
  end.

Definition check_coverage (claim : Fnol.OperationalLiabilityClaim)
  (policy : Policy) : result CoverageResult :=
  let incident_type := _claim_incident_type claim in
  if negb (mem incident_type (covered_incident_types policy)) then
    new_CoverageResult false
      (NotInCoveredTypes incident_type (covered_incident_types policy)) [] None
  else
    let payout := compute_payout claim policy in
    let required := get_required_extra_info claim policy in
    new_CoverageResult true CoveredByPolicy required payout.

End PolicyServiceRest.

(** ** [policy/llm_coverage.py]: the reply of the model *)

Module LlmCoverage.
Import Py.

(** The line feed. *)
Definition LF : ascii := "010"%char.

(** [s.split(sep)] for a one-character separator: the pieces between the
    separators, empty ones included. *)
Fixpoint split_on (sep : ascii) (s : string) : list string :=
  match s with
  | EmptyString => [EmptyString]
  | String c r =>
      if Ascii.eqb c sep then EmptyString :: split_on sep r
      else
        match split_on sep r with
        | w :: ws => String c w :: ws
        | [] => [String c EmptyString]
        end
  end.

(** [lines[-1]] of a non-empty list; [lines[:-1]] is [removelast]. *)
Definition last_line (lines : list string) : string := List.last lines "".

Definition fence : string := "```".

(** The text handed to [json.loads]: the stripped reply, without its
    Markdown code fence when it starts with one. *)
Definition unfence (content : string) : string :=
  let text := strip content in
  if startswith fence text then
    let lines := split_on LF text in
    let lines :=
      if startswith fence (hd "" lines) then tl lines else lines in
    let lines :=
      if truthy_list lines && String.eqb (strip (last_line lines)) fence
      then removelast lines else lines in
    join (String LF "") lines
  else text.

End LlmCoverage.

(* ===================================================================== *)
(** * Part II: the vocabulary of the specification, and sample inputs      *)
(* ===================================================================== *)

Module Spec.
Import Py Fnol Checker PolicySchema PolicyService.

(** ** Text *)

(** [needle] occurs in [hay]. *)
Definition substring_of (needle hay : string) : Prop :=
  exists before after, hay = before +:+ needle +:+ after.

Fixpoint has_char (c : ascii) (s : string) : Prop :=
  match s with
  | EmptyString => False
  | String x r => x = c \/ has_char c r
  end.

Definition spaces (s : string) : Prop := all_chars isspace s = true.

(** A word of a name: non-empty, without white space. *)
Definition word (s : string) : Prop :=
  s <> "" /\ all_chars (fun c => negb (isspace c)) s = true.

Definition lowercase (s : string) : Prop :=
  all_chars (fun c => negb (isupper c)) s = true.

(** ** The completeness score *)

(** Present and non-empty after trimming. *)
Definition filled (o : option string) : bool :=
  match o with
  | Some s => negb (is_empty (strip s))
  | None => false
  end.

Definition tier1_items (claim : OperationalLiabilityClaim) : list bool :=
  [ Fnol.has_system_logs (evidence claim) && (1 <=? system_log_count (evidence claim))%Z;
    filled (incident_description (incident claim));
    negb (IncidentType_eqb (incident_type (incident claim)) UNKNOWN);
    negb (is_asset_unknown (asset_type (operational_impact claim))) ].

Definition tier2_items (claim : OperationalLiabilityClaim) : list bool :=
  [ filled (incident_location (incident claim));
    is_some (estimated_liability_cost (operational_impact claim));
    is_some (incident_date (incident claim)) ].

Definition tier3_items (claim : OperationalLiabilityClaim) : list bool :=
  [ Fnol.has_liability_assessment (evidence claim);
    filled (system_component (operational_impact claim));
    (2 <=? system_log_count (evidence claim))%Z ].

Definition satisfied (items : list bool) : nat :=
  length (List.filter (fun b => b) items).

(** The binary64 values of the literals 0.6, 0.3, 0.1, 0.9 and of the two
    sums the code forms from them. *)
Definition f0_6 : float := 0x1.3333333333333p-1%float.
Definition f0_3 : float := 0x1.3333333333333p-2%float.
Definition f0_1 : float := 0x1.999999999999ap-4%float.
Definition f0_9 : float := 0x1.ccccccccccccdp-1%float.
Definition f0_9_below : float := 0x1.cccccccccccccp-1%float.   (* 0.8999999999999999 *)
Definition f1_below : float := 0x1.fffffffffffffp-1%float.     (* 0.9999999999999999 *)

(** (satisfied items / items in the tier) times the tier weight. *)
Definition subscore (items : list bool) (weight : float) : float :=
  (float_of_nat (satisfied items) / float_of_nat (length items) * weight)%float.

Definition score (claim : OperationalLiabilityClaim) : float :=
  (subscore (tier1_items claim) f0_6
   + subscore (tier2_items claim) f0_3
   + subscore (tier3_items claim) f0_1)%float.

Definition in_unit_interval (x : float) : Prop :=
  PrimFloat.leb 0 x = true /\ PrimFloat.leb x 1 = true.

Definition all_satisfied (items : list bool) : Prop := satisfied items = length items.
Definition none_satisfied (items : list bool) : Prop := satisfied items = 0%nat.

(** The score of a returned report. *)
Definition score_of (r : result CheckReport) : option float :=
  match r with
  | Ok report => Some (completeness_score report)
  | Raise _ => None
  end.

(** ** Contradictions *)

Definition is_severity_cost (m : Contradiction) : bool :=
  match m with
  | CriticalButCostOnly _ | SevereButCostOnly _ | MinorButCost _ => true
  | _ => false
  end.

Definition is_date_message (m : Contradiction) : bool :=
  match m with
  | DateInFuture _ | DateTooOld _ => true
  | _ => false
  end.

Definition severity_of (claim : OperationalLiabilityClaim) : ImpactSeverity :=
  impact_severity (operational_impact claim).

Definition cost_of (claim : OperationalLiabilityClaim) : option Q :=
  estimated_liability_cost (operational_impact claim).


(** The date messages of a returned report. *)
Definition date_messages (r : result CheckReport) : option (list Contradiction) :=
  match r with
  | Ok report => Some (List.filter is_date_message (contradictions report))
  | Raise _ => None
  end.

(** A report without its date messages. *)
Definition without_date_messages (report : CheckReport) : CheckReport :=
  {| completeness_score := completeness_score report;
     missing_required_evidence := missing_required_evidence report;
     contradictions :=
       List.filter (fun m => negb (is_date_message m)) (contradictions report);
     recommended_questions := recommended_questions report |}.

(** The datetime the date check compares with the clock, if any: the
    incident date when it is a datetime, its parse when it is a non-empty
    string that parses. *)
Definition checked_date (fromisoformat : string -> option datetime)
  (claim : OperationalLiabilityClaim) : option datetime :=
  match incident_date (incident claim) with
  | Some d => if date_truthy d then date_to_check fromisoformat d else None
  | None => None
  end.

(** No UTC offset on the date to check. *)
Definition naive_date (fromisoformat : string -> option datetime)
  (claim : OperationalLiabilityClaim) : Prop :=
  forall t, checked_date fromisoformat claim = Some t -> utcoffset t = None.

(** 730 days, in microseconds. *)
Definition two_years : Z := 730 * micros_per_day.

(** The report a returning run of [check_claim] assembles around its date
    messages (the body of [check_claim] after the date check). *)
Definition report_with (claim : OperationalLiabilityClaim)
  (dated : list Contradiction) : CheckReport :=
  let t1 := tier1 claim [] in
  let t2 := tier2 claim (missing t1) in
  let t3 := tier3 claim (missing t2) in
  {| completeness_score :=
       (tier_score t1 weight1 + tier_score t2 weight2 + tier_score t3 weight3)%float;
     missing_required_evidence := missing t3;
     contradictions :=
       (confidence_contradictions claim
        ++ severity_contradictions (severity_of claim) (cost_of claim)
        ++ logs_contradictions claim
        ++ assessment_contradictions claim (cost_of claim))
       ++ dated ++ location_contradictions claim;
     recommended_questions := questions claim (missing t3) |}.

Definition returns {A : Type} (r : result A) : Prop :=
  match r with
  | Ok _ => True
  | Raise _ => False
  end.

Definition with_date (claim : OperationalLiabilityClaim) (d : option DateValue)
  : OperationalLiabilityClaim :=
  {| claim_id := claim_id claim;
     claimant := claimant claim;
     incident :=
       {| incident_type := incident_type (incident claim);
          incident_type_provenance := incident_type_provenance (incident claim);
          incident_description := incident_description (incident claim);
          incident_description_provenance :=
            incident_description_provenance (incident claim);
          incident_location := incident_location (incident claim);
          incident_location_provenance :=
            incident_location_provenance (incident claim);
          incident_date := d |};
     operational_impact := operational_impact claim;
     evidence := evidence claim;
     consistency := consistency claim |}.

(** ** Payout *)

Definition claim_type (claim : OperationalLiabilityClaim) : string :=
  IncidentType_value (incident_type (incident claim)).

Definition covered (policy : Policy) (claim : OperationalLiabilityClaim) : Prop :=
  In (claim_type claim) (covered_incident_types policy).

(** The per-type limit defined for an incident type, if any. *)
Definition type_limit (policy : Policy) (incident_type : string) : option Q :=
  match per_incident_type_limits policy with
  | Some limits => limits !! incident_type
  | None => None
  end.

Definition applicable_cap (policy : Policy) (incident_type : string) : Q :=
  match type_limit policy incident_type with
  | Some l => Qmin (limit_amount policy) l
  | None => limit_amount policy
  end.

(** min(max(0, cost - deductible), cap) *)
Definition payout_formula (policy : Policy) (incident_type : string) (cost : Q) : Q :=
  Qmin (Qmax 0 (cost - deductible policy)) (applicable_cap policy incident_type).

(** The payout from the binary64 difference of cost and deductible:
    min(max(0, difference), cap), where an infinite difference leaves the
    cap, and a negatively infinite one min(0, cap). *)
Definition payout_of (difference : float64) (cap : Q) : Q :=
  match difference with
  | Finite t => Qmin (Qmax 0 t) cap
  | PosInf => cap
  | NegInf => Qmin 0 cap
  end.

(** min(max(0, cost - deductible), cap), the subtraction being that of
    binary64. *)
Definition rounded_payout (policy : Policy) (incident_type : string) (cost : Q) : Q :=
  payout_of (fsub cost (deductible policy)) (applicable_cap policy incident_type).

(** A finite binary64 value: [m * 2^e] with [|m| < 2^53] and
    [-1074 <= e <= 971], here with [t = e + 1074]. *)
Definition binary64 (x : Q) : Prop :=
  exists m t : Z,
    (Z.abs m < 2 ^ 53)%Z /\ (0 <= t <= 2045)%Z
    /\ (x * inject_Z scale == inject_Z (m * 2 ^ t))%Q.

(** The order of the results of an operation. *)
Definition float64_le (a b : float64) : Prop :=
  match a, b with
  | NegInf, _ => True
  | _, PosInf => True
  | Finite x, Finite y => (x <= y)%Q
  | _, _ => False
  end.

(** The payout of a covered claim with a cost that is not negative is the
    formula with the exact difference. *)
Definition pays_exact_formula (claim : OperationalLiabilityClaim) (policy : Policy)
  : Prop :=
  forall cost,
    covered policy claim -> cost_of claim = Some cost -> (0 <= cost)%Q ->
    exists x, compute_payout claim policy = Some x
              /\ (x == payout_formula policy (claim_type claim) cost)%Q.

Definition with_deductible (policy : Policy) (d : Q) : Policy :=
  {| policy_number := policy_number policy;
     named_insured := named_insured policy;
     effective_from := effective_from policy;
     effective_to := effective_to policy;
     coverage_description := coverage_description policy;
     covered_incident_types := covered_incident_types policy;
     limit_amount := limit_amount policy;
     deductible := d;
     per_incident_type_limits := per_incident_type_limits policy;
     extra_info_rules := extra_info_rules policy;
     resolution_rules := resolution_rules policy |}.

Definition with_rules (policy : Policy) (rules : list ExtraInfoRule) : Policy :=
  {| policy_number := policy_number policy;
     named_insured := named_insured policy;
     effective_from := effective_from policy;
     effective_to := effective_to policy;
     coverage_description := coverage_description policy;
     covered_incident_types := covered_incident_types policy;
     limit_amount := limit_amount policy;
     deductible := deductible policy;
     per_incident_type_limits := per_incident_type_limits policy;
     extra_info_rules := rules;
     resolution_rules := resolution_rules policy |}.

Definition with_cost (claim : OperationalLiabilityClaim) (c : option Q)
  : OperationalLiabilityClaim :=
  {| claim_id := claim_id claim;
     claimant := claimant claim;
     incident := incident claim;
     operational_impact :=
       {| asset_type := asset_type (operational_impact claim);
          asset_type_provenance := asset_type_provenance (operational_impact claim);
          impact_severity := impact_severity (operational_impact claim);
          estimated_liability_cost := c;
          system_component := system_component (operational_impact claim) |};
     evidence := evidence claim;
     consistency := consistency claim |}.

(** The cost, taken as 0 when absent. *)
Definition cost_or_zero (claim : OperationalLiabilityClaim) : Q :=
  default 0%Q (cost_of claim).

(** ** Extra-information rules *)

(** The two supported conditions. *)
Inductive shape : Type :=
| TypeEquals (value : string)
| CostAbove (threshold : Z).

(** The lower-cased text of a condition of each shape:
    [incident_type == <value>] and [cost > <N>] (or
    [estimated_liability_cost > <N>]), with any white space around the
    operator. *)
Definition shape_text (sh : shape) (text : string) : Prop :=
  match sh with
  | TypeEquals value =>
      exists ws1 ws2,
        spaces ws1 /\ spaces ws2 /\ value <> "" /\ all_chars isword value = true /\
        text = "incident_type" +:+ ws1 +:+ "==" +:+ ws2 +:+ value
  | CostAbove threshold =>
      exists field ws1 ws2 digits,
        (field = "cost" \/ field = "estimated_liability_cost") /\
        spaces ws1 /\ spaces ws2 /\
        digits <> "" /\ all_chars isdigit digits = true /\
        (String.length digits <= int_max_str_digits)%nat /\
        decimal digits = threshold /\
        text = field +:+ ws1 +:+ ">" +:+ ws2 +:+ digits
  end.

(** A condition reads as a shape without regard to letter case. *)
Definition reads_as (condition : string) (sh : shape) : Prop :=
  shape_text sh (lower condition).

Definition shape_holds (claim : OperationalLiabilityClaim) (sh : shape) : bool :=
  match sh with
  | TypeEquals value => String.eqb (claim_type claim) value
  | CostAbove threshold => Qlt_bool (inject_Z threshold) (cost_or_zero claim)
  end.

(** The named evidence is already on the claim. *)
Definition evidence_present (claim : OperationalLiabilityClaim)
  (rule : ExtraInfoRule) : bool :=
  let named := lower (required_evidence rule) in
  (String.eqb named "system_logs" && Fnol.has_system_logs (evidence claim))
  || (String.eqb named "incident_report" && Fnol.has_incident_report (evidence claim))
  || (String.eqb named "liability_assessment"
      && Fnol.has_liability_assessment (evidence claim)).

(** The rules that contribute a prompt. *)
Definition wanted (claim : OperationalLiabilityClaim)
  (shape_of : ExtraInfoRule -> shape) (rule : ExtraInfoRule) : bool :=
  required rule && shape_holds claim (shape_of rule)
  && negb (evidence_present claim rule).

(** The rules the loop of [get_required_extra_info] does not pass over. *)
Definition kept (incident_type : string) (cost : Q) (evidence : EvidenceFlags)
  (rule : ExtraInfoRule) : bool :=
  required rule
  && negb (condition_skips incident_type cost rule)
  && negb (evidence_skips evidence rule).

(** The text holds a match of [incident_type\s*==\s*\w+]. *)
Definition mentions_type_equality (text : string) : Prop :=
  exists before ws1 ws2 c after,
    spaces ws1 /\ spaces ws2 /\ isword c = true /\
    text = before +:+ "incident_type" +:+ ws1 +:+ "==" +:+ ws2 +:+ String c after.

(** The text names the cost and holds a match of [>\s*\d+]. *)
Definition mentions_cost_threshold (text : string) : Prop :=
  substring_of "cost" text /\
  exists before ws d after,
    spaces ws /\ isdigit d = true /\
    text = before +:+ ">" +:+ ws +:+ String d after.

(** The generated sentence for a rule without a hint. *)
Definition generated_prompt (rule : ExtraInfoRule) : string :=
  "Please provide " +:+ replace (required_evidence rule) "_" " " +:+ ".".

(** ** Name verification *)

Definition normalized_insured (policy : Policy) : string :=
  _normalize_name (Some (named_insured policy)).

(** Equal, or one a substring of the other. *)
Definition names_agree (a b : string) : Prop :=
  a = b \/ substring_of b a \/ substring_of a b.

(** Trimmed, white space collapsed, lower case: single-spaced lower-case
    words. *)
Definition normal_form (s : string) : Prop :=
  lowercase s /\ exists words, Forall word words /\ s = join " " words.

(** The matching rule without the guard on the insured's name. *)
Definition matches_by_names_alone (policy : Policy) (claimant_name : option string)
  : Prop :=
  verify_claimant_name policy claimant_name = true <->
  _normalize_name claimant_name <> "" /\
  names_agree (normalized_insured policy) (_normalize_name claimant_name).

(** ** Auto-resolution gates *)

Definition gate_name (policy : Policy) (name_verified : bool) : Prop :=
  require_name_match (resolution_rules policy) = true -> name_verified = true.

Definition gate_covered (policy : Policy) (claim : OperationalLiabilityClaim) : Prop :=
  require_incident_type_covered (resolution_rules policy) = true -> covered policy claim.

Definition gate_amount (policy : Policy) (claim : OperationalLiabilityClaim) : Prop :=
  (cost_or_zero claim <= auto_resolve_max_amount (resolution_rules policy))%Q.

Definition gate_evidence (policy : Policy) (claim : OperationalLiabilityClaim) : Prop :=
  require_evidence_complete (resolution_rules policy) = true ->
  get_required_extra_info claim policy = [].

End Spec.

(** ** Sample inputs *)

Module Fixtures.
Import Py Fnol Checker PolicySchema PolicyService Spec.

(** 2024-01-15T10:30:00, in microseconds since 1970-01-01T00:00:00. *)
Definition jan_15_2024 : Z := 1705314600000000.

(** A stand-in for [datetime.fromisoformat] on three inputs: a naive
    timestamp, the same with the offset +05:30, and text that is no date. *)
Definition sample_fromisoformat (s : string) : option datetime :=
  if String.eqb s "2024-01-15T10:30:00" then Some (naive jan_15_2024)
  else if String.eqb s "2024-01-15T10:30:00+05:30" then
    Some {| micros := jan_15_2024; utcoffset := Some 19800000000%Z |}
  else None.

Definition make_claim (type : IncidentType) (severity : ImpactSeverity)
  (cost : option Q) (location component : option string)
  (date : option DateValue) (logs : bool) (log_count : Z) (assessment : bool)
  : OperationalLiabilityClaim :=
  {| claim_id := "CLM-0001";
     claimant :=
       {| name := Some "Acme Corp";
          Fnol.policy_number := Some "POL-TT-123";
          contact_phone := None;
          contact_email := None |};
     incident :=
       {| incident_type := type;
          incident_type_provenance := None;
          incident_description :=
            Some "Shipment delayed 48 hours due to routing model failure";
          incident_description_provenance := None;
          incident_location := location;
          incident_location_provenance := None;
          incident_date := date |};
     operational_impact :=
       {| asset_type := SHIPMENT;
          asset_type_provenance := None;
          impact_severity := severity;
          estimated_liability_cost := cost;
          system_component := component |};
     evidence :=
       {| Fnol.has_system_logs := logs;
          system_log_count := log_count;
          Fnol.has_incident_report := false;
          Fnol.has_liability_assessment := assessment;
          missing_evidence := [] |};
     consistency := {| has_conflicts := false; conflict_details := [] |} |}.

(** A delay claim of 3000 with one log, a location and a date. *)
Definition delay_claim : OperationalLiabilityClaim :=
  make_claim DELAY MODERATE (Some 3000%Q) (Some "HUB-LAX-03") None
    (Some (DateObject (naive jan_15_2024))) true 1 false.

(** The binary64 values of the literals [3000.1], [0.05] and of their
    binary64 difference [3000.0499999999997]. *)
Definition f3000_1 : Q := 6597289668981555 # 2199023255552.
Definition f0_05 : Q := 3602879701896397 # 72057594037927936.
Definition f3000_05_below : Q := 6597179717818777 # 2199023255552.

(** The same claim at a cost of 10^16, and at a cost of 3000.1. *)
Definition large_claim : OperationalLiabilityClaim :=
  make_claim DELAY MODERATE (Some 10000000000000000%Q) (Some "HUB-LAX-03") None
    (Some (DateObject (naive jan_15_2024))) true 1 false.

Definition odd_cents_claim : OperationalLiabilityClaim :=
  make_claim DELAY MODERATE (Some f3000_1) (Some "HUB-LAX-03") None
    (Some (DateObject (naive jan_15_2024))) true 1 false.

(** Pairs of binary64 values, among them ties, subnormal values and values
    whose difference overflows. *)
Definition subtraction_samples : list (float * float) :=
  [ (0x1.1c37937e08000p+53, 0x1p+0)%float;
    (0x1.7703333333333p+11, 0x1.999999999999ap-5)%float;
    (0x1p+0, 0x1p-60)%float;
    (0x1.0000000000001p+0, 0x1p-53)%float;
    (0x1.0000000000002p+0, 0x1p-53)%float;
    (0x1p-1074, 0x1p-1073)%float;
    (0x1p-1022, 0x1.8p-1074)%float;
    (0x1.fffffffffffffp+1023, -0x1p+969)%float;
    (0x1.fffffffffffffp+1023, -0x1p+970)%float;
    (-0x1.fffffffffffffp+1023, 0x1.fffffffffffffp+1023)%float;
    (0x1.3880000000000p+13, 0x1.f400000000000p+8)%float;
    (0x1.8p+1, 0x1.8p+1)%float ].

(** [fsub] answers as [PrimFloat] subtracts. *)
Definition agrees_with_PrimFloat (a b : float) : bool :=
  match Q_of_float a, Q_of_float b, Q_of_float (a - b)%float with
  | Some (Finite x), Some (Finite y), Some (Finite z) =>
      match fsub x y with Finite r => Qeq_bool r z | _ => false end
  | Some (Finite x), Some (Finite y), Some PosInf =>
      match fsub x y with PosInf => true | _ => false end
  | Some (Finite x), Some (Finite y), Some NegInf =>
      match fsub x y with NegInf => true | _ => false end
  | _, _, _ => false
  end.

(** All of tier 1 and nothing else. *)
Definition tier1_claim : OperationalLiabilityClaim :=
  make_claim DELAY MODERATE None None None None true 1 false.

(** All of tiers 1 and 2, nothing of tier 3. *)
Definition tier12_claim : OperationalLiabilityClaim := delay_claim.

(** Every item of every tier. *)
Definition complete_claim : OperationalLiabilityClaim :=
  make_claim DELAY MODERATE (Some 3000%Q) (Some "HUB-LAX-03") (Some "router")
    (Some (DateObject (naive jan_15_2024))) true 2 true.


(** An incident date that carries a UTC offset:
    2024-01-15T10:30:00+00:00. *)
Definition aware_date : datetime :=
  {| micros := jan_15_2024; utcoffset := Some 0%Z |}.

Definition aware_claim : OperationalLiabilityClaim :=
  with_date delay_claim (Some (DateObject aware_date)).

Definition prediction_claim : OperationalLiabilityClaim :=
  make_claim PREDICTION_FAILURE MODERATE (Some 3000%Q) (Some "HUB-LAX-03") None
    (Some (DateObject (naive jan_15_2024))) true 1 false.

Definition default_rules : ResolutionRules :=
  {| auto_resolve_max_amount := 5000;
     require_name_match := true;
     require_evidence_complete := true;
     require_incident_type_covered := true |}.

Definition make_policy (insured : string) (covered_types : list string)
  (limit deduct : Q) (type_limits : option (gmap string Q))
  (rules : list ExtraInfoRule) : Policy :=
  {| policy_number := "POL-TT-123";
     named_insured := insured;
     effective_from := None;
     effective_to := None;
     coverage_description := None;
     covered_incident_types := covered_types;
     limit_amount := limit;
     deductible := deduct;
     per_incident_type_limits := type_limits;
     extra_info_rules := rules;
     resolution_rules := default_rules |}.

(** Covers delays up to 10000 after a deductible of 500. *)
Definition acme_policy : Policy :=
  make_policy "Acme Corp" ["delay"] 10000 500 None [].

(** A limit of 10^17 and a deductible of 1. *)
Definition unit_deductible_policy : Policy :=
  make_policy "Acme Corp" ["delay"] 100000000000000000 1 None [].

(** A deductible of 0.05. *)
Definition small_deductible_policy : Policy :=
  make_policy "Acme Corp" ["delay"] 10000 f0_05 None [].

Definition capped_policy : Policy :=
  make_policy "Acme Corp" ["delay"; "loss"] 10000 500
    (Some {[ "delay" := 2000%Q ]}) [].

Definition unnamed_policy : Policy :=
  make_policy "" ["delay"] 10000 500 None [].

Definition prediction_rule : ExtraInfoRule :=
  {| condition := "incident_type == prediction_failure";
     required_evidence := "liability_assessment";
     question_hint := None;
     required := true |}.

Definition cost_rule : ExtraInfoRule :=
  {| condition := "estimated_liability_cost > 2500";
     required_evidence := "system_logs";
     question_hint := Some "Please upload the system logs for this incident.";
     required := true |}.

(** A comparison the pattern [>\s*(\d+)] does not match. *)
Definition malformed_rule : ExtraInfoRule :=
  {| condition := "cost >= 5000";
     required_evidence := "incident_report";
     question_hint := None;
     required := true |}.

Definition rules_policy : Policy :=
  make_policy "Acme Corp" ["delay"; "prediction_failure"] 10000 500 None
    [prediction_rule; cost_rule].

Definition sample_shape_of (rule : ExtraInfoRule) : shape :=
  if String.eqb (condition rule) "incident_type == prediction_failure"
  then TypeEquals "prediction_failure"
  else CostAbove 2500.

End Fixtures.

(** ** Further vocabulary and sample inputs *)

Module SpecMore.
Import Py Fnol Checker PolicySchema PolicyService PolicyServiceRest Spec.

(** *** The checker's lists *)

Definition tier1_names : list string :=
  ["system_logs"; "incident_description"; "incident_type"; "asset_type"].
Definition tier2_names : list string :=
  ["incident_location"; "estimated_liability_cost"; "incident_date"].
Definition tier3_names : list string :=
  ["liability_assessment"; "system_component"; "multiple_logs"].

Definition all_names : list string := tier1_names ++ tier2_names ++ tier3_names.

(** The ten items, tier by tier. *)
Definition all_items (claim : OperationalLiabilityClaim) : list bool :=
  tier1_items claim ++ tier2_items claim ++ tier3_items claim.

(** The names whose item is not satisfied, in order. *)
Fixpoint unsatisfied (names : list string) (flags : list bool) : list string :=
  match names, flags with
  | name :: names', flag :: flags' =>
      if flag then unsatisfied names' flags' else name :: unsatisfied names' flags'
  | _, _ => []
  end.



(** The score of a claim with [a], [b] and [c] satisfied items in the
    three tiers. *)
Definition score_of_counts (a b c : nat) : float :=
  (float_of_nat a / float_of_nat 4 * f0_6
   + float_of_nat b / float_of_nat 3 * f0_3
   + float_of_nat c / float_of_nat 3 * f0_1)%float.





(** A provenance with a confidence strictly below 0.3. *)
Definition doubtful (prov : option Provenance) : Prop :=
  exists p, prov = Some p /\ (confidence p < 3 # 10)%Q.

(** Present and not the empty string. *)
Definition given (o : option string) : Prop :=
  exists s, o = Some s /\ s <> "".

(** The place of a message in the order of the six checks. *)
Definition rank (m : Contradiction) : nat :=
  match m with
  | LowConfidenceIncidentType => 0
  | LowConfidenceAssetType => 1
  | LowConfidenceDescription => 2
  | CriticalButCostOnly _ => 3
  | SevereButCostOnly _ => 4
  | MinorButCost _ => 5
  | DescriptionWithoutLogs => 6
  | HighCostWithoutAssessment _ => 7
  | DateInFuture _ => 8
  | DateTooOld _ => 9
  | LowConfidenceLocation => 10
  end.

(** The messages come in the order of the checks, none twice. *)
Definition in_check_order (messages : list Contradiction) : Prop :=
  StronglySorted lt (rank <$> messages).

(** *** Policies *)

(** The bounds [ge=0] of [policy/schema.py] on [limit_amount],
    [deductible] and [auto_resolve_max_amount]. *)
Definition valid_policy (policy : Policy) : Prop :=
  (0 <= limit_amount policy)%Q /\ (0 <= deductible policy)%Q
  /\ (0 <= auto_resolve_max_amount (resolution_rules policy))%Q.

(** The claim with other evidence flags. *)
Definition with_evidence (claim : OperationalLiabilityClaim)
  (logs report assessment : bool) : OperationalLiabilityClaim :=
  {| claim_id := claim_id claim;
     claimant := claimant claim;
     incident := incident claim;
     operational_impact := operational_impact claim;
     evidence :=
       {| Fnol.has_system_logs := logs;
          system_log_count := system_log_count (evidence claim);
          Fnol.has_incident_report := report;
          Fnol.has_liability_assessment := assessment;
          missing_evidence := missing_evidence (evidence claim) |};
     consistency := consistency claim |}.

(** The policy with another named insured. *)
Definition with_insured (policy : Policy) (insured : string) : Policy :=
  {| policy_number := policy_number policy;
     named_insured := insured;
     effective_from := effective_from policy;
     effective_to := effective_to policy;
     coverage_description := coverage_description policy;
     covered_incident_types := covered_incident_types policy;
     limit_amount := limit_amount policy;
     deductible := deductible policy;
     per_incident_type_limits := per_incident_type_limits policy;
     extra_info_rules := extra_info_rules policy;
     resolution_rules := resolution_rules policy |}.

(** The result of the rule-based check for a covered claim. *)
Definition covered_result (claim : OperationalLiabilityClaim) (policy : Policy)
  : CoverageResult :=
  {| is_covered := true;
     reason := CoveredByPolicy;
     required_evidence := get_required_extra_info claim policy;
     suggested_payout_cap := compute_payout claim policy |}.

Definition not_covered_result (claim : OperationalLiabilityClaim) (policy : Policy)
  : CoverageResult :=
  {| is_covered := false;
     reason := NotInCoveredTypes (claim_type claim) (covered_incident_types policy);
     required_evidence := [];
     suggested_payout_cap := None |}.

(** A negative per-type limit is defined for the claim's incident type. *)
Definition negative_type_limit (claim : OperationalLiabilityClaim) (policy : Policy)
  : Prop :=
  exists l, type_limit policy (claim_type claim) = Some l /\ (l < 0)%Q.

(** The cost is present and not negative. *)
Definition payable_cost (claim : OperationalLiabilityClaim) : Prop :=
  exists c, cost_of claim = Some c /\ (0 <= c)%Q.

(** *** The store *)

(** The policy read from the row stored under exactly this key; nothing
    is stored under the empty key as far as lookups go. *)
Definition stored {Row : Type} (_row_to_policy : Row -> Policy)
  (table : gmap string Row) (key : string) : option Policy :=
  if is_empty key then None else _row_to_policy <$> table !! key.

(** Rows compared by their keys. *)
Definition key_le {Row : Type} (a b : string * Row) : Prop :=
  String.le (fst a) (fst b).

(** [rows] are the first [limit] rows of the table in the order of the
    keys: as many as the limit and the table allow, sorted, all from the
    table, and every row of the table left out has a key that is not below
    any of theirs. *)
Definition first_rows {Row : Type} (table : gmap string Row) (limit : nat)
  (rows : list (string * Row)) : Prop :=
  length rows = Nat.min limit (size table)
  /\ StronglySorted key_le rows
  /\ (forall key row, (key, row) ∈ rows -> table !! key = Some row)
  /\ (forall key row, table !! key = Some row ->
      (key, row) ∈ rows \/ forall kr, kr ∈ rows -> String.le (fst kr) key).

(** The digits of a text. *)
Definition digits_of (s : string) : string := keep_chars isdigit s.

(** *** Replies *)

Definition no_line_feed (s : string) : Prop :=
  all_chars (fun c => negb (Ascii.eqb c LlmCoverage.LF)) s = true.

(** A reply wrapped in a Markdown code fence: the opening fence with an
    optional language tag, the body, and the closing fence on a line of its
    own. *)
Definition fenced (lang body : string) : string :=
  LlmCoverage.fence +:+ lang +:+ String LlmCoverage.LF
    (body +:+ String LlmCoverage.LF LlmCoverage.fence).

End SpecMore.

Module FixturesMore.
Import Py Fnol Checker PolicySchema PolicyService PolicyServiceRest Spec Fixtures
  SpecMore.

(** A description of white space only, and no logs. *)
Definition blank_claim : OperationalLiabilityClaim :=
  {| claim_id := "CLM-0002";
     claimant := claimant delay_claim;
     incident :=
       {| incident_type := DELAY;
          incident_type_provenance :=
            Some {| source_modality := "text"; confidence := 1 # 5;
                    raw_snippet := None |};
          incident_description := Some "   ";
          incident_description_provenance := None;
          incident_location := Some "HUB-LAX-03";
          incident_location_provenance :=
            Some {| source_modality := "text"; confidence := 3 # 10;
                    raw_snippet := None |};
          incident_date := None |};
     operational_impact :=
       {| asset_type := SHIPMENT;
          asset_type_provenance := None;
          impact_severity := MINOR;
          estimated_liability_cost := Some 60000%Q;
          system_component := None |};
     evidence :=
       {| Fnol.has_system_logs := false;
          system_log_count := 0;
          Fnol.has_incident_report := false;
          Fnol.has_liability_assessment := false;
          missing_evidence := [] |};
     consistency := {| has_conflicts := false; conflict_details := [] |} |}.

(** The per-type limit for delays is negative. *)
Definition negative_limit_policy : Policy :=
  make_policy "Acme Corp" ["delay"] 10000 500
    (Some {[ "delay" := (-100)%Q ]}) [].

(** The insured's name is three spaces. *)
Definition blank_insured_policy : Policy :=
  make_policy "   " ["delay"] 10000 500 None [].

Definition three_rules_policy : Policy :=
  make_policy "Acme Corp" ["delay"; "prediction_failure"] 10000 500 None
    [prediction_rule; cost_rule; malformed_rule].

(** The sample policy under the number 987654. *)
Definition numbered_policy : Policy :=
  {| policy_number := "987654";
     named_insured := named_insured acme_policy;
     effective_from := effective_from acme_policy;
     effective_to := effective_to acme_policy;
     coverage_description := coverage_description acme_policy;
     covered_incident_types := covered_incident_types acme_policy;
     limit_amount := limit_amount acme_policy;
     deductible := deductible acme_policy;
     per_incident_type_limits := per_incident_type_limits acme_policy;
     extra_info_rules := extra_info_rules acme_policy;
     resolution_rules := resolution_rules acme_policy |}.

(** A table with one row; rows are the policies themselves. *)
Definition sample_table : gmap string Policy :=
  {[ "987654" := numbered_policy ]}.

End FixturesMore.

(* ===================================================================== *)
(** * Part III: properties                                                 *)
(* ===================================================================== *)

(** ** Facts about the Python model *)

Module PyFacts.
Import Py Spec.

Lemma app_assoc (a b c : string) : (a +:+ b) +:+ c = a +:+ (b +:+ c).
Proof. induction a as [|x a IH]; simpl; [reflexivity | now rewrite IH]. Qed.

Lemma is_empty_true (s : string) : is_empty s = true <-> s = "".
Proof. destruct s; simpl; split; congruence. Qed.

Lemma truthy_true (s : string) : truthy s = true <-> s <> "".
Proof. destruct s; unfold truthy; simpl; split; congruence. Qed.

(** *** Prefixes and substrings *)

Lemma drop_prefix_spec (p s r : string) :
  drop_prefix p s = Some r <-> s = p +:+ r.
Proof.
  revert s. induction p as [|a p IH]; intros s; simpl.
  - split; congruence.
  - destruct s as [|b s]; [split; discriminate |].
    destruct (Ascii.eqb_spec a b) as [->|Hne].
    + rewrite IH. split; congruence.
    + split; [discriminate | congruence].
Qed.

Lemma drop_prefix_app (p r : string) : drop_prefix p (p +:+ r) = Some r.
Proof. now apply drop_prefix_spec. Qed.

Lemma startswith_spec (p s : string) :
  startswith p s = true <-> exists r, s = p +:+ r.
Proof.
  unfold startswith. destruct (drop_prefix p s) as [r|] eqn:E.
  - apply drop_prefix_spec in E. split; eauto.
  - split; [discriminate |]. intros [r Hr].
    apply drop_prefix_spec in Hr. congruence.
Qed.

Lemma contains_spec (needle hay : string) :
  contains needle hay = true <-> substring_of needle hay.
Proof.
  induction hay as [|c hay IH].
  - simpl. rewrite orb_false_r, startswith_spec. split.
    + intros [r Hr]. now exists "", r.
    + intros (b & a & H). destruct b; [now exists a | discriminate].
  - cbn [contains]. rewrite orb_true_iff, startswith_spec, IH. split.
    + intros [[r Hr] | (b & a & H)].
      * now exists "", r.
      * exists (String c b), a. simpl. now rewrite H.
    + intros (b & a & H). destruct b as [|x b].
      * left. now exists a.
      * right. exists b, a. simpl in H. congruence.
Qed.

Lemma contains_false (needle hay : string) :
  contains needle hay = false <-> ~ substring_of needle hay.
Proof. rewrite <- contains_spec. destruct (contains needle hay); split; congruence. Qed.

Lemma has_char_app (c : ascii) (a b : string) :
  has_char c (a +:+ b) <-> has_char c a \/ has_char c b.
Proof. induction a as [|x a IH]; simpl; [tauto | rewrite IH; tauto]. Qed.

Lemma substring_has_char (needle hay : string) (c : ascii) :
  substring_of needle hay -> has_char c needle -> has_char c hay.
Proof.
  intros (b & a & ->) H. rewrite !has_char_app. tauto.
Qed.

Lemma all_chars_app (p : ascii -> bool) (a b : string) :
  all_chars p (a +:+ b) = all_chars p a && all_chars p b.
Proof. induction a as [|x a IH]; simpl; [reflexivity | now rewrite IH, andb_assoc]. Qed.

Lemma all_chars_no_char (p : ascii -> bool) (c : ascii) (s : string) :
  all_chars p s = true -> p c = false -> ~ has_char c s.
Proof.
  induction s as [|x s IH]; simpl; [tauto |].
  intros [Hx Hs]%andb_true_iff Hc [-> | H]; [congruence | now apply IH].
Qed.

(** *** Runs of a character class *)

Lemma skip_while_app (p : ascii -> bool) (a b : string) :
  all_chars p a = true -> skip_while p (a +:+ b) = skip_while p b.
Proof.
  induction a as [|x a IH]; simpl; [reflexivity |].
  intros [-> Ha]%andb_true_iff. now apply IH.
Qed.

Lemma skip_while_stop (p : ascii -> bool) (c : ascii) (s : string) :
  p c = false -> skip_while p (String c s) = String c s.
Proof. simpl. now intros ->. Qed.

Lemma take_while_all (p : ascii -> bool) (s : string) :
  all_chars p s = true -> take_while p s = s.
Proof.
  induction s as [|x s IH]; simpl; [reflexivity |].
  intros [-> Hs]%andb_true_iff. now rewrite IH.
Qed.

Lemma capture_plus_all (p : ascii -> bool) (s : string) :
  all_chars p s = true -> s <> "" -> capture_plus p s = Some s.
Proof.
  intros Hall Hne. unfold capture_plus. rewrite take_while_all by assumption.
  destruct s; [congruence | reflexivity].
Qed.

(** *** Lower case *)

Lemma lower_fixed (s : string) :
  all_chars (fun c => negb (isupper c)) s = true -> lower s = s.
Proof.
  induction s as [|x s IH]; simpl; [reflexivity |].
  intros [Hx Hs]%andb_true_iff. unfold lower_char.
  apply negb_true_iff in Hx. rewrite Hx. now rewrite IH.
Qed.

(** Case analysis on the comparisons that define the character classes. *)
Ltac class_cases :=
  unfold isspace, isword, isupper, islower, isdigit, between in *;
  repeat (match goal with
          | |- context [(?a <=? ?b)%nat] => destruct (Nat.leb_spec a b)
          | H : context [(?a <=? ?b)%nat] |- _ => destruct (Nat.leb_spec a b)
          | |- context [(?a =? ?b)%nat] => destruct (Nat.eqb_spec a b)
          | H : context [(?a =? ?b)%nat] |- _ => destruct (Nat.eqb_spec a b)
          end; cbn [andb orb negb] in *; try lia);
  try reflexivity; try discriminate.

Lemma isspace_not_word (c : ascii) : isspace c = true -> isword c = false.
Proof. class_cases. Qed.

Lemma isspace_not_digit (c : ascii) : isspace c = true -> isdigit c = false.
Proof. class_cases. Qed.

Lemma code_lower_char (c : ascii) :
  code (lower_char c) = if isupper c then (code c + 32)%nat else code c.
Proof.
  unfold lower_char. destruct (isupper c) eqn:E; [| reflexivity].
  unfold code. apply nat_ascii_embedding.
  unfold isupper, between, code in E.
  apply andb_true_iff in E as [_ E%Nat.leb_le]. lia.
Qed.

Lemma isupper_lower_char (c : ascii) : isupper (lower_char c) = false.
Proof.
  unfold isupper at 1. rewrite code_lower_char.
  destruct (isupper c) eqn:E; revert E; class_cases.
Qed.

Lemma lower_no_upper (s : string) :
  all_chars (fun c => negb (isupper c)) (lower s) = true.
Proof.
  induction s as [|x s IH]; simpl; [reflexivity |].
  now rewrite isupper_lower_char, IH.
Qed.

(** *** The search *)

Lemma re_search_here {A : Type} (m : string -> option A) (s : string) (g : A) :
  m s = Some g -> re_search m s = Some g.
Proof. intros H. destruct s; simpl; now rewrite H. Qed.

Lemma re_search_skip {A : Type} (m : string -> option A) (a b : string) :
  (forall a1 a2, a = a1 +:+ a2 -> a2 <> "" -> m (a2 +:+ b) = None) ->
  re_search m (a +:+ b) = re_search m b.
Proof.
  induction a as [|x a IH]; intros H; [reflexivity |].
  change (String x a +:+ b) with (String x (a +:+ b)).
  cbn [re_search].
  pose proof (H "" (String x a) eq_refl) as H0.
  change (String x a +:+ b) with (String x (a +:+ b)) in H0.
  rewrite H0 by discriminate.
  apply IH. intros a1 a2 -> Hne. apply (H (String x a1) a2); [reflexivity | assumption].
Qed.

(** *** Numbers *)

Lemma Qlt_bool_iff (x y : Q) : Qlt_bool x y = true <-> (x < y)%Q.
Proof.
  unfold Qlt_bool. rewrite negb_true_iff, <- not_true_iff_false, Qle_bool_iff.
  split; [apply Qnot_le_lt | apply Qlt_not_le].
Qed.

Lemma Qlt_bool_false (x y : Q) : Qlt_bool x y = false <-> (y <= x)%Q.
Proof.
  unfold Qlt_bool. rewrite negb_false_iff. apply Qle_bool_iff.
Qed.

(** Python's [min] and [max] choose as the mathematical ones do. *)
Lemma min_is_Qmin (a b : Q) : Py.min a b = Qmin a b.
Proof.
  unfold Py.min, Qmin, GenericMinMax.gmin.
  destruct (Qlt_bool b a) eqn:E.
  - apply Qlt_bool_iff in E. now rewrite (proj1 (Qgt_alt a b) E).
  - apply Qlt_bool_false in E. pose proof (proj1 (Qle_alt a b) E) as N.
    destruct (a ?= b)%Q eqn:C; try reflexivity; now elim N.
Qed.

Lemma max_is_Qmax (a b : Q) : Py.max a b = Qmax a b.
Proof.
  unfold Py.max, Qmax, GenericMinMax.gmax.
  destruct (Qlt_bool a b) eqn:E.
  - apply Qlt_bool_iff in E. now rewrite (proj1 (Qlt_alt a b) E).
  - apply Qlt_bool_false in E. pose proof (proj1 (Qge_alt a b) E) as N.
    destruct (a ?= b)%Q eqn:C; try reflexivity; now elim N.
Qed.

Lemma or_zero_eq (x : option Q) : (or_zero x == default 0 x)%Q.
Proof.
  destruct x as [c|]; simpl; [| reflexivity].
  destruct (Qeq_bool c 0) eqn:E; [| reflexivity].
  apply Qeq_bool_eq in E. now symmetry.
Qed.

End PyFacts.

(** ** Rounding to binary64 *)

Module FloatFacts.
Import Py Spec Fixtures.
Local Open Scope Q_scope.

Lemma rne_bounds (y : Q) : (Qfloor y <= rne y <= Qfloor y + 1)%Z.
Proof.
  unfold rne. destruct (Qcompare _ _); [destruct (Z.even _) | |]; lia.
Qed.

Lemma rne_comp (y y' : Q) : y == y' -> rne y = rne y'.
Proof.
  intros E. unfold rne. rewrite (Qfloor_comp _ _ E).
  assert (C : Qcompare (y - inject_Z (Qfloor y')) (1 # 2)
              = Qcompare (y' - inject_Z (Qfloor y')) (1 # 2)).
  { apply Qcompare_comp; [now rewrite E | reflexivity]. }
  now rewrite C.
Qed.

Lemma rne_inject (n : Z) : rne (inject_Z n) = n.
Proof.
  unfold rne. rewrite Qfloor_Z.
  assert (C : Qcompare (inject_Z n - inject_Z n) (1 # 2) = Lt).
  { apply Qlt_alt.
    assert (E : inject_Z n - inject_Z n == 0) by ring.
    rewrite E. reflexivity. }
  now rewrite C.
Qed.

Lemma rne_mono (y y' : Q) : y <= y' -> (rne y <= rne y')%Z.
Proof.
  intros H. pose proof (Qfloor_resp_le _ _ H) as F.
  pose proof (rne_bounds y) as B. pose proof (rne_bounds y') as B'.
  destruct (Z.eq_dec (Qfloor y) (Qfloor y')) as [E | N]; [| lia].
  unfold rne in *. rewrite <- E in *.
  destruct (Qcompare_spec (y - inject_Z (Qfloor y)) (1 # 2)) as [C | C | C];
    destruct (Qcompare_spec (y' - inject_Z (Qfloor y)) (1 # 2)) as [C' | C' | C'];
    try destruct (Z.even (Qfloor y)); try lia; exfalso; lra.
Qed.

Lemma Qfloor_lt (q : Q) (k : Z) : q < inject_Z k -> (Qfloor q < k)%Z.
Proof.
  intros H. rewrite Zlt_Qlt. eapply Qle_lt_trans; [apply Qfloor_le | exact H].
Qed.

Lemma Qfloor_ge (q : Q) (k : Z) : inject_Z k <= q -> (k <= Qfloor q)%Z.
Proof. intros H%Qfloor_resp_le. now rewrite Qfloor_Z in H. Qed.

Lemma Qfloor_nonneg (y : Q) : 0 <= y -> (0 <= Qfloor y)%Z.
Proof. intros H. now apply (Qfloor_ge y 0). Qed.

Lemma shift_nonneg (y : Q) : (0 <= shift y)%Z.
Proof. unfold shift. lia. Qed.

Lemma shift_mono (y y' : Q) : y <= y' -> (shift y <= shift y')%Z.
Proof.
  intros H%Qfloor_resp_le. unfold shift.
  pose proof (Z.log2_le_mono _ _ H). lia.
Qed.

Lemma shift_comp (y y' : Q) : y == y' -> shift y = shift y'.
Proof. intros E. unfold shift. now rewrite (Qfloor_comp _ _ E). Qed.

Lemma log2_upper (n : Z) : (0 <= n)%Z -> (n < 2 ^ (Z.log2 n + 1))%Z.
Proof.
  intros H. destruct (Z.eq_dec n 0%Z) as [-> | N]; [reflexivity |].
  apply Z.log2_spec. lia.
Qed.

Lemma below_binade (y : Q) : 0 <= y -> y < inject_Z (2 ^ (shift y + 53)).
Proof.
  intros H. pose proof (Qfloor_nonneg y H) as N.
  pose proof (log2_upper _ N) as U.
  assert (P : (2 ^ (Z.log2 (Qfloor y) + 1) <= 2 ^ (shift y + 53))%Z).
  { apply Z.pow_le_mono_r; [lia |]. unfold shift. lia. }
  eapply Qlt_le_trans; [apply Qlt_floor |].
  rewrite <- Zle_Qle. lia.
Qed.

Lemma above_binade (y : Q) :
  0 <= y -> (1 <= shift y)%Z -> inject_Z (2 ^ (shift y + 52)) <= y.
Proof.
  intros H S. pose proof (Qfloor_nonneg y H) as N.
  assert (L : (53 <= Z.log2 (Qfloor y))%Z) by (unfold shift in S; lia).
  assert (E : (shift y + 52 = Z.log2 (Qfloor y))%Z) by (unfold shift; lia).
  assert (Pn : (0 < Qfloor y)%Z).
  { destruct (Z.eq_dec (Qfloor y) 0%Z) as [Z0 | Z0]; [| lia].
    rewrite Z0 in L. cbn in L. lia. }
  pose proof (Z.log2_spec _ Pn) as [Lo _].
  eapply Qle_trans; [| apply Qfloor_le].
  rewrite <- Zle_Qle, E. exact Lo.
Qed.

Lemma pow2_Q_pos (s : Z) : (0 <= s)%Z -> 0 < inject_Z (2 ^ s).
Proof.
  intros H. change 0 with (inject_Z 0). rewrite <- Zlt_Qlt.
  now apply Z.pow_pos_nonneg.
Qed.

Lemma round53_upper (y : Q) : 0 <= y -> (round53 y <= 2 ^ (shift y + 53))%Z.
Proof.
  intros H. unfold round53. pose proof (shift_nonneg y) as S.
  pose proof (pow2_Q_pos _ S) as P.
  assert (F : (Qfloor (y / inject_Z (2 ^ shift y)) < 2 ^ 53)%Z).
  { apply Qfloor_lt. apply Qlt_shift_div_r; [exact P |].
    rewrite <- inject_Z_mult, <- Z.pow_add_r by lia.
    rewrite Z.add_comm. now apply below_binade. }
  pose proof (rne_bounds (y / inject_Z (2 ^ shift y))) as B.
  rewrite Z.pow_add_r by lia. rewrite Z.mul_comm.
  apply Z.mul_le_mono_nonneg_l; [| lia].
  apply Z.lt_le_incl, Z.pow_pos_nonneg; lia.
Qed.

Lemma round53_lower (y : Q) :
  0 <= y -> (1 <= shift y)%Z -> (2 ^ (shift y + 52) <= round53 y)%Z.
Proof.
  intros H S1. unfold round53. pose proof (shift_nonneg y) as S.
  pose proof (pow2_Q_pos _ S) as P.
  assert (F : (2 ^ 52 <= Qfloor (y / inject_Z (2 ^ shift y)))%Z).
  { apply Qfloor_ge. apply Qle_shift_div_l; [exact P |].
    rewrite <- inject_Z_mult, <- Z.pow_add_r by lia.
    rewrite Z.add_comm. now apply above_binade. }
  pose proof (rne_bounds (y / inject_Z (2 ^ shift y))) as B.
  rewrite Z.pow_add_r by lia. rewrite Z.mul_comm.
  apply Z.mul_le_mono_nonneg_r; [| lia].
  apply Z.lt_le_incl, Z.pow_pos_nonneg; lia.
Qed.

Lemma round53_nonneg (y : Q) : 0 <= y -> (0 <= round53 y)%Z.
Proof.
  intros H. unfold round53. pose proof (shift_nonneg y) as S.
  pose proof (pow2_Q_pos _ S) as P.
  assert (F : (0 <= Qfloor (y / inject_Z (2 ^ shift y)))%Z).
  { apply Qfloor_nonneg. apply Qle_shift_div_l; [exact P | lra]. }
  pose proof (rne_bounds (y / inject_Z (2 ^ shift y))) as B.
  apply Z.mul_nonneg_nonneg; [lia |].
  apply Z.lt_le_incl, Z.pow_pos_nonneg; lia.
Qed.

Lemma round53_comp (y y' : Q) : y == y' -> round53 y = round53 y'.
Proof.
  intros E. unfold round53. rewrite (shift_comp _ _ E).
  f_equal. apply rne_comp. now rewrite E.
Qed.

Lemma round53_mono (y y' : Q) : 0 <= y -> y <= y' -> (round53 y <= round53 y')%Z.
Proof.
  intros H0 H. assert (H0' : 0 <= y') by lra.
  pose proof (shift_mono _ _ H) as S. pose proof (shift_nonneg y) as Sy.
  destruct (Z.eq_dec (shift y) (shift y')) as [E | N].
  - unfold round53. rewrite <- E.
    apply Z.mul_le_mono_nonneg_r;
      [apply Z.lt_le_incl, Z.pow_pos_nonneg; lia |].
    apply rne_mono. pose proof (pow2_Q_pos _ Sy) as P.
    apply Qle_shift_div_l; [exact P |].
    unfold Qdiv. rewrite <- Qmult_assoc, (Qmult_comm (/ _)), Qmult_inv_r; lra.
  - pose proof (round53_upper y H0) as U.
    pose proof (round53_lower y' H0' ltac:(lia)) as L.
    assert (P : (2 ^ (shift y + 53) <= 2 ^ (shift y' + 52))%Z)
      by (apply Z.pow_le_mono_r; lia).
    lia.
Qed.

Lemma scale_pos : 0 < inject_Z scale.
Proof. apply pow2_Q_pos. lia. Qed.

Lemma huge_pos : (0 < huge)%Z.
Proof. apply Z.pow_pos_nonneg; lia. Qed.

Lemma round_int_comp (y y' : Q) : y == y' -> round_int y = round_int y'.
Proof.
  intros E. unfold round_int.
  assert (B : Qle_bool 0 y = Qle_bool 0 y').
  { destruct (Qle_bool 0 y') eqn:L.
    - apply Qle_bool_iff. apply Qle_bool_iff in L. now rewrite E.
    - apply not_true_is_false. intros H%Qle_bool_iff.
      rewrite E in H. apply Qle_bool_iff in H. congruence. }
  rewrite B. destruct (Qle_bool 0 y').
  - now apply round53_comp.
  - f_equal. apply round53_comp. now rewrite E.
Qed.

Lemma round_int_mono (y y' : Q) : y <= y' -> (round_int y <= round_int y')%Z.
Proof.
  intros H. unfold round_int.
  destruct (Qle_bool 0 y) eqn:L; destruct (Qle_bool 0 y') eqn:L'.
  - apply Qle_bool_iff in L. now apply round53_mono.
  - apply Qle_bool_iff in L. exfalso.
    assert (C : 0 <= y') by lra. apply Qle_bool_iff in C. congruence.
  - apply Qle_bool_iff in L'.
    assert (N : 0 <= - y).
    { destruct (Qlt_le_dec y 0) as [C | C]; [lra |].
      apply Qle_bool_iff in C. congruence. }
    pose proof (round53_nonneg _ N). pose proof (round53_nonneg _ L'). lia.
  - assert (N : 0 <= - y').
    { destruct (Qlt_le_dec y' 0) as [C | C]; [lra |].
      apply Qle_bool_iff in C. congruence. }
    assert (M : - y' <= - y) by lra.
    pose proof (round53_mono _ _ N M). lia.
Qed.

Lemma round64_comp (x x' : Q) : x == x' -> round64 x = round64 x'.
Proof.
  intros E. unfold round64.
  assert (R : round_int (x * inject_Z scale) = round_int (x' * inject_Z scale)).
  { apply round_int_comp. now rewrite E. }
  now rewrite R.
Qed.

Lemma round64_mono (x x' : Q) : x <= x' -> float64_le (round64 x) (round64 x').
Proof.
  intros H. unfold round64.
  assert (M : (round_int (x * inject_Z scale) <= round_int (x' * inject_Z scale))%Z).
  { apply round_int_mono. apply Qmult_le_compat_r; [exact H |].
    apply Qlt_le_weak, scale_pos. }
  pose proof huge_pos as Hp. pose proof scale_pos as Sp.
  set (m := round_int (x * inject_Z scale)) in *.
  set (m' := round_int (x' * inject_Z scale)) in *.
  destruct (Z.leb_spec huge m), (Z.leb_spec huge m'),
    (Z.leb_spec m (- huge)%Z), (Z.leb_spec m' (- huge)%Z);
    unfold float64_le; try exact I; try lia.
  rewrite !Qred_correct. apply Qle_shift_div_l; [exact Sp |].
  unfold Qdiv. rewrite <- Qmult_assoc, (Qmult_comm (/ _)), Qmult_inv_r, Qmult_1_r
    by lra.
  now rewrite <- Zle_Qle.
Qed.

Lemma round53_exact (m t : Z) :
  (0 <= m < 2 ^ 53)%Z -> (0 <= t)%Z ->
  round53 (inject_Z (m * 2 ^ t)) = (m * 2 ^ t)%Z.
Proof.
  intros Hm Ht. unfold round53, shift. rewrite Qfloor_Z.
  set (M := (m * 2 ^ t)%Z). set (s := Z.max 0 (Z.log2 M - 52)).
  assert (Pt : (0 < 2 ^ t)%Z) by (apply Z.pow_pos_nonneg; lia).
  assert (M0 : (0 <= M)%Z) by (unfold M; apply Z.mul_nonneg_nonneg; lia).
  assert (S0 : (0 <= s)%Z) by (unfold s; lia).
  assert (K : exists k, M = (k * 2 ^ s)%Z).
  { destruct (Z.eq_dec s 0%Z) as [-> | N]; [exists M; cbn; lia |].
    assert (L : (53 <= Z.log2 M)%Z) by (unfold s in N; lia).
    assert (Mp : (0 < M)%Z).
    { destruct (Z.eq_dec M 0%Z) as [Z0 | Z0]; [| lia].
      rewrite Z0 in L. cbn in L. lia. }
    pose proof (Z.log2_spec _ Mp) as [Lo _].
    assert (U : (M < 2 ^ (53 + t))%Z).
    { rewrite Z.pow_add_r by lia. unfold M.
      apply Z.mul_lt_mono_pos_r; lia. }
    assert (Lt : (Z.log2 M < 53 + t)%Z).
    { apply (Z.pow_lt_mono_r_iff 2); lia. }
    exists (m * 2 ^ (t - s))%Z. unfold M.
    rewrite <- Z.mul_assoc, <- Z.pow_add_r by (unfold s; lia).
    do 2 f_equal. lia. }
  destruct K as (k & K).
  assert (E : inject_Z M / inject_Z (2 ^ s) == inject_Z k).
  { rewrite K, inject_Z_mult. pose proof (pow2_Q_pos s S0). field. lra. }
  rewrite (rne_comp _ _ E), rne_inject. now symmetry.
Qed.

Lemma round_int_exact (m t : Z) :
  (Z.abs m < 2 ^ 53)%Z -> (0 <= t)%Z ->
  round_int (inject_Z (m * 2 ^ t)) = (m * 2 ^ t)%Z.
Proof.
  intros Hm Ht. unfold round_int.
  assert (Pt : (0 < 2 ^ t)%Z) by (apply Z.pow_pos_nonneg; lia).
  destruct (Qle_bool 0 (inject_Z (m * 2 ^ t))) eqn:L.
  - apply Qle_bool_iff in L. change 0 with (inject_Z 0) in L.
    rewrite <- Zle_Qle in L.
    apply round53_exact; [| exact Ht]. split; [nia | lia].
  - assert (N : (m < 0)%Z).
    { destruct (Z.lt_ge_cases m 0%Z) as [C | C]; [exact C |]. exfalso.
      assert (Q0 : 0 <= inject_Z (m * 2 ^ t)).
      { change 0 with (inject_Z 0). rewrite <- Zle_Qle. nia. }
      apply Qle_bool_iff in Q0. congruence. }
    assert (E : - inject_Z (m * 2 ^ t) == inject_Z ((- m) * 2 ^ t)).
    { rewrite <- inject_Z_opp. now rewrite Z.mul_opp_l. }
    rewrite (round53_comp _ _ E), round53_exact by lia. lia.
Qed.

Lemma round64_exact (x : Q) : binary64 x -> round64 x = Finite (Qred x).
Proof.
  intros (m & t & Hm & Ht & E). unfold round64.
  rewrite (round_int_comp _ _ E), (round_int_exact m t Hm (proj1 Ht)).
  assert (B : (Z.abs (m * 2 ^ t) < huge)%Z).
  { unfold huge. change 2098%Z with (53 + 2045)%Z. rewrite Z.pow_add_r by lia.
    rewrite Z.abs_mul.
    assert (Pt : (0 < 2 ^ t)%Z) by (apply Z.pow_pos_nonneg; lia).
    assert (Le : (2 ^ t <= 2 ^ 2045)%Z) by (apply Z.pow_le_mono_r; lia).
    rewrite (Z.abs_eq (2 ^ t)) by lia.
    assert (PA : (0 < 2 ^ 2045)%Z) by (apply Z.pow_pos_nonneg; lia).
    apply Z.le_lt_trans with (Z.abs m * 2 ^ 2045)%Z.
    - apply Z.mul_le_mono_nonneg_l; [apply Z.abs_nonneg | exact Le].
    - apply Z.mul_lt_mono_pos_r; [exact PA | exact Hm]. }
  destruct (Z.leb_spec huge (m * 2 ^ t)%Z); [lia |].
  destruct (Z.leb_spec (m * 2 ^ t)%Z (- huge)%Z); [lia |].
  f_equal. apply Qred_complete. rewrite <- E.
  pose proof scale_pos. field. lra.
Qed.

Lemma binary64_integer (n : Z) : (Z.abs n < 2 ^ 53)%Z -> binary64 (inject_Z n).
Proof.
  intros H. exists n, 1074%Z. split; [exact H |]. split; [lia |].
  unfold scale. now rewrite inject_Z_mult.
Qed.

Lemma round64_zero : round64 0 = Finite 0.
Proof. vm_compute. reflexivity. Qed.

Lemma nearest_zero : nearest 0 = 0.
Proof. vm_compute. reflexivity. Qed.

Lemma nearest_comp (x x' : Q) : x == x' -> nearest x = nearest x'.
Proof.
  intros E. unfold nearest.
  assert (R : round_int (x * inject_Z scale) = round_int (x' * inject_Z scale)).
  { apply round_int_comp. now rewrite E. }
  now rewrite R.
Qed.

Lemma nearest_mono (x x' : Q) : x <= x' -> nearest x <= nearest x'.
Proof.
  intros H. unfold nearest. rewrite !Qred_correct.
  pose proof scale_pos as Sp.
  apply Qle_shift_div_l; [exact Sp |].
  unfold Qdiv. rewrite <- Qmult_assoc, (Qmult_comm (/ _)), Qmult_inv_r, Qmult_1_r
    by lra.
  rewrite <- Zle_Qle. apply round_int_mono.
  apply Qmult_le_compat_r; [exact H | now apply Qlt_le_weak].
Qed.

(** A binary64 value stands for itself. *)
Lemma nearest_exact (x : Q) : binary64 x -> nearest x == x.
Proof.
  intros (m & t & Hm & Ht & E). unfold nearest.
  rewrite (round_int_comp _ _ E), (round_int_exact m t Hm (proj1 Ht)).
  rewrite Qred_correct, <- E. pose proof scale_pos. field. lra.
Qed.

Lemma fsub_binary64 (a b : Q) :
  binary64 a -> binary64 b -> fsub a b = round64 (a - b).
Proof.
  intros Ha Hb. unfold fsub. apply round64_comp.
  now rewrite (nearest_exact a Ha), (nearest_exact b Hb).
Qed.

Lemma fsub_le_l (a a' b : Q) : a <= a' -> float64_le (fsub a b) (fsub a' b).
Proof.
  intros H%nearest_mono. apply round64_mono. lra.
Qed.

Lemma fsub_le_r (a b b' : Q) : b <= b' -> float64_le (fsub a b') (fsub a b).
Proof.
  intros H%nearest_mono. apply round64_mono. lra.
Qed.

(** Subtracting what is not negative from a binary64 value does not go
    above it. *)
Lemma fsub_le_self (a b : Q) :
  binary64 a -> 0 <= b -> float64_le (fsub a b) (Finite (Qred a)).
Proof.
  intros Ha Hb%nearest_mono. rewrite nearest_zero in Hb.
  rewrite <- (round64_exact a Ha). apply round64_mono.
  rewrite (nearest_exact a Ha). lra.
Qed.

Lemma fsub_nonpos (a b : Q) : a <= b -> float64_le (fsub a b) (Finite 0).
Proof.
  intros H%nearest_mono. rewrite <- round64_zero. apply round64_mono. lra.
Qed.

(** When the exact difference of two binary64 values is a binary64 value,
    it is the answer. *)
Lemma fsub_exact (a b : Q) :
  binary64 a -> binary64 b -> binary64 (a - b) ->
  fsub a b = Finite (Qred (a - b)).
Proof.
  intros Ha Hb Hd. rewrite (fsub_binary64 a b Ha Hb). now apply round64_exact.
Qed.

(** The rounding agrees with the subtraction of [PrimFloat] on the
    samples. *)
Example subtraction_samples_agree :
  forallb (fun p => agrees_with_PrimFloat (fst p) (snd p)) subtraction_samples
  = true.
Proof. vm_compute. reflexivity. Qed.

(** Amounts written in decimal are read as the binary64 values of the
    literals: 3000.1 less 0.05 is 3000.0499999999997, and 10^16 less 1 is
    10^16. *)
Example literal_amounts :
  nearest (30001 # 10) = f3000_1 /\ nearest (1 # 20) = f0_05
  /\ fsub (30001 # 10) (1 # 20) = Finite f3000_05_below
  /\ fsub f3000_1 f0_05 = Finite f3000_05_below
  /\ fsub 10000000000000000 1 = Finite 10000000000000000.
Proof. vm_compute. repeat split; reflexivity. Qed.

End FloatFacts.

(** ** Claimant name verification *)

Module NameFacts.
Import Py PolicySchema PolicyService Spec Fixtures PyFacts.

Lemma word_cons (c : ascii) (w : string) :
  isspace c = false -> (w = "" \/ word w) -> word (String c w).
Proof.
  intros Hc Hw. split; [discriminate |]. simpl. rewrite Hc. simpl.
  destruct Hw as [-> | [_ Hw]]; [reflexivity | exact Hw].
Qed.

Lemma word_tail (c : ascii) (w : string) :
  word (String c w) -> isspace c = false /\ (w = "" \/ word w).
Proof.
  intros [_ H]. simpl in H. apply andb_true_iff in H as [Hc Hw].
  apply negb_true_iff in Hc. split; [exact Hc |].
  destruct w; [now left | right; split; [discriminate | exact Hw]].
Qed.

Lemma split_words (s : string) : Forall word (split s).
Proof.
  induction s as [|c r IH]; [constructor |].
  cbn [split]. destruct (isspace c) eqn:Hc; [exact IH |].
  destruct r as [|c' r'].
  - constructor; [| constructor]. apply word_cons; auto.
  - destruct (isspace c') eqn:Hc'.
    + constructor; [apply word_cons; auto | exact IH].
    + destruct (split (String c' r')) as [|w ws].
      * constructor; [| constructor]. apply word_cons; auto.
      * inversion IH; subst. constructor; [| assumption].
        apply word_cons; auto.
Qed.

Lemma split_word (w : string) : word w -> split w = [w].
Proof.
  induction w as [|c r IH]; [intros [H _]; congruence |].
  intros Hw. apply word_tail in Hw as [Hc Hr].
  cbn [split]. rewrite Hc. destruct r as [|c' r']; [reflexivity |].
  destruct Hr as [Hr | Hr]; [discriminate |].
  destruct (word_tail _ _ Hr) as [Hc' _]. rewrite Hc'.
  now rewrite (IH Hr).
Qed.

Lemma split_word_space (w : string) (c : ascii) (rest : string) :
  word w -> isspace c = true ->
  split (w +:+ String c rest) = w :: split rest.
Proof.
  intros Hw Hsp. induction w as [|x r IH]; [destruct Hw; congruence |].
  apply word_tail in Hw as [Hx Hr].
  destruct r as [|y r'].
  - change (String x "" +:+ String c rest) with (String x (String c rest)).
    cbn [split]. rewrite Hx, Hsp. reflexivity.
  - destruct Hr as [Hr | Hr]; [discriminate |].
    destruct (word_tail _ _ Hr) as [Hy _]. specialize (IH Hr).
    change (String x (String y r') +:+ String c rest)
      with (String x (String y (r' +:+ String c rest))).
    change (String y r' +:+ String c rest)
      with (String y (r' +:+ String c rest)) in IH.
    cbn [split] in *. rewrite Hx, Hy. rewrite Hy in IH. now rewrite IH.
Qed.

Lemma join_cons (w w' : string) (ws : list string) :
  join " " (w :: w' :: ws) = w +:+ String " " (join " " (w' :: ws)).
Proof. reflexivity. Qed.

Lemma split_join (ws : list string) :
  Forall word ws -> split (join " " ws) = ws.
Proof.
  induction ws as [|w ws IH]; intros H; [reflexivity |].
  inversion H as [|? ? Hw Hws]; subst.
  destruct ws as [|w' ws'].
  - now apply split_word.
  - rewrite join_cons, split_word_space by (assumption || reflexivity).
    now rewrite (IH Hws).
Qed.

Lemma rstrip_app (a b : string) :
  rstrip b = b -> b <> "" -> rstrip (a +:+ b) = a +:+ b.
Proof.
  intros Hb Hne. induction a as [|c a IH]; [exact Hb |].
  change (String c a +:+ b) with (String c (a +:+ b)).
  cbn [rstrip]. rewrite IH.
  destruct (a +:+ b) eqn:E; [| reflexivity].
  destruct a; simpl in E; [congruence | discriminate].
Qed.

Lemma rstrip_word (w : string) : word w -> rstrip w = w.
Proof.
  induction w as [|c r IH]; [reflexivity |].
  intros Hw. apply word_tail in Hw as [Hc Hr].
  cbn [rstrip]. destruct Hr as [-> | Hr].
  - simpl. now rewrite Hc.
  - rewrite (IH Hr). destruct r; [destruct Hr; congruence | reflexivity].
Qed.

Lemma join_nonempty (w : string) (ws : list string) :
  word w -> join " " (w :: ws) <> "".
Proof.
  intros [Hne _]. destruct w; [congruence |].
  destruct ws; [discriminate |]. rewrite join_cons. discriminate.
Qed.

Lemma rstrip_join (ws : list string) :
  Forall word ws -> rstrip (join " " ws) = join " " ws.
Proof.
  induction ws as [|w ws IH]; intros H; [reflexivity |].
  inversion H as [|? ? Hw Hws]; subst.
  destruct ws as [|w' ws'].
  - now apply rstrip_word.
  - rewrite join_cons.
    change (String " " (join " " (w' :: ws')))
      with (" " +:+ join " " (w' :: ws')).
    rewrite <- app_assoc. apply rstrip_app; [now apply IH |].
    inversion Hws; subst. now apply join_nonempty.
Qed.

Lemma lstrip_join (ws : list string) :
  Forall word ws -> lstrip (join " " ws) = join " " ws.
Proof.
  intros H. destruct ws as [|w ws]; [reflexivity |].
  inversion H as [|? ? Hw _]; subst.
  destruct w as [|c r]; [destruct Hw; congruence |].
  apply word_tail in Hw as [Hc _].
  unfold lstrip. destruct ws; [| rewrite join_cons]; simpl; now rewrite Hc.
Qed.

Lemma strip_join (ws : list string) :
  Forall word ws -> strip (join " " ws) = join " " ws.
Proof.
  intros H. unfold strip. rewrite lstrip_join by assumption.
  now apply rstrip_join.
Qed.

Lemma all_chars_split (p : ascii -> bool) (s : string) :
  all_chars p s = true -> Forall (fun w => all_chars p w = true) (split s).
Proof.
  induction s as [|c r IH]; [constructor |].
  simpl all_chars. intros [Hc Hr]%andb_true_iff. specialize (IH Hr).
  cbn [split]. destruct (isspace c); [exact IH |].
  assert (H1 : all_chars p (String c "") = true) by (simpl; now rewrite Hc).
  destruct r as [|c' r']; [now repeat constructor |].
  destruct (isspace c'); [now constructor |].
  destruct (split (String c' r')) as [|w ws]; [now repeat constructor |].
  inversion IH; subst. constructor; [| assumption].
  simpl. now rewrite Hc.
Qed.

Lemma all_chars_join (p : ascii -> bool) (ws : list string) :
  p " "%char = true ->
  Forall (fun w => all_chars p w = true) ws ->
  all_chars p (join " " ws) = true.
Proof.
  intros Hsp. induction ws as [|w ws IH]; intros H; [reflexivity |].
  inversion H as [|? ? Hw Hws]; subst.
  destruct ws as [|w' ws']; [exact Hw |].
  rewrite join_cons, all_chars_app, Hw. simpl. rewrite Hsp. simpl.
  now apply IH.
Qed.

Lemma normalize_normal_form (name : option string) :
  normal_form (_normalize_name name).
Proof.
  assert (E : normal_form "") by (split; [reflexivity | now exists []]).
  destruct name as [n|]; [| exact E].
  unfold _normalize_name. destruct (truthy n); [| exact E].
  split.
  - apply all_chars_join; [reflexivity |].
    apply all_chars_split, lower_no_upper.
  - eexists. split; [apply split_words | reflexivity].
Qed.

Lemma normalize_fixed (s : string) :
  normal_form s -> _normalize_name (Some s) = s.
Proof.
  intros [Hlow (ws & Hws & ->)]. unfold _normalize_name.
  destruct (truthy (join " " ws)) eqn:T.
  - rewrite strip_join by assumption.
    rewrite lower_fixed by exact Hlow.
    now rewrite split_join.
  - apply negb_false_iff, is_empty_true in T. now rewrite T.
Qed.

Lemma verify_claimant_name_true (policy : Policy) (claimant_name : option string) :
  verify_claimant_name policy claimant_name = true <->
  named_insured policy <> "" /\
  _normalize_name claimant_name <> "" /\
  names_agree (normalized_insured policy) (_normalize_name claimant_name).
Proof.
  unfold verify_claimant_name, names_agree, normalized_insured.
  destruct (truthy (named_insured policy)) eqn:Ta; simpl.
  - apply truthy_true in Ta.
    destruct (truthy (_normalize_name claimant_name)) eqn:Tb; simpl.
    + apply truthy_true in Tb.
      rewrite !orb_true_iff, String.eqb_eq, !contains_spec. tauto.
    + apply negb_false_iff, is_empty_true in Tb. rewrite Tb.
      split; [discriminate | tauto].
  - apply negb_false_iff, is_empty_true in Ta.
    split; [discriminate | tauto].
Qed.

(** C5, as stated, fails for a policy whose [named_insured] is empty: the
    empty name is a substring of "acme", yet the guard answers false. *)
Lemma verify_claimant_name_unnamed_policy :
  ~ matches_by_names_alone unnamed_policy (Some "Acme").
Proof.
  unfold matches_by_names_alone. intros [_ H].
  assert (E : verify_claimant_name unnamed_policy (Some "Acme") = true).
  { apply H. split; [vm_compute; discriminate |].
    right. right. exists "", "acme". reflexivity. }
  vm_compute in E. discriminate.
Qed.

(** C5, amended: [verify_claimant_name] puts both names in normal form
    (trimmed, white space collapsed, lower case) and answers true exactly
    when the policy's [named_insured] is not empty, the normalized claimant
    name is not empty, and the normalized names are equal or one is a
    substring of the other.  Against the insured "Acme Corp" it accepts
    "acme corp" and "Acme" and rejects the empty name. *)
Theorem verify_claimant_name_spec (policy : Policy) (claimant_name : option string) :
  let a := normalized_insured policy in
  let b := _normalize_name claimant_name in
  (verify_claimant_name policy claimant_name = true <->
   named_insured policy <> "" /\ b <> "" /\ names_agree a b)
  /\ normal_form a /\ normal_form b
  /\ _normalize_name (Some a) = a /\ _normalize_name (Some b) = b
  /\ (b = "" -> verify_claimant_name policy claimant_name = false)
  /\ verify_claimant_name acme_policy (Some "acme corp") = true
  /\ verify_claimant_name acme_policy (Some "Acme") = true
  /\ verify_claimant_name acme_policy (Some "") = false.
Proof.
  intros a b. split; [apply verify_claimant_name_true |].
  pose proof (normalize_normal_form (Some (named_insured policy))) as Ha.
  pose proof (normalize_normal_form claimant_name) as Hb.
  split; [exact Ha |]. split; [exact Hb |].
  split; [now apply normalize_fixed |]. split; [now apply normalize_fixed |].
  split; [| repeat split; reflexivity].
  intros Eb. apply not_true_is_false. intros H.
  apply verify_claimant_name_true in H. tauto.
Qed.

End NameFacts.

(** ** Payout *)

Module PayoutFacts.
Import Py Fnol PolicySchema PolicyService Spec Fixtures PyFacts FloatFacts.

Lemma mem_In (x : string) (l : list string) : mem x l = true <-> In x l.
Proof.
  unfold mem. rewrite existsb_exists. split.
  - intros (y & Hy & E). apply String.eqb_eq in E. now subst.
  - intros H. exists x. split; [exact H | apply String.eqb_refl].
Qed.

Lemma mem_false (x : string) (l : list string) : mem x l = false <-> ~ In x l.
Proof. rewrite <- mem_In. destruct (mem x l); split; congruence. Qed.

Lemma dict_falsy_lookup (m : gmap string Q) (k : string) :
  dict_truthy m = false -> m !! k = None.
Proof.
  unfold dict_truthy. destruct (map_to_list m) eqn:E; [| discriminate].
  intros _. apply map_to_list_empty_iff in E. subst. apply lookup_empty.
Qed.

(** The cap the code computes is the applicable cap. *)
Lemma code_cap (policy : Policy) (incident_type : string) :
  match per_incident_type_limits policy with
  | Some limits =>
      if dict_truthy limits then
        match limits !! incident_type with
        | Some type_limit => Py.min (limit_amount policy) type_limit
        | None => limit_amount policy
        end
      else limit_amount policy
  | None => limit_amount policy
  end = applicable_cap policy incident_type.
Proof.
  unfold applicable_cap, type_limit.
  destruct (per_incident_type_limits policy) as [limits|]; [| reflexivity].
  destruct (dict_truthy limits) eqn:T.
  - destruct (limits !! incident_type); [apply min_is_Qmin | reflexivity].
  - now rewrite (dict_falsy_lookup _ incident_type T).
Qed.

Lemma compute_payout_unfold (claim : OperationalLiabilityClaim) (policy : Policy) :
  compute_payout claim policy =
  if mem (claim_type claim) (covered_incident_types policy) then
    match cost_of claim with
    | Some cost =>
        if Qlt_bool cost 0 then None
        else Some (rounded_payout policy (claim_type claim) cost)
    | None => None
    end
  else None.
Proof.
  unfold compute_payout, _claim_incident_type, _claim_estimated_cost, cost_of,
    rounded_payout, payout_of.
  fold (claim_type claim).
  destruct (mem (claim_type claim) (covered_incident_types policy)); [| reflexivity].
  simpl. destruct (estimated_liability_cost (operational_impact claim)) as [c|];
    [| reflexivity].
  destruct (Qlt_bool c 0); [reflexivity |].
  rewrite code_cap.
  destruct (fsub c (deductible policy));
    now rewrite ?min_is_Qmin, ?max_is_Qmax.
Qed.

Lemma compute_payout_some (claim : OperationalLiabilityClaim) (policy : Policy) (x : Q) :
  compute_payout claim policy = Some x <->
  covered policy claim /\
  exists cost, cost_of claim = Some cost /\ (0 <= cost)%Q /\
               x = rounded_payout policy (claim_type claim) cost.
Proof.
  rewrite compute_payout_unfold. unfold covered.
  destruct (mem _ _) eqn:M.
  - apply mem_In in M. destruct (cost_of claim) as [c|].
    + destruct (Qlt_bool c 0) eqn:L.
      * apply Qlt_bool_iff in L. split; [discriminate |].
        intros (_ & c' & [= <-] & H & _). exfalso. now apply (Qlt_not_le c 0).
      * apply Qlt_bool_false in L. split.
        -- intros [= <-]. eauto.
        -- now intros (_ & c' & [= <-] & _ & ->).
    + split; [discriminate | intros (_ & c' & [=] & _)].
  - apply mem_false in M. split; [discriminate | tauto].
Qed.

Lemma applicable_cap_le_limit (policy : Policy) (incident_type : string) :
  (applicable_cap policy incident_type <= limit_amount policy)%Q.
Proof.
  unfold applicable_cap. destruct (type_limit policy incident_type).
  - apply Q.le_min_l.
  - apply Qle_refl.
Qed.

Lemma payout_of_le_cap (difference : float64) (cap : Q) :
  (payout_of difference cap <= cap)%Q.
Proof.
  destruct difference; cbn [payout_of];
    [apply Q.le_min_r | apply Qle_refl | apply Q.le_min_r].
Qed.

Lemma rounded_payout_le_cap (policy : Policy) (incident_type : string) (cost : Q) :
  (rounded_payout policy incident_type cost <= applicable_cap policy incident_type)%Q.
Proof. apply payout_of_le_cap. Qed.

(** The payout grows with the difference. *)
Lemma payout_of_mono (r r' : float64) (cap : Q) :
  float64_le r r' -> (payout_of r cap <= payout_of r' cap)%Q.
Proof.
  destruct r as [t| |], r' as [t'| |]; cbn [float64_le payout_of];
    try contradiction; intros H.
  - now apply Q.min_le_compat_r, Q.max_le_compat_l.
  - apply Q.le_min_r.
  - apply Qle_refl.
  - apply Q.min_le_compat_r, Q.le_max_l.
  - apply Q.le_min_r.
  - apply Qle_refl.
Qed.

Lemma payout_of_exact (x y cap : Q) :
  (x == y)%Q -> (payout_of (Finite x) cap == Qmin (Qmax 0 y) cap)%Q.
Proof. intros E. cbn [payout_of]. now rewrite E. Qed.

(** C1, as stated, fails where the difference of cost and deductible is
    not a binary64 value: at a cost of 10^16 and a deductible of 1 the code
    pays 10^16, the exact formula 10^16 - 1. *)
Lemma compute_payout_not_exact :
  ~ pays_exact_formula large_claim unit_deductible_policy.
Proof.
  intros H.
  destruct (H 10000000000000000%Q) as (x & E & Q);
    [now left | reflexivity | discriminate |].
  assert (P : compute_payout large_claim unit_deductible_policy
              = Some 10000000000000000%Q) by (vm_compute; reflexivity).
  rewrite P in E. injection E as <-.
  vm_compute in Q. discriminate Q.
Qed.

(** C1, amended: [compute_payout] answers [None] when the claim's incident
    type is not covered, or the cost is absent or negative; otherwise it
    answers min(max(0, d), cap), where d is the difference of cost and
    deductible as binary64 subtracts (the exact difference rounded to the
    nearest binary64 value), and where the cap is the policy limit, lowered to
    the per-type limit when one is defined for the incident type and is
    smaller.  When the exact difference of the two binary64 values is itself
    a binary64 value, the answer is min(max(0, cost - deductible), cap). *)
Theorem compute_payout_spec (claim : OperationalLiabilityClaim) (policy : Policy) :
  let incident_type := claim_type claim in
  let cap := applicable_cap policy incident_type in
  (~ covered policy claim -> compute_payout claim policy = None)
  /\ (cost_of claim = None -> compute_payout claim policy = None)
  /\ (forall cost, cost_of claim = Some cost -> (cost < 0)%Q ->
      compute_payout claim policy = None)
  /\ (forall cost, covered policy claim -> cost_of claim = Some cost ->
      (0 <= cost)%Q ->
      compute_payout claim policy
      = Some (payout_of (fsub cost (deductible policy)) cap))
  /\ (forall d, payout_of (Finite d) cap = Qmin (Qmax 0 d) cap)
  /\ payout_of PosInf cap = cap
  /\ payout_of NegInf cap = Qmin 0 cap
  /\ (forall cost,
      binary64 cost -> binary64 (deductible policy) ->
      binary64 (cost - deductible policy) ->
      fsub cost (deductible policy) = Finite (Qred (cost - deductible policy)))
  /\ (forall cost, covered policy claim -> cost_of claim = Some cost ->
      (0 <= cost)%Q ->
      binary64 cost -> binary64 (deductible policy) ->
      binary64 (cost - deductible policy) ->
      exists x, compute_payout claim policy = Some x
                /\ (x == Qmin (Qmax 0 (cost - deductible policy)) cap)%Q)
  /\ (type_limit policy incident_type = None -> cap = limit_amount policy)
  /\ (forall l, type_limit policy incident_type = Some l ->
      cap = Qmin (limit_amount policy) l).
Proof.
  intros incident_type cap. rewrite compute_payout_unfold.
  fold incident_type. unfold rounded_payout. fold cap.
  split; [| split; [| split; [| split; [| split; [| split; [| split;
    [| split; [| split; [| split]]]]]]]]].
  - intros H. apply mem_false in H. unfold incident_type. now rewrite H.
  - intros ->. now destruct (mem _ _).
  - intros cost -> H. apply Qlt_bool_iff in H. rewrite H. now destruct (mem _ _).
  - intros cost Hc -> H. apply mem_In in Hc. fold incident_type in Hc.
    rewrite Hc. apply Qlt_bool_false in H. now rewrite H.
  - reflexivity.
  - reflexivity.
  - reflexivity.
  - intros cost. apply fsub_exact.
  - intros cost Hc -> H Bc Bd B. apply mem_In in Hc. fold incident_type in Hc.
    rewrite Hc. apply Qlt_bool_false in H. rewrite H.
    eexists. split; [reflexivity |].
    rewrite (fsub_exact _ _ Bc Bd B). apply payout_of_exact, Qred_correct.
  - unfold cap, applicable_cap. now intros ->.
  - unfold cap, applicable_cap. now intros l ->.
Qed.

(** The scenario of the specification: 3000 of cost under a deductible of
    500 and a limit of 10000 pays 2500.  And 3000.1 of cost under a
    deductible of 0.05 pays 3000.0499999999997, the binary64 difference. *)
Lemma compute_payout_spec_witness :
  covered acme_policy delay_claim
  /\ compute_payout delay_claim acme_policy = Some 2500%Q
  /\ compute_payout odd_cents_claim small_deductible_policy
     = Some f3000_05_below.
Proof.
  assert (C : covered acme_policy delay_claim) by (left; reflexivity).
  assert (C' : covered small_deductible_policy odd_cents_claim)
    by (left; reflexivity).
  split; [exact C |].
  destruct (compute_payout_spec delay_claim acme_policy) as (_ & _ & _ & H & _).
  destruct (compute_payout_spec odd_cents_claim small_deductible_policy)
    as (_ & _ & _ & H' & _).
  split.
  - rewrite (H 3000%Q C eq_refl); [vm_compute; reflexivity | discriminate].
  - rewrite (H' f3000_1 C' eq_refl); [vm_compute; reflexivity | discriminate].
Defined.

Lemma with_deductible_rounded (policy : Policy) (d : Q) (incident_type : string)
  (cost : Q) :
  rounded_payout (with_deductible policy d) incident_type cost
  = payout_of (fsub cost d) (applicable_cap policy incident_type).
Proof. reflexivity. Qed.

(** C6: with everything else fixed, the payout does not grow with the
    deductible, does not shrink with the cost, and never exceeds the
    applicable cap: the policy limit and, when one is defined for the
    incident type, the per-type limit. *)
Theorem compute_payout_monotone (claim : OperationalLiabilityClaim) (policy : Policy) :
  (forall d1 d2 x1 x2, (d1 <= d2)%Q ->
     compute_payout claim (with_deductible policy d1) = Some x1 ->
     compute_payout claim (with_deductible policy d2) = Some x2 ->
     (x2 <= x1)%Q)
  /\ (forall c1 c2 x1 x2, (c1 <= c2)%Q ->
     compute_payout (with_cost claim (Some c1)) policy = Some x1 ->
     compute_payout (with_cost claim (Some c2)) policy = Some x2 ->
     (x1 <= x2)%Q)
  /\ (forall x, compute_payout claim policy = Some x ->
     (x <= applicable_cap policy (claim_type claim))%Q
     /\ (x <= limit_amount policy)%Q
     /\ (forall l, type_limit policy (claim_type claim) = Some l -> (x <= l)%Q)).
Proof.
  split; [| split].
  - intros d1 d2 x1 x2 Hd H1 H2.
    apply compute_payout_some in H1 as (_ & c & Hc & _ & ->).
    apply compute_payout_some in H2 as (_ & c' & Hc' & _ & ->).
    rewrite Hc in Hc'. injection Hc' as <-.
    rewrite !with_deductible_rounded.
    now apply payout_of_mono, fsub_le_r.
  - intros c1 c2 x1 x2 Hc H1 H2.
    apply compute_payout_some in H1 as (_ & c & [= <-] & _ & ->).
    apply compute_payout_some in H2 as (_ & c' & [= <-] & _ & ->).
    unfold rounded_payout.
    now apply payout_of_mono, fsub_le_l.
  - intros x H. apply compute_payout_some in H as (_ & c & _ & _ & ->).
    pose proof (rounded_payout_le_cap policy (claim_type claim) c) as Hcap.
    split; [exact Hcap |]. split.
    + eapply Qle_trans; [exact Hcap | apply applicable_cap_le_limit].
    + intros l Hl. eapply Qle_trans; [exact Hcap |].
      unfold applicable_cap. rewrite Hl. apply Q.le_min_r.
Qed.

(** At a cost of 3000: a deductible of 500 pays 2500 and one of 1000 pays
    2000; at a deductible of 500 a cost of 4000 pays 3500; under a per-type
    limit of 2000 the payout is 2000. *)
Lemma compute_payout_monotone_witness :
  (compute_payout delay_claim (with_deductible acme_policy 500) = Some 2500%Q
   /\ compute_payout delay_claim (with_deductible acme_policy 1000) = Some 2000%Q
   /\ (2000 <= 2500)%Q)
  /\ (compute_payout (with_cost delay_claim (Some 3000%Q)) acme_policy = Some 2500%Q
   /\ compute_payout (with_cost delay_claim (Some 4000%Q)) acme_policy = Some 3500%Q
   /\ (2500 <= 3500)%Q)
  /\ (compute_payout delay_claim capped_policy = Some 2000%Q
   /\ (2000 <= applicable_cap capped_policy "delay")%Q).
Proof.
  destruct (compute_payout_monotone delay_claim acme_policy) as (Hd & Hc & _).
  destruct (compute_payout_monotone delay_claim capped_policy) as (_ & _ & Hcap).
  split; [| split].
  - split; [vm_compute; reflexivity |]. split; [vm_compute; reflexivity |].
    apply (Hd 500%Q 1000%Q); [discriminate | vm_compute; reflexivity
                             | vm_compute; reflexivity].
  - split; [vm_compute; reflexivity |]. split; [vm_compute; reflexivity |].
    apply (Hc 3000%Q 4000%Q); [discriminate | vm_compute; reflexivity
                              | vm_compute; reflexivity].
  - split; [vm_compute; reflexivity |].
    destruct (Hcap 2000%Q) as [H _]; [vm_compute; reflexivity | exact H].
Defined.

End PayoutFacts.

(** ** Required extra information *)

Module ExtraInfoFacts.
Import Py Fnol PolicySchema PolicyService Spec Fixtures PyFacts.

(** *** The loop *)

Lemma extra_info_loop_filter (incident_type : string) (cost : Q)
  (evidence : EvidenceFlags) (rules : list ExtraInfoRule) (out : list string) :
  extra_info_loop incident_type cost evidence rules out
  = out ++ map prompt (List.filter (kept incident_type cost evidence) rules).
Proof.
  revert out. induction rules as [|rule rest IH]; intros out.
  - simpl. now rewrite app_nil_r.
  - cbn [extra_info_loop List.filter]. unfold kept at 1.
    destruct (required rule); simpl; [| apply IH].
    destruct (condition_skips incident_type cost rule); simpl; [apply IH |].
    destruct (evidence_skips evidence rule); simpl; [apply IH |].
    rewrite IH. now rewrite <- List.app_assoc.
Qed.

Lemma evidence_skips_present (claim : OperationalLiabilityClaim) (rule : ExtraInfoRule) :
  evidence_skips (_claim_evidence claim) rule = evidence_present claim rule.
Proof.
  unfold evidence_skips, evidence_present, _claim_evidence. simpl.
  destruct (String.eqb _ "system_logs" && _); [reflexivity |].
  destruct (String.eqb _ "incident_report" && _); [reflexivity |].
  destruct (String.eqb _ "liability_assessment" && _); reflexivity.
Qed.

Lemma get_required_extra_info_filter (claim : OperationalLiabilityClaim)
  (policy : Policy) :
  get_required_extra_info claim policy
  = map prompt
      (List.filter
         (kept (claim_type claim) (or_zero (cost_of claim)) (_claim_evidence claim))
         (extra_info_rules policy)).
Proof. unfold get_required_extra_info. now rewrite extra_info_loop_filter. Qed.

Lemma get_required_extra_info_app (claim : OperationalLiabilityClaim)
  (policy : Policy) (before after : list ExtraInfoRule) :
  get_required_extra_info claim (with_rules policy (before ++ after))
  = get_required_extra_info claim (with_rules policy before)
    ++ get_required_extra_info claim (with_rules policy after).
Proof.
  rewrite !get_required_extra_info_filter. simpl.
  now rewrite List.filter_app, List.map_app.
Qed.

(** *** Runs and matches *)

Lemma take_skip (p : ascii -> bool) (s : string) :
  s = take_while p s +:+ skip_while p s /\ all_chars p (take_while p s) = true.
Proof.
  induction s as [|c r [IH1 IH2]]; [now split |].
  simpl. destruct (p c) eqn:E; [| now split].
  simpl. rewrite E. split; [now rewrite <- IH1 | exact IH2].
Qed.

Lemma re_search_some {A : Type} (m : string -> option A) (s : string) (g : A) :
  re_search m s = Some g -> exists a b, s = a +:+ b /\ m b = Some g.
Proof.
  induction s as [|c r IH]; cbn [re_search].
  - destruct (m "") eqn:E; [| discriminate]. intros [= <-]. now exists "", "".
  - destruct (m (String c r)) eqn:E.
    + intros [= <-]. now exists "", (String c r).
    + intros H. destruct (IH H) as (a & b & -> & Hb).
      now exists (String c a), b.
Qed.

Lemma re_search_found {A : Type} (m : string -> option A) (a b : string) :
  is_Some (m b) -> is_Some (re_search m (a +:+ b)).
Proof.
  intros [g Hg]. induction a as [|c a IH].
  - exists g. now apply re_search_here.
  - change (String c a +:+ b) with (String c (a +:+ b)). cbn [re_search].
    destruct (m (String c (a +:+ b))); [eauto | exact IH].
Qed.

Lemma capture_plus_some (p : ascii -> bool) (s g : string) :
  capture_plus p s = Some g ->
  exists c after, s = String c after /\ p c = true.
Proof.
  unfold capture_plus. destruct s as [|c r]; [discriminate |].
  simpl. destruct (p c) eqn:E; [| discriminate]. eauto.
Qed.

Lemma capture_plus_starts (p : ascii -> bool) (c : ascii) (after : string) :
  p c = true -> is_Some (capture_plus p (String c after)).
Proof. intros H. unfold capture_plus. simpl. rewrite H. simpl. eauto. Qed.

Lemma skip_spaces_then (c : ascii) (ws after : string) :
  spaces ws -> isspace c = false ->
  skip_while isspace (ws +:+ String c after) = String c after.
Proof.
  intros Hws Hc. rewrite skip_while_app by exact Hws. now apply skip_while_stop.
Qed.

Lemma match_type_at_decompose (s g : string) :
  match_incident_type_at s = Some g ->
  exists ws1 ws2 c after,
    spaces ws1 /\ spaces ws2 /\ isword c = true /\
    s = "incident_type" +:+ ws1 +:+ "==" +:+ ws2 +:+ String c after.
Proof.
  unfold match_incident_type_at.
  destruct (drop_prefix "incident_type" s) as [r1|] eqn:E1; [| discriminate].
  apply drop_prefix_spec in E1. cbn [mbind option_bind].
  destruct (drop_prefix "==" (skip_while isspace r1)) as [r2|] eqn:E2;
    [| discriminate].
  apply drop_prefix_spec in E2. cbn [mbind option_bind].
  intros (c & after & E3 & Hc)%capture_plus_some.
  destruct (take_skip isspace r1) as [S1 W1].
  destruct (take_skip isspace r2) as [S2 W2].
  exists (take_while isspace r1), (take_while isspace r2), c, after.
  repeat split; try assumption.
  rewrite <- E3, <- S2, <- E2, <- S1. exact E1.
Qed.

Lemma match_type_at_compose (ws1 ws2 : string) (c : ascii) (after : string) :
  spaces ws1 -> spaces ws2 -> isword c = true ->
  match_incident_type_at
    ("incident_type" +:+ ws1 +:+ "==" +:+ ws2 +:+ String c after)
  = capture_plus isword (String c after).
Proof.
  intros H1 H2 Hc. unfold match_incident_type_at.
  rewrite drop_prefix_app. cbn [mbind option_bind].
  change ("==" +:+ ws2 +:+ String c after)
    with (String "=" ("=" +:+ ws2 +:+ String c after)).
  rewrite skip_spaces_then by (exact H1 || reflexivity).
  change (String "=" ("=" +:+ ws2 +:+ String c after))
    with ("==" +:+ ws2 +:+ String c after).
  rewrite drop_prefix_app. cbn [mbind option_bind].
  rewrite skip_spaces_then; [reflexivity | exact H2 |].
  destruct (isspace c) eqn:E; [| reflexivity].
  apply isspace_not_word in E. congruence.
Qed.

Lemma match_threshold_at_decompose (s g : string) :
  match_threshold_at s = Some g ->
  exists ws d after,
    spaces ws /\ isdigit d = true /\ s = ">" +:+ ws +:+ String d after.
Proof.
  unfold match_threshold_at.
  destruct (drop_prefix ">" s) as [r1|] eqn:E1; [| discriminate].
  apply drop_prefix_spec in E1. cbn [mbind option_bind].
  intros (d & after & E2 & Hd)%capture_plus_some.
  destruct (take_skip isspace r1) as [S1 W1].
  exists (take_while isspace r1), d, after.
  repeat split; try assumption.
  rewrite <- E2, <- S1. exact E1.
Qed.

Lemma match_threshold_at_compose (ws : string) (d : ascii) (after : string) :
  spaces ws -> isdigit d = true ->
  match_threshold_at (">" +:+ ws +:+ String d after)
  = capture_plus isdigit (String d after).
Proof.
  intros H Hd. unfold match_threshold_at.
  rewrite drop_prefix_app. cbn [mbind option_bind].
  rewrite skip_spaces_then; [reflexivity | exact H |].
  destruct (isspace d) eqn:E; [| reflexivity].
  apply isspace_not_digit in E. congruence.
Qed.

(** The searches find exactly the texts that hold a match. *)
Lemma search_incident_type_mentions (text : string) :
  is_Some (search_incident_type text) <-> mentions_type_equality text.
Proof.
  unfold search_incident_type, mentions_type_equality. split.
  - intros [g (a & b & -> & Hb)%re_search_some].
    destruct (match_type_at_decompose _ _ Hb) as (ws1 & ws2 & c & after & ? & ? & ? & ->).
    now exists a, ws1, ws2, c, after.
  - intros (a & ws1 & ws2 & c & after & H1 & H2 & Hc & ->).
    apply re_search_found. rewrite match_type_at_compose by assumption.
    now apply capture_plus_starts.
Qed.

Lemma search_threshold_mentions (text : string) :
  is_Some (search_threshold text) <->
  exists before ws d after,
    spaces ws /\ isdigit d = true /\
    text = before +:+ ">" +:+ ws +:+ String d after.
Proof.
  unfold search_threshold. split.
  - intros [g (a & b & -> & Hb)%re_search_some].
    destruct (match_threshold_at_decompose _ _ Hb) as (ws & d & after & ? & ? & ->).
    now exists a, ws, d, after.
  - intros (a & ws & d & after & H1 & Hd & ->).
    apply re_search_found. rewrite match_threshold_at_compose by assumption.
    now apply capture_plus_starts.
Qed.

Lemma substring_of_trans (a b c : string) :
  substring_of a b -> substring_of b c -> substring_of a c.
Proof.
  intros (p & q & ->) (p' & q' & ->).
  exists (p' +:+ p), (q +:+ q'). now rewrite !app_assoc.
Qed.

Lemma contains_cost (text : string) :
  contains "estimated_liability_cost" text || contains "cost" text
  = contains "cost" text.
Proof.
  destruct (contains "estimated_liability_cost" text) eqn:E; [| reflexivity].
  symmetry. apply contains_spec. apply contains_spec in E.
  eapply substring_of_trans; [| exact E].
  now exists "estimated_liability_", "".
Qed.

(** *** Conditions of the two supported shapes *)

Lemma contains_prefix (p rest : string) : contains p (p +:+ rest) = true.
Proof. apply contains_spec. now exists "", rest. Qed.

Lemma lowercase_app_r (a b : string) : lowercase (a +:+ b) -> lowercase b.
Proof.
  unfold lowercase. rewrite all_chars_app. now intros [_ H]%andb_true_iff.
Qed.

Lemma condition_skips_type_equals (incident_type : string) (cost : Q)
  (rule : ExtraInfoRule) (value : string) :
  reads_as (condition rule) (TypeEquals value) ->
  condition_skips incident_type cost rule
  = negb (String.eqb incident_type value).
Proof.
  intros (ws1 & ws2 & H1 & H2 & Hne & Hw & E).
  unfold condition_skips. rewrite E.
  rewrite contains_prefix.
  assert (C : contains "=="
                ("incident_type" +:+ ws1 +:+ "==" +:+ ws2 +:+ value) = true).
  { apply contains_spec. exists ("incident_type" +:+ ws1), (ws2 +:+ value).
    now rewrite !app_assoc. }
  rewrite C. cbn [andb].
  destruct value as [|c after]; [congruence |].
  simpl in Hw. apply andb_true_iff in Hw as [Hc Hafter].
  unfold search_incident_type.
  rewrite (re_search_here _ _ (String c after)).
  - assert (L : lower (String c after) = String c after).
    { apply lower_fixed.
      pose proof (lower_no_upper (condition rule)) as N. rewrite E in N.
      fold (lowercase
              ("incident_type" +:+ ws1 +:+ "==" +:+ ws2 +:+ String c after)) in N.
      now do 4 apply lowercase_app_r in N. }
    now rewrite L.
  - rewrite match_type_at_compose by assumption.
    apply capture_plus_all; [simpl; now rewrite Hc | discriminate].
Qed.

Lemma no_equals_sign (field ws1 ws2 digits : string) :
  field = "cost" \/ field = "estimated_liability_cost" ->
  spaces ws1 -> spaces ws2 -> all_chars isdigit digits = true ->
  ~ has_char "=" (field +:+ ws1 +:+ ">" +:+ ws2 +:+ digits).
Proof.
  intros Hf H1 H2 Hd. rewrite !has_char_app. intros [H | [H | [H | [H | H]]]].
  - destruct Hf as [-> | ->]; simpl in H;
      repeat (destruct H as [H | H]; [discriminate |]); exact H.
  - revert H. now apply (all_chars_no_char isspace).
  - simpl in H. destruct H as [H | H]; [discriminate | exact H].
  - revert H. now apply (all_chars_no_char isspace).
  - revert H. now apply (all_chars_no_char isdigit).
Qed.

Lemma no_greater_sign (field ws : string) :
  field = "cost" \/ field = "estimated_liability_cost" -> spaces ws ->
  ~ has_char ">" (field +:+ ws).
Proof.
  intros Hf Hws. rewrite has_char_app. intros [H | H].
  - destruct Hf as [-> | ->]; simpl in H;
      repeat (destruct H as [H | H]; [discriminate |]); exact H.
  - revert H. now apply (all_chars_no_char isspace).
Qed.

Lemma match_threshold_at_other (s : string) :
  (forall rest, s <> String ">" rest) -> match_threshold_at s = None.
Proof.
  intros H. unfold match_threshold_at.
  destruct (drop_prefix ">" s) as [r|] eqn:E; [| reflexivity].
  apply drop_prefix_spec in E. now elim (H r).
Qed.

Lemma search_threshold_after (a ws digits : string) :
  ~ has_char ">" a -> spaces ws ->
  digits <> "" -> all_chars isdigit digits = true ->
  search_threshold (a +:+ ">" +:+ ws +:+ digits) = Some digits.
Proof.
  intros Ha Hws Hne Hd. unfold search_threshold.
  rewrite re_search_skip.
  - apply re_search_here. destruct digits as [|d after]; [congruence |].
    simpl in Hd. apply andb_true_iff in Hd as [Hd Hafter].
    rewrite match_threshold_at_compose by assumption.
    apply capture_plus_all; [simpl; now rewrite Hd | discriminate].
  - intros a1 a2 -> Hne2. apply match_threshold_at_other. intros rest E.
    apply Ha. rewrite has_char_app. right.
    destruct a2 as [|x a2]; [congruence |].
    injection E as -> _. now left.
Qed.

Lemma int_digits (digits : string) :
  digits <> "" -> all_chars isdigit digits = true ->
  (String.length digits <= int_max_str_digits)%nat ->
  Py.int digits = Ok (decimal digits).
Proof.
  intros Hne Hd Hlen. unfold Py.int.
  destruct digits; [congruence |]. rewrite Hd. cbn [is_empty negb orb].
  apply Nat.ltb_ge in Hlen. now rewrite Hlen.
Qed.

Lemma Qle_bool_or_zero (x : option Q) (y : Q) :
  Qle_bool (or_zero x) y = Qle_bool (default 0%Q x) y.
Proof.
  pose proof (or_zero_eq x) as E.
  destruct (Qle_bool (default 0%Q x) y) eqn:L.
  - apply Qle_bool_iff. apply Qle_bool_iff in L. now rewrite E.
  - apply not_true_is_false. intros H. apply Qle_bool_iff in H.
    rewrite E in H. apply Qle_bool_iff in H. congruence.
Qed.

Lemma condition_skips_cost_above (claim : OperationalLiabilityClaim)
  (rule : ExtraInfoRule) (threshold : Z) :
  reads_as (condition rule) (CostAbove threshold) ->
  condition_skips (claim_type claim) (or_zero (cost_of claim)) rule
  = negb (shape_holds claim (CostAbove threshold)).
Proof.
  intros (field & ws1 & ws2 & digits & Hf & H1 & H2 & Hne & Hd & Hlen & Hv & E).
  unfold condition_skips. rewrite E.
  assert (C : contains "==" (field +:+ ws1 +:+ ">" +:+ ws2 +:+ digits) = false).
  { apply contains_false. intros S.
    apply (no_equals_sign field ws1 ws2 digits); try assumption.
    apply (substring_has_char "==" _ _ S). now left. }
  rewrite C, andb_false_r, contains_cost.
  assert (K : contains "cost" (field +:+ ws1 +:+ ">" +:+ ws2 +:+ digits) = true).
  { destruct Hf as [-> | ->].
    - apply contains_prefix.
    - apply contains_spec. exists "estimated_liability_".
      now exists (ws1 +:+ ">" +:+ ws2 +:+ digits). }
  rewrite K.
  rewrite <- (app_assoc field ws1).
  rewrite search_threshold_after; try assumption;
    [| now apply no_greater_sign].
  rewrite int_digits by assumption. rewrite Hv.
  cbn [shape_holds]. unfold Qlt_bool, cost_or_zero.
  now rewrite negb_involutive, Qle_bool_or_zero.
Qed.

Lemma condition_skips_shape (claim : OperationalLiabilityClaim)
  (rule : ExtraInfoRule) (sh : shape) :
  reads_as (condition rule) sh ->
  condition_skips (claim_type claim) (or_zero (cost_of claim)) rule
  = negb (shape_holds claim sh).
Proof.
  destruct sh as [value | threshold].
  - apply condition_skips_type_equals.
  - apply condition_skips_cost_above.
Qed.

Lemma filter_ext_In {A : Type} (f g : A -> bool) (l : list A) :
  (forall x, In x l -> f x = g x) -> List.filter f l = List.filter g l.
Proof.
  induction l as [|x l IH]; intros H; [reflexivity |].
  simpl. rewrite (H x (or_introl eq_refl)).
  rewrite IH; [reflexivity |]. intros y Hy. apply H. now right.
Qed.

Lemma prompt_hint (rule : ExtraInfoRule) (hint : string) :
  question_hint rule = Some hint -> hint <> "" -> prompt rule = hint.
Proof.
  intros E Hne. unfold prompt. rewrite E. simpl.
  apply truthy_true in Hne. now rewrite Hne.
Qed.

Lemma prompt_generated (rule : ExtraInfoRule) :
  question_hint rule = None \/ question_hint rule = Some "" ->
  prompt rule = generated_prompt rule.
Proof. intros [E | E]; unfold prompt; now rewrite E. Qed.

(** C4: [get_required_extra_info] answers, in rule order, one prompt for
    each rule that is required, whose condition (of one of the two supported
    shapes) holds of the claim, and whose named evidence is not yet on the
    claim.  The prompt is the rule's hint when it has a non-empty one, and
    the generated sentence otherwise.  In particular the rule
    [incident_type == prediction_failure] asking for a liability assessment
    contributes exactly one prompt, at its place, to a prediction-failure
    claim without such an assessment, and none to a delay claim. *)
Theorem get_required_extra_info_spec (claim : OperationalLiabilityClaim)
  (policy : Policy) :
  (forall shape_of : ExtraInfoRule -> shape,
     (forall rule, In rule (extra_info_rules policy) -> required rule = true ->
                   reads_as (condition rule) (shape_of rule)) ->
     get_required_extra_info claim policy
     = map prompt (List.filter (wanted claim shape_of) (extra_info_rules policy)))
  /\ (forall rule hint, question_hint rule = Some hint -> hint <> "" ->
       prompt rule = hint)
  /\ (forall rule, question_hint rule = None \/ question_hint rule = Some "" ->
       prompt rule = "Please provide "
                     +:+ replace (required_evidence rule) "_" " " +:+ ".")
  /\ (forall before after : list ExtraInfoRule,
       let others :=
         get_required_extra_info claim (with_rules policy before)
         ++ get_required_extra_info claim (with_rules policy after) in
       (incident_type (incident claim) = PREDICTION_FAILURE ->
        Fnol.has_liability_assessment (evidence claim) = false ->
        get_required_extra_info claim
          (with_rules policy (before ++ prediction_rule :: after))
        = get_required_extra_info claim (with_rules policy before)
          ++ "Please provide liability assessment."
             :: get_required_extra_info claim (with_rules policy after))
       /\ (incident_type (incident claim) = DELAY ->
           get_required_extra_info claim
             (with_rules policy (before ++ prediction_rule :: after))
           = others)).
Proof.
  split; [| split; [| split]].
  - intros shape_of H. rewrite get_required_extra_info_filter. f_equal.
    apply filter_ext_In. intros rule Hin. unfold kept, wanted.
    destruct (required rule) eqn:R; [| reflexivity]. cbn [andb].
    rewrite (condition_skips_shape claim rule (shape_of rule) (H rule Hin R)).
    now rewrite negb_involutive, evidence_skips_present.
  - apply prompt_hint.
  - apply prompt_generated.
  - intros before after others. unfold others.
    change (before ++ prediction_rule :: after)
      with (before ++ [prediction_rule] ++ after).
    rewrite !get_required_extra_info_app.
    split.
    + intros T A. do 2 f_equal.
      unfold get_required_extra_info, _claim_incident_type, _claim_evidence.
      rewrite T. cbn. now rewrite A.
    + intros T. do 2 f_equal.
      unfold get_required_extra_info, _claim_incident_type. now rewrite T.
Qed.

(** On a prediction-failure claim that has its logs but no liability
    assessment, the two rules of the sample policy yield the one prompt of
    the first. *)
Lemma get_required_extra_info_spec_witness :
  get_required_extra_info prediction_claim rules_policy
  = ["Please provide liability assessment."].
Proof.
  destruct (get_required_extra_info_spec prediction_claim rules_policy)
    as (H & _).
  rewrite (H sample_shape_of); [reflexivity |].
  clear H. intros rule [<- | [<- | []]] _.
  - exists " ", " ". repeat split; discriminate.
  - exists "estimated_liability_cost", " ", " ", "2500".
    repeat split;
      first [ reflexivity | discriminate | now right
            | unfold int_max_str_digits; simpl; lia ].
Defined.

(** C10: a required rule whose condition holds neither an incident-type
    equality nor a cost threshold is never passed over for its condition:
    its prompt is in the answer whenever the named evidence is not on the
    claim. *)
Theorem unrecognised_condition_passes (claim : OperationalLiabilityClaim)
  (policy : Policy) (rule : ExtraInfoRule) :
  In rule (extra_info_rules policy) ->
  required rule = true ->
  ~ mentions_type_equality (lower (condition rule)) ->
  ~ mentions_cost_threshold (lower (condition rule)) ->
  condition_skips (claim_type claim) (or_zero (cost_of claim)) rule = false
  /\ (evidence_present claim rule = false ->
      In (prompt rule) (get_required_extra_info claim policy)).
Proof.
  intros Hin Hreq Ht Hc.
  assert (S : condition_skips (claim_type claim) (or_zero (cost_of claim)) rule
              = false).
  { unfold condition_skips.
    destruct (search_incident_type (lower (condition rule))) as [g|] eqn:E1.
    { elim Ht. apply search_incident_type_mentions. eauto. }
    destruct (contains "incident_type" _ && contains "==" _); [reflexivity |].
    rewrite contains_cost.
    destruct (contains "cost" (lower (condition rule))) eqn:K; [| reflexivity].
    destruct (search_threshold (lower (condition rule))) as [g|] eqn:E2;
      [| reflexivity].
    elim Hc. split; [now apply contains_spec |].
    apply search_threshold_mentions. eauto. }
  split; [exact S |]. intros He.
  rewrite get_required_extra_info_filter. apply in_map, filter_In.
  split; [exact Hin |]. unfold kept.
  now rewrite Hreq, S, evidence_skips_present, He.
Qed.

(** The comparison [cost >= 5000] is not of the supported shape; the rule
    asks for its incident report all the same. *)
Lemma unrecognised_condition_passes_witness :
  In "Please provide incident report."
     (get_required_extra_info delay_claim
        (with_rules acme_policy [malformed_rule])).
Proof.
  apply (unrecognised_condition_passes delay_claim
           (with_rules acme_policy [malformed_rule]) malformed_rule).
  - now left.
  - reflexivity.
  - intros [g H]%search_incident_type_mentions. vm_compute in H. discriminate.
  - intros [_ [g H]%search_threshold_mentions]. vm_compute in H. discriminate.
  - reflexivity.
Defined.

End ExtraInfoFacts.

(** ** Auto-resolution *)

Module ResolveFacts.
Import Py Fnol PolicySchema PolicyService Spec Fixtures PyFacts PayoutFacts.

Lemma truthy_list_false {A : Type} (l : list A) : truthy_list l = false <-> l = [].
Proof. destruct l; simpl; split; congruence. Qed.

Lemma amount_gate (policy : Policy) (claim : OperationalLiabilityClaim) :
  Qlt_bool (auto_resolve_max_amount (resolution_rules policy))
           (or_zero (_claim_estimated_cost claim)) = false
  <-> gate_amount policy claim.
Proof.
  unfold gate_amount, cost_or_zero, cost_of, _claim_estimated_cost.
  rewrite Qlt_bool_false. now rewrite or_zero_eq.
Qed.

Lemma can_auto_resolve_gates (claim : OperationalLiabilityClaim) (policy : Policy)
  (name_verified : bool) :
  let rules := resolution_rules policy in
  can_auto_resolve claim policy name_verified false
  = implb (require_name_match rules) name_verified
    && implb (require_incident_type_covered rules)
         (mem (claim_type claim) (covered_incident_types policy))
    && negb (Qlt_bool (auto_resolve_max_amount rules)
               (or_zero (_claim_estimated_cost claim)))
    && implb (require_evidence_complete rules)
         (negb (truthy_list (get_required_extra_info claim policy))).
Proof.
  unfold can_auto_resolve, _claim_incident_type. fold (claim_type claim). cbv zeta.
  destruct (require_name_match _), name_verified,
    (require_incident_type_covered _), (mem _ _), (Qlt_bool _ _),
    (require_evidence_complete _), (truthy_list _); reflexivity.
Qed.

Lemma implb_true (a b : bool) : implb a b = true <-> (a = true -> b = true).
Proof. destruct a, b; simpl; split; auto; intros H; now specialize (H eq_refl). Qed.

Lemma can_auto_resolve_true (claim : OperationalLiabilityClaim) (policy : Policy)
  (name_verified : bool) :
  can_auto_resolve claim policy name_verified false = true <->
  gate_name policy name_verified /\ gate_covered policy claim
  /\ gate_amount policy claim /\ gate_evidence policy claim.
Proof.
  rewrite can_auto_resolve_gates. cbv zeta.
  rewrite !andb_true_iff, !implb_true, !negb_true_iff.
  rewrite amount_gate, truthy_list_false, mem_In.
  unfold gate_name, gate_covered, gate_evidence, covered. tauto.
Qed.

(** C3: [can_auto_resolve] is false whenever fraud is flagged, whatever the
    other inputs; otherwise it is true exactly when every enabled gate
    holds: the name gate, the coverage gate, the amount gate on the cost
    (0 when absent), and the evidence gate; so a single failing gate makes
    it false. *)
Theorem can_auto_resolve_spec (claim : OperationalLiabilityClaim) (policy : Policy)
  (name_verified : bool) :
  let rules := resolution_rules policy in
  can_auto_resolve claim policy name_verified true = false
  /\ (can_auto_resolve claim policy name_verified false = true <->
      (require_name_match rules = true -> name_verified = true)
      /\ (require_incident_type_covered rules = true ->
          In (claim_type claim) (covered_incident_types policy))
      /\ (default 0 (cost_of claim) <= auto_resolve_max_amount rules)%Q
      /\ (require_evidence_complete rules = true ->
          get_required_extra_info claim policy = []))
  /\ (forall fraud_flagged,
        ~ gate_name policy name_verified \/ ~ gate_covered policy claim
        \/ ~ gate_amount policy claim \/ ~ gate_evidence policy claim ->
        can_auto_resolve claim policy name_verified fraud_flagged = false).
Proof.
  intros rules. split; [reflexivity |]. split; [apply can_auto_resolve_true |].
  intros [|] H; [reflexivity |].
  apply not_true_is_false. intros T. apply can_auto_resolve_true in T. tauto.
Qed.

(** The scenario of the specification: the delay claim of 3000 resolves
    automatically under the sample policy when the name is verified and no
    fraud is flagged, and not once fraud is flagged. *)
Lemma can_auto_resolve_spec_witness :
  can_auto_resolve delay_claim acme_policy true false = true
  /\ can_auto_resolve delay_claim acme_policy true true = false.
Proof.
  destruct (can_auto_resolve_spec delay_claim acme_policy true) as (F & T & _).
  split; [| exact F]. apply T.
  split; [reflexivity |]. split; [now left |]. split; [discriminate | reflexivity].
Defined.

End ResolveFacts.

(** ** The checker *)

Module CheckerFacts.
Import Py Fnol Checker Spec Fixtures PyFacts.

Section WithParser.

Variable fromisoformat : string -> option datetime.

Lemma check_claim_unfold (utcnow : Z) (claim : OperationalLiabilityClaim) :
  check_claim fromisoformat utcnow claim
  = dated ← date_contradictions fromisoformat (naive utcnow)
              (incident_date (incident claim));
    Ok (report_with claim dated).
Proof. reflexivity. Qed.

(** *** The date check *)

Lemma date_contradictions_checked (utcnow : Z) (claim : OperationalLiabilityClaim) :
  date_contradictions fromisoformat (naive utcnow) (incident_date (incident claim))
  = match checked_date fromisoformat claim with
    | None => Ok []
    | Some t =>
        match utcoffset t with
        | Some _ => Raise TypeError
        | None =>
            Ok (if (utcnow <? micros t)%Z then [DateInFuture t]
                else if (micros t <? utcnow - two_years)%Z then [DateTooOld t]
                else [])
        end
    end.
Proof.
  unfold date_contradictions, checked_date.
  destruct (incident_date (incident claim)) as [d|]; [| reflexivity].
  destruct (date_truthy d); [| reflexivity].
  destruct (date_to_check fromisoformat d) as [t|]; [| reflexivity].
  unfold dt_gt, dt_lt. simpl.
  destruct (utcoffset t); [reflexivity |]. simpl.
  destruct (utcnow <? micros t)%Z; [reflexivity |]. simpl.
  fold two_years. now destruct (micros t <? utcnow - two_years)%Z.
Qed.

Lemma date_contradictions_dated (now : datetime) (date : option DateValue)
  (dated : list Contradiction) :
  date_contradictions fromisoformat now date = Ok dated ->
  Forall (fun m => is_date_message m = true) dated.
Proof.
  unfold date_contradictions.
  destruct date as [d|]; [| intros [= <-]; constructor].
  destruct (date_truthy d); [| intros [= <-]; constructor].
  destruct (date_to_check fromisoformat d) as [t|]; [| intros [= <-]; constructor].
  destruct (dt_gt t now) as [[|]|]; simpl; try discriminate.
  - intros [= <-]. now repeat constructor.
  - destruct (dt_lt t (minus_days now 730)) as [[|]|]; simpl; try discriminate;
      intros [= <-]; now repeat constructor.
Qed.

Lemma check_claim_returns (utcnow : Z) (claim : OperationalLiabilityClaim) :
  returns (check_claim fromisoformat utcnow claim)
  <-> naive_date fromisoformat claim.
Proof.
  rewrite check_claim_unfold, date_contradictions_checked. unfold naive_date.
  destruct (checked_date fromisoformat claim) as [t|]; simpl.
  - destruct (utcoffset t) eqn:U; simpl; split.
    + intros [].
    + intros H. specialize (H t eq_refl). congruence.
    + now intros _ t' [= <-].
    + tauto.
  - split; [discriminate | tauto].
Qed.

Lemma check_claim_ok (utcnow : Z) (claim : OperationalLiabilityClaim)
  (report : CheckReport) :
  check_claim fromisoformat utcnow claim = Ok report ->
  exists dated,
    date_contradictions fromisoformat (naive utcnow)
      (incident_date (incident claim)) = Ok dated
    /\ report = report_with claim dated.
Proof.
  rewrite check_claim_unfold.
  destruct (date_contradictions _ _ _) as [dated|]; simpl; [| discriminate].
  intros [= <-]. now exists dated.
Qed.

(** *** The score *)

Lemma nonblank_filled (o : option string) : nonblank o = filled o.
Proof. destruct o as [[|c s]|]; reflexivity. Qed.

Lemma tier1_subscore (claim : OperationalLiabilityClaim) (m : list string) :
  tier_score (tier1 claim m) weight1 = subscore (tier1_items claim) f0_6.
Proof.
  unfold tier1, tier1_items. rewrite nonblank_filled.
  destruct (_ && _), (filled _), (negb _), (negb _); reflexivity.
Qed.

Lemma tier2_subscore (claim : OperationalLiabilityClaim) (m : list string) :
  tier_score (tier2 claim m) weight2 = subscore (tier2_items claim) f0_3.
Proof.
  unfold tier2, tier2_items. rewrite nonblank_filled.
  destruct (filled _), (is_some _), (is_some _); reflexivity.
Qed.

Lemma tier3_subscore (claim : OperationalLiabilityClaim) (m : list string) :
  tier_score (tier3 claim m) weight3 = subscore (tier3_items claim) f0_1.
Proof.
  unfold tier3, tier3_items. rewrite nonblank_filled.
  destruct (Fnol.has_liability_assessment _), (filled _), (_ <=? _)%Z; reflexivity.
Qed.

Lemma report_score (claim : OperationalLiabilityClaim) (dated : list Contradiction) :
  completeness_score (report_with claim dated) = score claim.
Proof.
  unfold report_with, score. cbn [completeness_score].
  now rewrite tier1_subscore, tier2_subscore, tier3_subscore.
Qed.

Lemma score_in_unit_interval (claim : OperationalLiabilityClaim) :
  in_unit_interval (score claim).
Proof.
  unfold score, tier1_items, tier2_items, tier3_items.
  destruct (_ && _), (filled (incident_description _)), (negb (IncidentType_eqb _ _)),
    (negb (is_asset_unknown _)), (filled (incident_location _)),
    (is_some (estimated_liability_cost _)), (is_some (incident_date _)),
    (Fnol.has_liability_assessment _), (filled (system_component _)),
    (_ <=? _)%Z;
    split; vm_compute; reflexivity.
Qed.

Lemma all_satisfied4 (a b c d : bool) :
  all_satisfied [a; b; c; d] -> a = true /\ b = true /\ c = true /\ d = true.
Proof. destruct a, b, c, d; cbv; intros H; try discriminate; tauto. Qed.

Lemma all_satisfied3 (a b c : bool) :
  all_satisfied [a; b; c] -> a = true /\ b = true /\ c = true.
Proof. destruct a, b, c; cbv; intros H; try discriminate; tauto. Qed.

Lemma none_satisfied3 (a b c : bool) :
  none_satisfied [a; b; c] -> a = false /\ b = false /\ c = false.
Proof. destruct a, b, c; cbv; intros H; try discriminate; tauto. Qed.

Lemma score_tiers (claim : OperationalLiabilityClaim) :
  (all_satisfied (tier1_items claim) -> none_satisfied (tier2_items claim) ->
   none_satisfied (tier3_items claim) -> score claim = f0_6)
  /\ (all_satisfied (tier1_items claim) -> all_satisfied (tier2_items claim) ->
      none_satisfied (tier3_items claim) -> score claim = f0_9_below)
  /\ (all_satisfied (tier1_items claim) -> all_satisfied (tier2_items claim) ->
      all_satisfied (tier3_items claim) -> score claim = f1_below).
Proof.
  unfold score, tier1_items, tier2_items, tier3_items. repeat split.
  - intros (-> & -> & -> & ->)%all_satisfied4 (-> & -> & ->)%none_satisfied3
      (-> & -> & ->)%none_satisfied3.
    vm_compute. reflexivity.
  - intros (-> & -> & -> & ->)%all_satisfied4 (-> & -> & ->)%all_satisfied3
      (-> & -> & ->)%none_satisfied3.
    vm_compute. reflexivity.
  - intros (-> & -> & -> & ->)%all_satisfied4 (-> & -> & ->)%all_satisfied3
      (-> & -> & ->)%all_satisfied3.
    vm_compute. reflexivity.
Qed.

(** C2, as stated, fails on a claim with every item of tiers 1 and 2 and
    none of tier 3: the sum 0.6 + 0.3 of the code is 0.8999999999999999 in
    binary64, not 0.9. *)
Lemma completeness_score_not_nine_tenths :
  score_of (check_claim sample_fromisoformat jan_15_2024 tier12_claim)
  = Some f0_9_below
  /\ score_of (check_claim sample_fromisoformat jan_15_2024 tier12_claim)
     <> Some f0_9.
Proof.
  split; [vm_compute; reflexivity |]. vm_compute. intros H. discriminate H.
Qed.

(** C2, amended: [check_claim] returns a report unless the date it has to
    compare carries a UTC offset.  The completeness score of a report is the
    sum of the three tier sub-scores, each (satisfied items / items in the
    tier) times the tier weight, computed in binary64; it lies in [0,1]; all
    of tier 1 and nothing else scores exactly 0.6, adding all of tier 2
    gives 0.8999999999999999, and all items give 0.9999999999999999. *)
Theorem completeness_score_spec (utcnow : Z) (claim : OperationalLiabilityClaim) :
  (returns (check_claim fromisoformat utcnow claim)
   <-> naive_date fromisoformat claim)
  /\ forall report,
      check_claim fromisoformat utcnow claim = Ok report ->
      completeness_score report
      = (subscore (tier1_items claim) f0_6
         + subscore (tier2_items claim) f0_3
         + subscore (tier3_items claim) f0_1)%float
      /\ in_unit_interval (completeness_score report)
      /\ (all_satisfied (tier1_items claim) ->
          none_satisfied (tier2_items claim) ->
          none_satisfied (tier3_items claim) ->
          completeness_score report = f0_6)
      /\ (all_satisfied (tier1_items claim) ->
          all_satisfied (tier2_items claim) ->
          none_satisfied (tier3_items claim) ->
          completeness_score report = f0_9_below)
      /\ (all_satisfied (tier1_items claim) ->
          all_satisfied (tier2_items claim) ->
          all_satisfied (tier3_items claim) ->
          completeness_score report = f1_below).
Proof.
  split; [apply check_claim_returns |].
  intros report (dated & _ & ->)%check_claim_ok. rewrite report_score.
  split; [reflexivity |]. split; [apply score_in_unit_interval |].
  apply score_tiers.
Qed.

(** *** Kinds of contradiction *)

Lemma filter_dated (f : Contradiction -> bool) (dated : list Contradiction) (b : bool) :
  (forall m, is_date_message m = true -> f m = b) ->
  Forall (fun m => is_date_message m = true) dated ->
  List.filter f dated = if b then dated else [].
Proof.
  intros Hf. induction 1 as [|m l Hm _ IH]; [now destruct b |].
  simpl. rewrite (Hf m Hm), IH. now destruct b.
Qed.

Lemma filter_severity_report (claim : OperationalLiabilityClaim)
  (dated : list Contradiction) :
  Forall (fun m => is_date_message m = true) dated ->
  List.filter is_severity_cost (contradictions (report_with claim dated))
  = severity_contradictions (severity_of claim) (cost_of claim).
Proof.
  intros Hd. unfold report_with. cbn [contradictions].
  rewrite !List.filter_app.
  rewrite (filter_dated is_severity_cost dated false) by (now intros [] || exact Hd).
  unfold confidence_contradictions, logs_contradictions,
    assessment_contradictions, location_contradictions, severity_contradictions.
  destruct (low_confidence (incident_type_provenance _)),
    (low_confidence (asset_type_provenance _)),
    (low_confidence (incident_description_provenance _)),
    (negb (Fnol.has_system_logs _) && _), (_ && _ && _);
    destruct (cost_of claim) as [c|]; cbn; try reflexivity;
    destruct (Qlt_bool 25000 c && _), (_ && Qlt_bool c 5000),
      (_ && Qlt_bool c 1000), (_ && Qlt_bool 50000 c); reflexivity.
Qed.

Lemma filter_date_report (claim : OperationalLiabilityClaim)
  (dated : list Contradiction) :
  Forall (fun m => is_date_message m = true) dated ->
  List.filter is_date_message (contradictions (report_with claim dated)) = dated.
Proof.
  intros Hd. unfold report_with. cbn [contradictions].
  rewrite !List.filter_app.
  rewrite (filter_dated is_date_message dated true) by (tauto || exact Hd).
  unfold confidence_contradictions, logs_contradictions,
    assessment_contradictions, location_contradictions, severity_contradictions.
  destruct (low_confidence (incident_type_provenance _)),
    (low_confidence (asset_type_provenance _)),
    (low_confidence (incident_description_provenance _)),
    (negb (Fnol.has_system_logs _) && _), (_ && _ && _);
    destruct (cost_of claim) as [c|]; cbn; rewrite ?app_nil_r; try reflexivity;
    destruct (Qlt_bool 25000 c && _), (_ && Qlt_bool c 5000),
      (_ && Qlt_bool c 1000), (_ && Qlt_bool 50000 c); cbn;
      rewrite ?app_nil_r; reflexivity.
Qed.

Lemma without_date_report (claim : OperationalLiabilityClaim)
  (dated : list Contradiction) :
  Forall (fun m => is_date_message m = true) dated ->
  without_date_messages (report_with claim dated)
  = without_date_messages (report_with claim []).
Proof.
  intros Hd. unfold without_date_messages, report_with.
  cbn [contradictions completeness_score missing_required_evidence
       recommended_questions].
  f_equal. rewrite !List.filter_app. do 2 f_equal.
  rewrite (filter_dated _ dated false); [reflexivity | | exact Hd].
  now intros m ->.
Qed.

(** *** Severity against cost *)




(** *** The date check *)

Lemma date_messages_ok (utcnow : Z) (claim : OperationalLiabilityClaim)
  (dated : list Contradiction) :
  date_contradictions fromisoformat (naive utcnow)
    (incident_date (incident claim)) = Ok dated ->
  date_messages (check_claim fromisoformat utcnow claim) = Some dated.
Proof.
  intros E. rewrite check_claim_unfold, E. cbn.
  f_equal. apply filter_date_report. now apply date_contradictions_dated in E.
Qed.

(** C8: the date check.  A date that carries a UTC offset makes
    [check_claim] raise [TypeError]: the comparison with the naive clock
    reading is not defined.  With a naive date, or none, it returns: a
    string that does not parse is passed over without a message, a date in
    the future and a date older than 730 days are each flagged. *)
Theorem check_claim_date_check (utcnow : Z) (claim : OperationalLiabilityClaim) :
  check_claim fromisoformat utcnow aware_claim = Raise TypeError
  /\ (forall t offset,
        checked_date fromisoformat claim = Some t -> utcoffset t = Some offset ->
        check_claim fromisoformat utcnow claim = Raise TypeError)
  /\ (naive_date fromisoformat claim ->
      returns (check_claim fromisoformat utcnow claim))
  /\ (forall s,
        incident_date (incident claim) = Some (DateString s) ->
        fromisoformat (replace (replace s "Z" "+00:00") "+00:00" "") = None ->
        date_messages (check_claim fromisoformat utcnow claim) = Some [])
  /\ (forall t,
        checked_date fromisoformat claim = Some t -> utcoffset t = None ->
        (utcnow < micros t ->
         date_messages (check_claim fromisoformat utcnow claim)
         = Some [DateInFuture t])%Z
        /\ (micros t < utcnow - two_years ->
            date_messages (check_claim fromisoformat utcnow claim)
            = Some [DateTooOld t])%Z
        /\ (utcnow - two_years <= micros t <= utcnow ->
            date_messages (check_claim fromisoformat utcnow claim) = Some [])%Z).
Proof.
  split; [reflexivity |]. split; [| split; [| split]].
  - intros t offset Ht Ho.
    now rewrite check_claim_unfold, date_contradictions_checked, Ht, Ho.
  - apply check_claim_returns.
  - intros s Hs Hp. apply date_messages_ok.
    rewrite date_contradictions_checked. unfold checked_date. rewrite Hs.
    cbn. rewrite Hp. now destruct (truthy s).
  - intros t Ht Ho.
    pose proof (date_contradictions_checked utcnow claim) as E.
    rewrite Ht, Ho in E. apply date_messages_ok in E. rewrite E.
    repeat split.
    + intros L. apply Z.ltb_lt in L. now rewrite L.
    + intros L. assert (L' : (utcnow <? micros t)%Z = false).
      { apply Z.ltb_ge. unfold two_years, micros_per_day in L. lia. }
      apply Z.ltb_lt in L. now rewrite L', L.
    + intros [L1 L2]. apply Z.ltb_ge in L1, L2. now rewrite L1, L2.
Qed.

(** *** The clock *)

(** C9, as stated, fails: the same claim gets different reports from two
    readings of the clock, one before and one after its incident date. *)
Lemma check_claim_depends_on_clock :
  check_claim sample_fromisoformat (jan_15_2024 - 1) delay_claim
  <> check_claim sample_fromisoformat (jan_15_2024 + 1) delay_claim.
Proof. vm_compute. intros H. discriminate H. Qed.

(** C9, amended: [check_claim] is a function of the claim and of the time
    it reads from the clock.  Whether it returns, the score, the missing
    evidence, the questions and every contradiction other than the two date
    messages do not depend on the time; a claim without an incident date
    gets the same report at all times; equal times give equal reports. *)
Theorem check_claim_clock (now1 now2 : Z) (claim : OperationalLiabilityClaim) :
  (returns (check_claim fromisoformat now1 claim)
   <-> returns (check_claim fromisoformat now2 claim))
  /\ (forall r1 r2,
        check_claim fromisoformat now1 claim = Ok r1 ->
        check_claim fromisoformat now2 claim = Ok r2 ->
        without_date_messages r1 = without_date_messages r2
        /\ completeness_score r1 = completeness_score r2
        /\ missing_required_evidence r1 = missing_required_evidence r2
        /\ recommended_questions r1 = recommended_questions r2)
  /\ (incident_date (incident claim) = None ->
      check_claim fromisoformat now1 claim = check_claim fromisoformat now2 claim)
  /\ (now1 = now2 ->
      check_claim fromisoformat now1 claim = check_claim fromisoformat now2 claim).
Proof.
  split; [now rewrite !check_claim_returns |]. split; [| split].
  - intros r1 r2 (d1 & Hd1%date_contradictions_dated & ->)%check_claim_ok
      (d2 & Hd2%date_contradictions_dated & ->)%check_claim_ok.
    rewrite (without_date_report claim d1 Hd1), (without_date_report claim d2 Hd2).
    repeat split.
  - intros E. rewrite !check_claim_unfold. now rewrite E.
  - now intros ->.
Qed.

End WithParser.

(** *** Sample runs *)

(** The three sample claims return reports scoring 0.6,
    0.8999999999999999 and 0.9999999999999999. *)
Lemma completeness_score_spec_witness :
  score_of (check_claim sample_fromisoformat jan_15_2024 tier1_claim)
  = Some f0_6
  /\ score_of (check_claim sample_fromisoformat jan_15_2024 tier12_claim)
     = Some f0_9_below
  /\ score_of (check_claim sample_fromisoformat jan_15_2024 complete_claim)
     = Some f1_below.
Proof.
  assert (E1 : check_claim sample_fromisoformat jan_15_2024 tier1_claim
               = Ok (report_with tier1_claim [])) by reflexivity.
  assert (E2 : check_claim sample_fromisoformat jan_15_2024 tier12_claim
               = Ok (report_with tier12_claim [])) by reflexivity.
  assert (E3 : check_claim sample_fromisoformat jan_15_2024 complete_claim
               = Ok (report_with complete_claim [])) by reflexivity.
  destruct (proj2 (completeness_score_spec sample_fromisoformat jan_15_2024
                     tier1_claim) _ E1) as (_ & _ & H1 & _).
  destruct (proj2 (completeness_score_spec sample_fromisoformat jan_15_2024
                     tier12_claim) _ E2) as (_ & _ & _ & H2 & _).
  destruct (proj2 (completeness_score_spec sample_fromisoformat jan_15_2024
                     complete_claim) _ E3) as (_ & _ & _ & _ & H3).
  rewrite E1, E2, E3. cbn [score_of].
  rewrite H1, H2, H3; repeat split; reflexivity.
Defined.

(** A string date ending in Z is stripped of the suffix and compared; one
    with the offset +05:30 reaches the comparison with its offset and
    raises. *)
Example string_dates :
  returns
    (check_claim sample_fromisoformat jan_15_2024
       (with_date delay_claim (Some (DateString "2024-01-15T10:30:00Z"))))
  /\ check_claim sample_fromisoformat jan_15_2024
       (with_date delay_claim (Some (DateString "2024-01-15T10:30:00+05:30")))
     = Raise TypeError
  /\ date_messages
       (check_claim sample_fromisoformat jan_15_2024
          (with_date delay_claim (Some (DateString "yesterday"))))
     = Some [].
Proof. repeat split. Qed.


End CheckerFacts.

(** ** More on trimming and digits *)

Module StringMore.
Import Py PolicyServiceRest Spec SpecMore PyFacts NameFacts.

Lemma skip_while_all (p : ascii -> bool) (s : string) :
  all_chars p s = true -> skip_while p s = "".
Proof.
  induction s as [|c s IH]; simpl; [reflexivity |].
  intros [-> Hs]%andb_true_iff. now apply IH.
Qed.

Lemma strip_spaces (s : string) : spaces s -> strip s = "".
Proof. intros H. unfold strip, lstrip. now rewrite skip_while_all. Qed.

Lemma skip_while_idem (p : ascii -> bool) (s : string) :
  skip_while p (skip_while p s) = skip_while p s.
Proof.
  induction s as [|c s IH]; [reflexivity |].
  simpl. destruct (p c) eqn:E; [exact IH |]. simpl. now rewrite E.
Qed.

Lemma skip_while_head (p : ascii -> bool) (s : string) (c : ascii) (r : string) :
  skip_while p s = String c r -> p c = false.
Proof.
  induction s as [|x s IH]; simpl; [discriminate |].
  destruct (p x) eqn:E; [exact IH |]. now intros [= <- _].
Qed.

Lemma rstrip_head (c : ascii) (r : string) :
  isspace c = false -> rstrip (String c r) = String c (rstrip r).
Proof. intros E. cbn [rstrip]. rewrite E. now destruct (rstrip r). Qed.

Lemma rstrip_cons (c : ascii) (s : string) (c' : ascii) (r' : string) :
  rstrip s = String c' r' -> rstrip (String c s) = String c (String c' r').
Proof. intros E. cbn [rstrip]. now rewrite E. Qed.

Lemma rstrip_idem (s : string) : rstrip (rstrip s) = rstrip s.
Proof.
  induction s as [|c s IH]; [reflexivity |].
  destruct (rstrip s) as [|c' r'] eqn:E.
  - cbn [rstrip]. rewrite E.
    destruct (isspace c) eqn:Ec; [reflexivity |]. simpl. now rewrite Ec.
  - rewrite (rstrip_cons c s c' r' E). now apply rstrip_cons.
Qed.

(** Trimming twice is trimming once. *)
Lemma strip_idem (s : string) : strip (strip s) = strip s.
Proof.
  unfold strip, lstrip.
  destruct (skip_while isspace s) as [|c r] eqn:E; [reflexivity |].
  pose proof (skip_while_head _ _ _ _ E) as Hc.
  rewrite (rstrip_head c r Hc). rewrite skip_while_stop by exact Hc.
  rewrite <- (rstrip_head c r Hc). apply rstrip_idem.
Qed.

Lemma rstrip_no_space (s : string) :
  all_chars (fun c => negb (isspace c)) s = true -> rstrip s = s.
Proof.
  induction s as [|c s IH]; [reflexivity |].
  simpl all_chars. intros [Hc Hs]%andb_true_iff. apply negb_true_iff in Hc.
  rewrite (rstrip_head c s Hc). now rewrite IH.
Qed.

Lemma strip_no_space (s : string) :
  all_chars (fun c => negb (isspace c)) s = true -> strip s = s.
Proof.
  intros H. unfold strip, lstrip.
  destruct s as [|c s]; [reflexivity |].
  pose proof H as H'. simpl all_chars in H'.
  apply andb_true_iff in H' as [Hc _]. apply negb_true_iff in Hc.
  rewrite skip_while_stop by exact Hc. now apply rstrip_no_space.
Qed.

Lemma all_chars_impl (p q : ascii -> bool) (s : string) :
  (forall c, p c = true -> q c = true) ->
  all_chars p s = true -> all_chars q s = true.
Proof.
  intros Hpq. induction s as [|c s IH]; simpl; [reflexivity |].
  intros [Hc Hs]%andb_true_iff. now rewrite (Hpq c Hc), IH.
Qed.

Lemma keep_chars_all (p : ascii -> bool) (s : string) :
  all_chars p (keep_chars p s) = true.
Proof.
  induction s as [|c s IH]; [reflexivity |].
  simpl. destruct (p c) eqn:E; [simpl; now rewrite E | exact IH].
Qed.

Lemma keep_chars_fixed (p : ascii -> bool) (s : string) :
  all_chars p s = true -> keep_chars p s = s.
Proof.
  induction s as [|c s IH]; simpl; [reflexivity |].
  intros [-> Hs]%andb_true_iff. now rewrite IH.
Qed.

Lemma digit_not_space (c : ascii) : isdigit c = true -> negb (isspace c) = true.
Proof.
  intros H. destruct (isspace c) eqn:E; [| reflexivity].
  apply isspace_not_digit in E. congruence.
Qed.

(** Digits need no trimming. *)
Lemma strip_digits (s : string) : strip (digits_of s) = digits_of s.
Proof.
  apply strip_no_space.
  apply (all_chars_impl isdigit); [exact digit_not_space | apply keep_chars_all].
Qed.

Lemma keep_chars_skip_while (p q : ascii -> bool) (s : string) :
  (forall c, q c = true -> p c = false) ->
  keep_chars p (skip_while q s) = keep_chars p s.
Proof.
  intros H. induction s as [|c s IH]; [reflexivity |].
  simpl. destruct (q c) eqn:E; [| reflexivity].
  now rewrite (H c E).
Qed.

Lemma keep_digits_rstrip (s : string) :
  keep_chars isdigit (rstrip s) = keep_chars isdigit s.
Proof.
  induction s as [|c s IH]; [reflexivity |].
  destruct (rstrip s) as [|c' r'] eqn:E.
  - cbn [rstrip]. rewrite E. cbn [keep_chars] in *.
    destruct (isspace c) eqn:Ec.
    + now rewrite (isspace_not_digit c Ec).
    + cbn [keep_chars]. now rewrite <- IH.
  - rewrite (rstrip_cons c s c' r' E).
    change (keep_chars isdigit (String c (String c' r')))
      with (if isdigit c then String c (keep_chars isdigit (String c' r'))
            else keep_chars isdigit (String c' r')).
    rewrite IH. reflexivity.
Qed.

(** Trimming loses no digit. *)
Lemma digits_strip (s : string) : digits_of (strip s) = digits_of s.
Proof.
  unfold digits_of, strip, lstrip. rewrite keep_digits_rstrip.
  apply keep_chars_skip_while. exact isspace_not_digit.
Qed.

Lemma strip_empty_or_not (s : string) :
  negb (truthy s) || negb (truthy (strip s)) = is_empty (strip s).
Proof. destruct s as [|c s]; [reflexivity |]. unfold truthy. simpl negb at 1. now rewrite negb_involutive. Qed.

End StringMore.

(** ** More on the checker *)

Module CheckerMore.
Import Py Fnol Checker Spec Fixtures PyFacts CheckerFacts SpecMore FixturesMore
  StringMore.

(** *** Missing evidence *)

Lemma in_unsatisfied (names : list string) (flags : list bool) (name : string) :
  NoDup names -> length names = length flags ->
  In name (unsatisfied names flags) <->
  exists i, names !! i = Some name /\ flags !! i = Some false.
Proof.
  intros Hnd. revert flags.
  induction Hnd as [|n names Hn Hnd IH]; intros [|f flags] Hlen;
    try discriminate Hlen.
  - simpl. split; [tauto | intros (i & H & _); discriminate H].
  - injection Hlen as Hlen. specialize (IH flags Hlen).
    assert (Hin : forall i, names !! i = Some name -> In name names).
    { intros i Hi. apply list_elem_of_In. eapply list_elem_of_lookup_2, Hi. }
    cbn [unsatisfied]. destruct f.
    + rewrite IH. split.
      * intros (i & H1 & H2). now exists (S i).
      * intros ([|i] & H1 & H2); [discriminate H2 | eauto].
    + cbn [In]. rewrite IH. split.
      * intros [<- | (i & H1 & H2)]; [now exists 0%nat | now exists (S i)].
      * intros ([|i] & H1 & H2); [left; now injection H1 | right; eauto].
Qed.

Lemma all_names_NoDup : NoDup all_names.
Proof. apply (bool_decide_unpack _). vm_compute. exact I. Qed.

Lemma mem_iff_In (x : string) (l : list string) : mem x l = true <-> In x l.
Proof.
  unfold mem. rewrite existsb_exists. split.
  - intros (y & Hy & E). apply String.eqb_eq in E. now subst.
  - intros H. exists x. split; [exact H | apply String.eqb_refl].
Qed.

Lemma mem_missing (flags : list bool) (i : nat) (name : string) (f : bool) :
  length flags = 10%nat ->
  all_names !! i = Some name -> flags !! i = Some f ->
  mem name (unsatisfied all_names flags) = negb f.
Proof.
  intros Hlen Hn Hf.
  pose proof (in_unsatisfied all_names flags name all_names_NoDup
                (eq_sym Hlen)) as I.
  destruct (mem name (unsatisfied all_names flags)) eqn:M.
  - apply mem_iff_In, I in M as (j & Hj & Hfj).
    assert (j = i) as ->.
    { eapply NoDup_lookup; eauto using all_names_NoDup. }
    rewrite Hf in Hfj. now injection Hfj as ->.
  - destruct f; [reflexivity |]. exfalso.
    apply not_true_iff_false in M. apply M, mem_iff_In, I. eauto.
Qed.

Lemma unsatisfied_length (names : list string) (flags : list bool) :
  length names = length flags ->
  (length (unsatisfied names flags) + satisfied flags = length flags)%nat.
Proof.
  revert flags. induction names as [|n names IH]; intros [|f flags] Hlen;
    try discriminate Hlen; [reflexivity |].
  injection Hlen as Hlen. specialize (IH flags Hlen).
  unfold satisfied in *. destruct f; simpl; lia.
Qed.

Lemma tier1_missing (claim : OperationalLiabilityClaim) (m : list string) :
  missing (tier1 claim m) = m ++ unsatisfied tier1_names (tier1_items claim).
Proof.
  unfold tier1, tier1_items. rewrite nonblank_filled.
  destruct (_ && _), (filled _), (negb _), (negb _); cbn;
    rewrite <- ?List.app_assoc, ?app_nil_r; reflexivity.
Qed.

Lemma tier2_missing (claim : OperationalLiabilityClaim) (m : list string) :
  missing (tier2 claim m) = m ++ unsatisfied tier2_names (tier2_items claim).
Proof.
  unfold tier2, tier2_items. rewrite nonblank_filled.
  destruct (filled _), (is_some _), (is_some _); cbn;
    rewrite <- ?List.app_assoc, ?app_nil_r; reflexivity.
Qed.

Lemma tier3_missing (claim : OperationalLiabilityClaim) (m : list string) :
  missing (tier3 claim m) = m ++ unsatisfied tier3_names (tier3_items claim).
Proof.
  unfold tier3, tier3_items. rewrite nonblank_filled.
  destruct (Fnol.has_liability_assessment _), (filled _), (_ <=? _)%Z; cbn;
    rewrite <- ?List.app_assoc, ?app_nil_r; reflexivity.
Qed.

Lemma unsatisfied_app (names names' : list string) (flags flags' : list bool) :
  length names = length flags ->
  unsatisfied (names ++ names') (flags ++ flags')
  = unsatisfied names flags ++ unsatisfied names' flags'.
Proof.
  revert flags. induction names as [|n names IH]; intros [|f flags] Hlen;
    try discriminate Hlen; [reflexivity |].
  injection Hlen as Hlen. cbn. rewrite (IH flags Hlen). now destruct f.
Qed.

Lemma report_missing (claim : OperationalLiabilityClaim) (dated : list Contradiction) :
  missing_required_evidence (report_with claim dated)
  = unsatisfied all_names (all_items claim).
Proof.
  unfold report_with. cbn [missing_required_evidence].
  rewrite tier3_missing, tier2_missing, tier1_missing.
  unfold all_names, all_items.
  rewrite !unsatisfied_app by reflexivity. now rewrite app_nil_l, <- List.app_assoc.
Qed.

Lemma satisfied_app (flags flags' : list bool) :
  satisfied (flags ++ flags') = (satisfied flags + satisfied flags')%nat.
Proof. unfold satisfied. now rewrite List.filter_app, length_app. Qed.

Lemma satisfied_bound (flags : list bool) : (satisfied flags <= length flags)%nat.
Proof. unfold satisfied. apply List.filter_length_le. Qed.

Lemma score_counts (claim : OperationalLiabilityClaim) :
  score claim
  = score_of_counts (satisfied (tier1_items claim)) (satisfied (tier2_items claim))
      (satisfied (tier3_items claim)).
Proof. reflexivity. Qed.

Lemma score_of_counts_extremes (a b c : nat) :
  (a <= 4)%nat -> (b <= 3)%nat -> (c <= 3)%nat ->
  ((a + b + c = 10)%nat <-> score_of_counts a b c = f1_below)
  /\ ((a + b + c = 0)%nat <-> score_of_counts a b c = 0%float).
Proof.
  intros Ha Hb Hc.
  destruct a as [|[|[|[|[|a]]]]]; try lia;
    destruct b as [|[|[|[|b]]]]; try lia;
    destruct c as [|[|[|[|c]]]]; try lia;
    vm_compute; split; split; intros H; try reflexivity; discriminate H.
Qed.

Lemma score_extremes (claim : OperationalLiabilityClaim) :
  (unsatisfied all_names (all_items claim) = [] <-> score claim = f1_below)
  /\ (length (unsatisfied all_names (all_items claim)) = 10%nat
      <-> score claim = 0%float).
Proof.
  pose proof (unsatisfied_length all_names (all_items claim) eq_refl) as L.
  change (length (all_items claim)) with 10%nat in L.
  unfold all_items in L at 2. rewrite !satisfied_app in L.
  pose proof (satisfied_bound (tier1_items claim)) as B1.
  pose proof (satisfied_bound (tier2_items claim)) as B2.
  pose proof (satisfied_bound (tier3_items claim)) as B3.
  cbn [tier1_items tier2_items tier3_items length] in B1, B2, B3.
  rewrite score_counts.
  destruct (score_of_counts_extremes _ _ _ B1 B2 B3) as [E1 E0].
  rewrite <- E1, <- E0. split; [| lia].
  rewrite <- length_zero_iff_nil. lia.
Qed.

Lemma in_missing (flags : list bool) (i : nat) (name : string) (f : bool) :
  length flags = 10%nat ->
  all_names !! i = Some name -> flags !! i = Some f ->
  In name (unsatisfied all_names flags) <-> f = false.
Proof.
  intros Hlen Hn Hf. rewrite <- mem_iff_In, (mem_missing flags i name f Hlen Hn Hf).
  apply negb_true_iff.
Qed.

(** *** Questions *)



Lemma when_sublist {A : Type} (b : bool) (x : A) (l l' : list A) :
  sublist l l' -> sublist (when b x ++ l) (x :: l').
Proof. destruct b; cbn; [apply sublist_skip | apply sublist_cons]. Qed.





(** *** Contradictions *)

Lemma in_when {A : Type} (b : bool) (x y : A) :
  In y (when b x) <-> b = true /\ y = x.
Proof. destruct b; cbn; intuition congruence. Qed.

Lemma fmap_when {A B : Type} (f : A -> B) (b : bool) (x : A) :
  f <$> when b x = when b (f x).
Proof. now destruct b. Qed.

Lemma StronglySorted_sublist {A : Type} (R : A -> A -> Prop) (l l' : list A) :
  sublist l l' -> StronglySorted R l' -> StronglySorted R l.
Proof.
  induction 1 as [|x l l' Hs IH|x l l' Hs IH]; intros S; [constructor | |].
  - apply StronglySorted_inv in S as [S F]. constructor; [now apply IH |].
    rewrite Forall_forall in *. intros y Hy. apply F.
    eapply elem_of_sublist; eassumption.
  - apply StronglySorted_inv in S as [S _]. now apply IH.
Qed.

Lemma severity_contradictions_when (severity : ImpactSeverity) (cost : option Q) :
  exists b m,
    severity_contradictions severity cost = when b m
    /\ is_severity_cost m = true /\ In (rank m) [3; 4; 5]%nat.
Proof.
  destruct cost as [c|]; cbn [severity_contradictions].
  - destruct severity; cbn [ImpactSeverity_eqb andb when app].
    + exists (Qlt_bool 50000 c). exists (MinorButCost c). cbn; auto 10.
    + exists false. exists (MinorButCost c). cbn; auto 10.
    + exists (Qlt_bool c 1000). exists (SevereButCostOnly c).
      rewrite app_nil_r. cbn; auto 10.
    + exists (Qlt_bool c 5000). exists (CriticalButCostOnly c).
      rewrite app_nil_r. cbn; auto 10.
    + exists false. exists (MinorButCost c). cbn; auto 10.
  - exists false. exists (MinorButCost 0). cbn; auto 10.
Qed.

Lemma assessment_contradictions_when (claim : OperationalLiabilityClaim)
  (cost : option Q) :
  exists b c, assessment_contradictions claim cost
              = when b (HighCostWithoutAssessment c).
Proof.
  destruct cost as [c|]; cbn; [eauto |]. exists false. now exists 0%Q.
Qed.

Lemma dated_when (dated : list Contradiction) :
  Forall (fun m => is_date_message m = true) dated -> (length dated <= 1)%nat ->
  exists b m, dated = when b m /\ In (rank m) [8; 9]%nat.
Proof.
  intros F L. destruct dated as [|m [|m' l]]; cbn in L; try lia.
  - exists false. exists (DateInFuture (naive 0)). cbn; auto 10.
  - exists true. exists m. split; [reflexivity |].
    apply Forall_inv in F. destruct m; try discriminate F; cbn; auto 10.
Qed.

Lemma report_contradictions_rank (claim : OperationalLiabilityClaim)
  (dated : list Contradiction) :
  Forall (fun m => is_date_message m = true) dated -> (length dated <= 1)%nat ->
  exists k d,
    In k [3; 4; 5]%nat /\ In d [8; 9]%nat
    /\ sublist (rank <$> contradictions (report_with claim dated))
         [0; 1; 2; k; 6; 7; d; 10]%nat.
Proof.
  intros F L.
  destruct (severity_contradictions_when (severity_of claim) (cost_of claim))
    as (b1 & m1 & E1 & _ & R1).
  destruct (assessment_contradictions_when claim (cost_of claim)) as (b2 & c & E2).
  destruct (dated_when dated F L) as (b3 & m3 & E3 & R3).
  exists (rank m1), (rank m3). split; [exact R1 |]. split; [exact R3 |].
  unfold report_with. cbn [contradictions]. rewrite E1, E2, E3.
  unfold confidence_contradictions, logs_contradictions, location_contradictions.
  rewrite <- !List.app_assoc, !fmap_app, !fmap_when.
  do 7 apply when_sublist.
  rewrite <- (app_nil_r (when _ _)). apply when_sublist. constructor.
Qed.

Lemma severity_contradictions_only (severity : ImpactSeverity) (cost : option Q)
  (m : Contradiction) :
  In m (severity_contradictions severity cost) -> is_severity_cost m = true.
Proof.
  destruct (severity_contradictions_when severity cost) as (b & m' & -> & S & _).
  now intros [_ ->]%in_when.
Qed.

Lemma low_confidence_doubtful (prov : option Provenance) :
  low_confidence prov = true <-> doubtful prov.
Proof.
  destruct prov as [p|]; unfold doubtful; cbn.
  - rewrite Qlt_bool_iff. split; [eauto | now intros (p' & [= <-] & L)].
  - split; [discriminate | intros (p' & [=] & _)].
Qed.

Lemma truthy_opt_given (o : option string) : truthy_opt o = true <-> given o.
Proof.
  destruct o as [s|]; unfold given; cbn.
  - rewrite truthy_true. split; [eauto | now intros (s' & [= <-] & N)].
  - split; [discriminate | intros (s' & [=] & _)].
Qed.

Lemma in_assessment (claim : OperationalLiabilityClaim) (m : Contradiction) :
  In m (assessment_contradictions claim (cost_of claim))
  <-> match m with
      | HighCostWithoutAssessment c =>
          cost_of claim = Some c /\ (25000 < c)%Q
          /\ Fnol.has_liability_assessment (evidence claim) = false
      | _ => False
      end.
Proof.
  unfold assessment_contradictions.
  destruct (cost_of claim) as [c|]; cbn [In].
  - rewrite in_when, andb_true_iff, Qlt_bool_iff, negb_true_iff.
    destruct m; try (split; [now intros [_ [=]] | tauto]).
    split; [intros ((L & N) & [= ->]); auto | now intros ([= ->] & L & N)].
  - destruct m; try tauto. split; [tauto | now intros [[=] _]].
Qed.

Lemma in_report (claim : OperationalLiabilityClaim) (dated : list Contradiction)
  (m : Contradiction) :
  Forall (fun m => is_date_message m = true) dated ->
  is_severity_cost m = false -> is_date_message m = false ->
  In m (contradictions (report_with claim dated))
  <-> match m with
      | LowConfidenceIncidentType =>
          doubtful (incident_type_provenance (incident claim))
      | LowConfidenceAssetType =>
          doubtful (asset_type_provenance (operational_impact claim))
      | LowConfidenceDescription =>
          doubtful (incident_description_provenance (incident claim))
      | DescriptionWithoutLogs =>
          Fnol.has_system_logs (evidence claim) = false
          /\ given (incident_description (incident claim))
      | HighCostWithoutAssessment c =>
          cost_of claim = Some c /\ (25000 < c)%Q
          /\ Fnol.has_liability_assessment (evidence claim) = false
      | LowConfidenceLocation =>
          given (incident_location (incident claim))
          /\ doubtful (incident_location_provenance (incident claim))
      | _ => False
      end.
Proof.
  intros F Hs Hd.
  assert (Ns : ~ In m (severity_contradictions (severity_of claim) (cost_of claim))).
  { intros H%severity_contradictions_only. congruence. }
  assert (Nd : ~ In m dated).
  { intros H. rewrite Forall_forall in F.
    apply list_elem_of_In, F in H. congruence. }
  assert (L : truthy_opt (incident_location (incident claim))
              && is_some (incident_location_provenance (incident claim))
              && low_confidence (incident_location_provenance (incident claim))
              = true
              <-> given (incident_location (incident claim))
                  /\ doubtful (incident_location_provenance (incident claim))).
  { rewrite <- low_confidence_doubtful, <- truthy_opt_given, !andb_true_iff.
    destruct (incident_location_provenance (incident claim)); cbn; intuition congruence. }
  unfold report_with. cbn [contradictions].
  unfold confidence_contradictions, logs_contradictions, location_contradictions.
  rewrite !in_app_iff, !in_when, in_assessment, L, andb_true_iff, negb_true_iff,
    truthy_opt_given, !low_confidence_doubtful.
  destruct m; try discriminate Hs; try discriminate Hd; intuition congruence.
Qed.

Section WithParser.

Variable fromisoformat : string -> option datetime.

(** X1: the report lists as missing exactly the items that are not
    satisfied, by their names and in the order of the tiers; missing and
    satisfied items add up to ten; nothing is missing exactly when the score
    is its maximum 0.9999999999999999, and everything is missing exactly
    when the score is 0. *)
Theorem missing_evidence_spec (utcnow : Z) (claim : OperationalLiabilityClaim)
  (report : CheckReport) :
  check_claim fromisoformat utcnow claim = Ok report ->
  missing_required_evidence report = unsatisfied all_names (all_items claim)
  /\ (length (missing_required_evidence report) + satisfied (all_items claim)
      = 10)%nat
  /\ (missing_required_evidence report = []
      <-> completeness_score report = f1_below)
  /\ (length (missing_required_evidence report) = 10%nat
      <-> completeness_score report = 0%float).
Proof.
  intros (dated & _ & ->)%check_claim_ok.
  rewrite report_missing, report_score.
  split; [reflexivity |]. split; [| apply score_extremes].
  now rewrite unsatisfied_length.
Qed.


Lemma dated_length (utcnow : Z) (claim : OperationalLiabilityClaim)
  (dated : list Contradiction) :
  date_contradictions fromisoformat (naive utcnow)
    (incident_date (incident claim)) = Ok dated ->
  (length dated <= 1)%nat.
Proof.
  rewrite date_contradictions_checked.
  destruct (checked_date fromisoformat claim) as [t|]; [| intros [= <-]; cbn; lia].
  destruct (utcoffset t); [discriminate |].
  destruct (utcnow <? micros t)%Z; [intros [= <-]; cbn; lia |].
  destruct (micros t <? utcnow - two_years)%Z; intros [= <-]; cbn; lia.
Qed.

(** X4: the contradictions of a report come in the order of the six
    checks and none is listed twice; there are at most eight of them, at
    most one about severity against cost and at most one about the date. *)
Theorem contradictions_shape (utcnow : Z) (claim : OperationalLiabilityClaim)
  (report : CheckReport) :
  check_claim fromisoformat utcnow claim = Ok report ->
  in_check_order (contradictions report)
  /\ NoDup (contradictions report)
  /\ (length (contradictions report) <= 8)%nat
  /\ (length (List.filter is_severity_cost (contradictions report)) <= 1)%nat
  /\ (length (List.filter is_date_message (contradictions report)) <= 1)%nat.
Proof.
  intros (dated & D & ->)%check_claim_ok.
  pose proof (date_contradictions_dated _ _ _ _ D) as F.
  pose proof (dated_length _ _ _ D) as L.
  destruct (report_contradictions_rank claim dated F L) as (k & d & Hk & Hd & S).
  assert (O : StronglySorted lt [0; 1; 2; k; 6; 7; d; 10]%nat).
  { cbn in Hk, Hd.
    destruct Hk as [<- | [<- | [<- | []]]]; destruct Hd as [<- | [<- | []]];
      repeat (constructor; [| repeat (constructor; [lia |]); constructor]);
      constructor. }
  assert (I : in_check_order (contradictions (report_with claim dated))).
  { eapply StronglySorted_sublist; eassumption. }
  split; [exact I |]. split; [| split; [| split]].
  - apply (NoDup_fmap_1 rank). eapply sublist_NoDup; [| exact S].
    cbn in Hk, Hd.
    destruct Hk as [<- | [<- | [<- | []]]]; destruct Hd as [<- | [<- | []]];
      apply (bool_decide_unpack _); vm_compute; exact Logic.I.
  - apply sublist_length in S. rewrite length_fmap in S. exact S.
  - rewrite (filter_severity_report claim dated F).
    destruct (severity_contradictions_when (severity_of claim) (cost_of claim))
      as (b & m & -> & _).
    destruct b; cbn; lia.
  - now rewrite (filter_date_report claim dated F).
Qed.


(** X6: one report can hold an item against the claim twice, or count
    and discount the same evidence.  Without the system-logs flag the logs
    are missing whatever the log count, so that with a count of two or more
    the item for several logs is satisfied while the logs themselves are
    missing; with the flag but a count below one the logs are missing, yet the
    description is not held to lack logs; and a description of white space
    only is both missing and, without logs, reported as a description without
    logs. *)
Theorem logs_and_description_tests (utcnow : Z) (claim : OperationalLiabilityClaim)
  (report : CheckReport) :
  check_claim fromisoformat utcnow claim = Ok report ->
  (Fnol.has_system_logs (evidence claim) = false ->
   In "system_logs" (missing_required_evidence report)
   /\ ((2 <= system_log_count (evidence claim))%Z ->
       ~ In "multiple_logs" (missing_required_evidence report)))
  /\ (Fnol.has_system_logs (evidence claim) = true ->
      (system_log_count (evidence claim) < 1)%Z ->
      In "system_logs" (missing_required_evidence report)
      /\ ~ In DescriptionWithoutLogs (contradictions report))
  /\ (forall s,
        incident_description (incident claim) = Some s -> s <> "" -> spaces s ->
        Fnol.has_system_logs (evidence claim) = false ->
        In "incident_description" (missing_required_evidence report)
        /\ In DescriptionWithoutLogs (contradictions report)).
Proof.
  intros (dated & D & ->)%check_claim_ok.
  pose proof (date_contradictions_dated _ _ _ _ D) as F.
  pose proof (in_report claim dated DescriptionWithoutLogs F eq_refl eq_refl) as R.
  rewrite report_missing.
  pose proof (in_missing (all_items claim) 0 "system_logs" _ eq_refl eq_refl eq_refl)
    as M0.
  pose proof (in_missing (all_items claim) 1 "incident_description" _
                eq_refl eq_refl eq_refl) as M1.
  pose proof (in_missing (all_items claim) 9 "multiple_logs" _
                eq_refl eq_refl eq_refl) as M9.
  split; [| split].
  - intros E. split; [apply M0; now rewrite E |].
    intros H%Z.leb_le N%M9. congruence.
  - intros E H. split.
    + apply M0. rewrite E. apply Z.leb_gt. lia.
    + intros [N _]%R. congruence.
  - intros s E Hne Hs Hl. split.
    + apply M1. rewrite E. cbn [filled]. now rewrite (strip_spaces s Hs).
    + apply R. split; [exact Hl |]. now exists s.
Qed.

End WithParser.

(** The delay claim lacks the three items of tier 3. *)
Lemma missing_evidence_spec_witness :
  exists report,
    check_claim sample_fromisoformat jan_15_2024 delay_claim = Ok report
    /\ missing_required_evidence report
       = ["liability_assessment"; "system_component"; "multiple_logs"].
Proof.
  exists (report_with delay_claim []).
  assert (E : check_claim sample_fromisoformat jan_15_2024 delay_claim
              = Ok (report_with delay_claim [])) by reflexivity.
  split; [exact E |].
  destruct (missing_evidence_spec sample_fromisoformat jan_15_2024
              delay_claim _ E) as (H & _).
  rewrite H. reflexivity.
Defined.


(** The blank claim: an incident type of low confidence, a minor severity
    with a cost of 60000, a description without logs, no assessment, and a
    location whose confidence is exactly 0.3. *)
Lemma contradictions_shape_witness :
  exists report,
    check_claim sample_fromisoformat jan_15_2024 blank_claim = Ok report
    /\ NoDup (contradictions report)
    /\ (length (contradictions report) <= 8)%nat.
Proof.
  exists (report_with blank_claim []).
  assert (E : check_claim sample_fromisoformat jan_15_2024 blank_claim
              = Ok (report_with blank_claim [])) by reflexivity.
  split; [exact E |].
  destruct (contradictions_shape sample_fromisoformat jan_15_2024
              blank_claim _ E) as (_ & N & L & _).
  split; [exact N | exact L].
Defined.


(** The blank claim has a description of three spaces and no logs. *)
Lemma logs_and_description_tests_witness :
  exists report,
    check_claim sample_fromisoformat jan_15_2024 blank_claim = Ok report
    /\ In "incident_description" (missing_required_evidence report)
    /\ In DescriptionWithoutLogs (contradictions report).
Proof.
  exists (report_with blank_claim []).
  assert (E : check_claim sample_fromisoformat jan_15_2024 blank_claim
              = Ok (report_with blank_claim [])) by reflexivity.
  split; [exact E |].
  destruct (logs_and_description_tests sample_fromisoformat jan_15_2024
              blank_claim _ E) as (_ & _ & H).
  apply (H "   "); [reflexivity | discriminate | reflexivity | reflexivity].
Defined.

(** *** The score grows with the evidence *)






End CheckerMore.

(** ** More on payouts, coverage and auto-resolution *)

Module PolicyMore.
Import Py Fnol PolicySchema PolicyService PolicyServiceRest Spec Fixtures
  SpecMore FixturesMore PyFacts FloatFacts NameFacts PayoutFacts ExtraInfoFacts
  ResolveFacts StringMore.

(** *** Bounds on the payout *)

Lemma applicable_cap_negative (policy : Policy) (incident_type : string) :
  (0 <= limit_amount policy)%Q ->
  (applicable_cap policy incident_type < 0)%Q
  <-> exists l, type_limit policy incident_type = Some l /\ (l < 0)%Q.
Proof.
  intros Hl. unfold applicable_cap.
  destruct (type_limit policy incident_type) as [l|].
  - rewrite Q.min_lt_iff. split.
    + intros [H | H]; [exfalso; now apply (Qlt_not_le _ _ H) | eauto].
    + intros (l' & [= <-] & H). now right.
  - split; [intros H; exfalso; now apply (Qlt_not_le _ _ H) |].
    intros (l & [=] & _).
Qed.

Lemma payout_of_negative (difference : float64) (cap : Q) :
  (payout_of difference cap < 0)%Q <-> (cap < 0)%Q.
Proof.
  destruct difference as [t| |]; cbn [payout_of]; [| tauto |];
    rewrite Q.min_lt_iff; (split; [| now right]);
    (intros [H | H]; [| exact H]); exfalso.
  - apply (Qlt_not_le _ _ H), Q.le_max_l.
  - now apply (Qlt_irrefl 0).
Qed.

Lemma rounded_payout_negative (policy : Policy) (incident_type : string) (cost : Q) :
  (rounded_payout policy incident_type cost < 0)%Q
  <-> (applicable_cap policy incident_type < 0)%Q.
Proof. apply payout_of_negative. Qed.

(** The payout of a difference that is not above [c]. *)
Lemma payout_of_le (difference : float64) (cap c : Q) :
  (0 <= c)%Q -> float64_le difference (Finite c) ->
  (payout_of difference cap <= c)%Q.
Proof.
  intros Hc. destruct difference as [t| |]; cbn [float64_le payout_of];
    [| contradiction |]; intros H.
  - eapply Qle_trans; [apply Q.le_min_l |]. now apply Q.max_lub.
  - eapply Qle_trans; [apply Q.le_min_l | exact Hc].
Qed.

Lemma rounded_payout_le_cost (policy : Policy) (incident_type : string) (cost : Q) :
  binary64 cost -> (0 <= deductible policy)%Q -> (0 <= cost)%Q ->
  (rounded_payout policy incident_type cost <= cost)%Q.
Proof.
  intros B Hd Hc. unfold rounded_payout.
  rewrite <- (Qred_correct cost) at 2.
  apply payout_of_le; [now rewrite Qred_correct |].
  now apply fsub_le_self.
Qed.

(** X7: under a policy whose limit and deductible are not negative, as the
    schema demands, a payout never exceeds the claimed cost (a binary64
    value, as every cost is); it is negative exactly when a negative per-type
    limit is defined for the claim's incident type, which the schema does not
    exclude, and otherwise it is at least 0, and 0 when the cost does not
    exceed the deductible.  The subtraction is that of binary64. *)
Theorem compute_payout_bounds (claim : OperationalLiabilityClaim) (policy : Policy)
  (x : Q) :
  valid_policy policy ->
  compute_payout claim policy = Some x ->
  (forall c, cost_of claim = Some c -> binary64 c -> (x <= c)%Q)
  /\ ((x < 0)%Q <-> negative_type_limit claim policy)
  /\ (~ negative_type_limit claim policy -> (0 <= x)%Q)
  /\ (forall c, cost_of claim = Some c -> (c <= deductible policy)%Q ->
      ~ negative_type_limit claim policy -> (x == 0)%Q).
Proof.
  intros (Hl & Hd & _) (_ & c & Hc & H0 & ->)%compute_payout_some.
  assert (N : (rounded_payout policy (claim_type claim) c < 0)%Q
              <-> negative_type_limit claim policy).
  { rewrite rounded_payout_negative. now apply applicable_cap_negative. }
  split; [| split; [exact N | split]].
  - intros c' E B. rewrite Hc in E. injection E as <-.
    now apply rounded_payout_le_cost.
  - intros H. apply Qnot_lt_le. now rewrite N.
  - intros c' E Hcd H. rewrite Hc in E. injection E as <-.
    apply Qle_antisym; [| apply Qnot_lt_le; now rewrite N].
    apply payout_of_le; [apply Qle_refl |]. now apply fsub_nonpos.
Qed.

(** A per-type limit of -100 for delays: the delay claim of 3000 is paid
    -100. *)
Lemma compute_payout_bounds_witness :
  valid_policy negative_limit_policy
  /\ compute_payout delay_claim negative_limit_policy = Some (-100)%Q
  /\ negative_type_limit delay_claim negative_limit_policy.
Proof.
  assert (V : valid_policy negative_limit_policy)
    by (repeat split; discriminate).
  assert (E : compute_payout delay_claim negative_limit_policy = Some (-100)%Q)
    by (vm_compute; reflexivity).
  split; [exact V |]. split; [exact E |].
  destruct (compute_payout_bounds delay_claim negative_limit_policy _ V E)
    as (_ & N & _).
  apply N. reflexivity.
Defined.

(** *** The rule-based coverage check *)

Lemma new_CoverageResult_raises (covered : bool) (why : CoverageReason)
  (evidence : list string) (cap : option Q) :
  new_CoverageResult covered why evidence cap = Raise ValueError
  <-> exists x, cap = Some x /\ (x < 0)%Q.
Proof.
  unfold new_CoverageResult. destruct cap as [x|].
  - destruct (Qle_bool 0 x) eqn:E.
    + apply Qle_bool_iff in E. split; [discriminate |].
      intros (x' & [= <-] & H). exfalso. now apply (Qlt_not_le _ _ H).
    + split; [intros _ | reflexivity]. exists x. split; [reflexivity |].
      apply Qnot_le_lt. intros H%Qle_bool_iff. congruence.
  - split; [discriminate | intros (x & [=] & _)].
Qed.

Lemma new_CoverageResult_ok (covered : bool) (why : CoverageReason)
  (evidence : list string) (cap : option Q) :
  (forall x, cap = Some x -> (0 <= x)%Q) ->
  new_CoverageResult covered why evidence cap
  = Ok {| is_covered := covered; reason := why; required_evidence := evidence;
          suggested_payout_cap := cap |}.
Proof.
  intros H. unfold new_CoverageResult. destruct cap as [x|]; [| reflexivity].
  specialize (H x eq_refl). apply Qle_bool_iff in H. now rewrite H.
Qed.

Lemma check_coverage_unfold (claim : OperationalLiabilityClaim) (policy : Policy) :
  check_coverage claim policy
  = if mem (claim_type claim) (covered_incident_types policy)
    then new_CoverageResult true CoveredByPolicy
           (get_required_extra_info claim policy) (compute_payout claim policy)
    else Ok (not_covered_result claim policy).
Proof.
  unfold check_coverage, _claim_incident_type. fold (claim_type claim).
  now destruct (mem _ _).
Qed.

(** X8: the rule-based coverage check.  For an incident type the policy
    does not cover, the result is not covered, with no evidence required and
    no payout cap.  For a covered type the result is covered, requires what
    [get_required_extra_info] lists and suggests the payout of
    [compute_payout] as the cap, provided that payout is not negative.  The
    check fails with a validation error exactly when the payout is negative,
    which under a policy that respects the schema's bounds means: the type is
    covered, the cost is present and not negative, and the per-type limit for
    the incident type is negative. *)
Theorem check_coverage_spec (claim : OperationalLiabilityClaim) (policy : Policy) :
  (~ covered policy claim ->
   check_coverage claim policy = Ok (not_covered_result claim policy))
  /\ (covered policy claim ->
      (forall x, compute_payout claim policy = Some x -> (0 <= x)%Q) ->
      check_coverage claim policy = Ok (covered_result claim policy))
  /\ (check_coverage claim policy = Raise ValueError
      <-> exists x, compute_payout claim policy = Some x /\ (x < 0)%Q)
  /\ (valid_policy policy ->
      (check_coverage claim policy = Raise ValueError
       <-> covered policy claim /\ payable_cost claim
           /\ negative_type_limit claim policy)).
Proof.
  rewrite check_coverage_unfold.
  assert (R : (if mem (claim_type claim) (covered_incident_types policy)
               then new_CoverageResult true CoveredByPolicy
                      (get_required_extra_info claim policy)
                      (compute_payout claim policy)
               else Ok (not_covered_result claim policy)) = Raise ValueError
              <-> exists x, compute_payout claim policy = Some x /\ (x < 0)%Q).
  { destruct (mem _ _) eqn:M; [apply new_CoverageResult_raises |].
    split; [discriminate |]. intros (x & (C & _)%compute_payout_some & _).
    apply mem_false in M. contradiction. }
  split; [| split; [| split; [exact R |]]].
  - intros H%mem_false. unfold claim_type in *. now rewrite H.
  - intros H%mem_In P. rewrite H. now apply new_CoverageResult_ok.
  - intros V. rewrite R. split.
    + intros (x & E & N).
      pose proof (proj1 (compute_payout_some _ _ _) E) as (C & c & Hc & H0 & ->).
      split; [exact C |]. split; [now exists c |].
      apply (applicable_cap_negative policy (claim_type claim)); [apply V |].
      now apply rounded_payout_negative in N.
    + intros (C & (c & Hc & H0) & N).
      exists (rounded_payout policy (claim_type claim) c).
      assert (E : compute_payout claim policy
                  = Some (rounded_payout policy (claim_type claim) c)).
      { apply compute_payout_some. split; [exact C |]. now exists c. }
      split; [exact E |].
      rewrite rounded_payout_negative. apply applicable_cap_negative; [apply V |].
      exact N.
Qed.

(** Under the policy with a limit of -100 for delays the check of the delay
    claim fails; under the sample policy it suggests 2500. *)
Lemma check_coverage_spec_witness :
  check_coverage delay_claim negative_limit_policy = Raise ValueError
  /\ check_coverage delay_claim acme_policy
     = Ok (covered_result delay_claim acme_policy).
Proof.
  destruct (check_coverage_spec delay_claim negative_limit_policy)
    as (_ & _ & R & _).
  destruct (check_coverage_spec delay_claim acme_policy) as (_ & C & _).
  split.
  - apply R. exists (-100)%Q. split; vm_compute; reflexivity.
  - apply C; [now left |]. intros x E.
    assert (P : compute_payout delay_claim acme_policy = Some 2500%Q)
      by (vm_compute; reflexivity).
    rewrite P in E. injection E as <-. discriminate.
Defined.

(** *** Auto-resolution and the payout *)

Lemma valid_make_policy :
  valid_policy acme_policy /\ valid_policy rules_policy
  /\ valid_policy three_rules_policy.
Proof. repeat split; discriminate. Qed.

(** X9: under a policy that respects the schema's bounds, a claim that
    resolves automatically is never paid more than the policy's maximum for
    automatic resolution (its cost being a binary64 value, as every cost
    is).  A payout is no condition, though: a covered claim that gets none,
    its cost being absent or negative, passes the amount gate and resolves
    automatically as soon as the name and evidence gates hold. *)
Theorem auto_resolve_and_payout (claim : OperationalLiabilityClaim) (policy : Policy)
  (name_verified : bool) :
  valid_policy policy ->
  (can_auto_resolve claim policy name_verified false = true ->
   forall c x, cost_of claim = Some c -> binary64 c ->
               compute_payout claim policy = Some x ->
               (x <= auto_resolve_max_amount (resolution_rules policy))%Q)
  /\ (covered policy claim -> compute_payout claim policy = None ->
      (can_auto_resolve claim policy name_verified false = true
       <-> gate_name policy name_verified /\ gate_evidence policy claim)).
Proof.
  intros (Hl & Hd & Hm). split.
  - intros (_ & _ & A & _)%can_auto_resolve_true c x Hc B
      (_ & c' & Hc' & H0 & ->)%compute_payout_some.
    rewrite Hc in Hc'. injection Hc' as <-.
    unfold gate_amount, cost_or_zero in A. rewrite Hc in A. simpl in A.
    eapply Qle_trans; [| exact A]. now apply rounded_payout_le_cost.
  - intros C N. rewrite can_auto_resolve_true.
    assert (A : gate_amount policy claim).
    { unfold gate_amount, cost_or_zero. rewrite compute_payout_unfold in N.
      apply mem_In in C. rewrite C in N.
      destruct (cost_of claim) as [c|]; [| exact Hm]. simpl.
      destruct (Qlt_bool c 0) eqn:L; [| discriminate N].
      apply Qlt_bool_iff in L. eapply Qle_trans; [| exact Hm].
      now apply Qlt_le_weak. }
    unfold gate_covered. tauto.
Qed.

(** The delay claim at a cost of 1500 resolves automatically under the
    sample policy and is paid 1000, below the maximum of 2000; without a cost
    it has no payout, and resolves automatically exactly when the name and
    evidence gates hold. *)
Lemma auto_resolve_and_payout_witness :
  valid_policy acme_policy
  /\ binary64 1500
  /\ (1000 <= auto_resolve_max_amount (resolution_rules acme_policy))%Q
  /\ (can_auto_resolve (with_cost delay_claim None) acme_policy true false = true
      <-> gate_name acme_policy true
          /\ gate_evidence acme_policy (with_cost delay_claim None)).
Proof.
  assert (V : valid_policy acme_policy) by apply valid_make_policy.
  assert (B : binary64 1500) by (apply (binary64_integer 1500); reflexivity).
  split; [exact V |]. split; [exact B |].
  destruct (auto_resolve_and_payout (with_cost delay_claim (Some 1500%Q))
              acme_policy true V) as (P & _).
  destruct (auto_resolve_and_payout (with_cost delay_claim None) acme_policy true V)
    as (_ & H).
  split.
  - apply (P eq_refl 1500%Q 1000%Q eq_refl B). vm_compute. reflexivity.
  - apply H; [now left | reflexivity].
Defined.

(** *** More evidence, lower cost *)

Lemma map_filter_sublist {A B : Type} (h : A -> B) (f g : A -> bool) (l : list A) :
  (forall x, f x = true -> g x = true) ->
  sublist (map h (List.filter f l)) (map h (List.filter g l)).
Proof.
  intros H. induction l as [|x l IH]; [constructor |].
  simpl. destruct (f x) eqn:F.
  - rewrite (H x F). simpl. now apply sublist_skip.
  - destruct (g x); simpl; [now apply sublist_cons | exact IH].
Qed.

Lemma evidence_skips_more (e e' : EvidenceFlags) (rule : ExtraInfoRule) :
  (has_system_logs e = true -> has_system_logs e' = true) ->
  (has_incident_report e = true -> has_incident_report e' = true) ->
  (has_liability_assessment e = true -> has_liability_assessment e' = true) ->
  evidence_skips e rule = true -> evidence_skips e' rule = true.
Proof.
  unfold evidence_skips. intros Hl Hr Ha.
  destruct (String.eqb _ "system_logs"), (String.eqb _ "incident_report"),
    (String.eqb _ "liability_assessment"),
    (has_system_logs e), (has_incident_report e), (has_liability_assessment e);
    cbn; try discriminate; intros _;
    rewrite ?(Hl eq_refl), ?(Hr eq_refl), ?(Ha eq_refl); cbn;
    try reflexivity;
    destruct (has_system_logs e'), (has_incident_report e'),
      (has_liability_assessment e'); reflexivity.
Qed.

Lemma condition_skips_lower (incident_type : string) (c c' : Q)
  (rule : ExtraInfoRule) :
  (c' <= c)%Q ->
  condition_skips incident_type c rule = true ->
  condition_skips incident_type c' rule = true.
Proof.
  intros H. unfold condition_skips.
  destruct (_ && _); [tauto |]. destruct (_ || _); [| tauto].
  destruct (search_threshold _) as [g|]; [| tauto].
  destruct (Py.int g) as [n|]; [| tauto].
  intros L%Qle_bool_iff. apply Qle_bool_iff. now apply (Qle_trans _ c).
Qed.

Lemma kept_fewer (incident_type : string) (c c' : Q) (e e' : EvidenceFlags)
  (rule : ExtraInfoRule) :
  (c' <= c)%Q ->
  (evidence_skips e rule = true -> evidence_skips e' rule = true) ->
  kept incident_type c' e' rule = true -> kept incident_type c e rule = true.
Proof.
  intros Hc He. unfold kept. rewrite !andb_true_iff, !negb_true_iff.
  intros ((R & C) & E). repeat split; [exact R | |].
  - destruct (condition_skips incident_type c rule) eqn:S; [| reflexivity].
    rewrite (condition_skips_lower _ _ _ _ Hc S) in C. discriminate C.
  - destruct (evidence_skips e rule) eqn:S; [| reflexivity].
    rewrite (He eq_refl) in E. discriminate E.
Qed.

Lemma or_zero_le (c c' : Q) : (c' <= c)%Q -> (or_zero (Some c') <= or_zero (Some c))%Q.
Proof. intros H. now rewrite !or_zero_eq. Qed.

(** X10: evidence never adds to what is asked: when evidence flags are
    raised, the prompts of [get_required_extra_info] are a sub-list of the
    earlier ones, in the same order, and a claim that resolved automatically
    still does. *)
Theorem more_evidence_fewer_prompts (claim : OperationalLiabilityClaim)
  (policy : Policy) (logs report assessment logs' report' assessment' : bool) :
  (logs = true -> logs' = true) ->
  (report = true -> report' = true) ->
  (assessment = true -> assessment' = true) ->
  sublist
    (get_required_extra_info (with_evidence claim logs' report' assessment') policy)
    (get_required_extra_info (with_evidence claim logs report assessment) policy)
  /\ (forall name_verified fraud_flagged,
        can_auto_resolve (with_evidence claim logs report assessment) policy
          name_verified fraud_flagged = true ->
        can_auto_resolve (with_evidence claim logs' report' assessment') policy
          name_verified fraud_flagged = true).
Proof.
  intros Hl Hr Ha.
  assert (S : sublist
    (get_required_extra_info (with_evidence claim logs' report' assessment') policy)
    (get_required_extra_info (with_evidence claim logs report assessment) policy)).
  { rewrite !get_required_extra_info_filter. apply map_filter_sublist.
    intros rule. apply kept_fewer; [apply Qle_refl |].
    now apply evidence_skips_more. }
  split; [exact S |].
  intros name_verified [|]; [discriminate |].
  rewrite !can_auto_resolve_true.
  intros (N & C & A & E). repeat split; try assumption.
  intros R. specialize (E R). rewrite E in S. now apply sublist_nil_r in S.
Qed.

(** The prediction-failure claim is asked for a liability assessment under
    the policy with rules, and for nothing once it has one. *)
Lemma more_evidence_fewer_prompts_witness :
  sublist
    (get_required_extra_info (with_evidence prediction_claim true false true)
       rules_policy)
    (get_required_extra_info (with_evidence prediction_claim true false false)
       rules_policy).
Proof.
  apply (more_evidence_fewer_prompts prediction_claim rules_policy
           true false false true false true); auto.
Defined.

(** X11: a lower cost never adds to what is asked, and a claim that
    resolves automatically at some cost resolves automatically at every lower
    cost. *)
Theorem lower_cost_fewer_prompts (claim : OperationalLiabilityClaim)
  (policy : Policy) (c c' : Q) :
  (c' <= c)%Q ->
  sublist (get_required_extra_info (with_cost claim (Some c')) policy)
          (get_required_extra_info (with_cost claim (Some c)) policy)
  /\ (forall name_verified fraud_flagged,
        can_auto_resolve (with_cost claim (Some c)) policy
          name_verified fraud_flagged = true ->
        can_auto_resolve (with_cost claim (Some c')) policy
          name_verified fraud_flagged = true).
Proof.
  intros H.
  assert (S : sublist (get_required_extra_info (with_cost claim (Some c')) policy)
                      (get_required_extra_info (with_cost claim (Some c)) policy)).
  { rewrite !get_required_extra_info_filter. apply map_filter_sublist.
    intros rule. apply kept_fewer; [now apply or_zero_le | tauto]. }
  split; [exact S |].
  intros name_verified [|]; [discriminate |].
  rewrite !can_auto_resolve_true.
  intros (N & C & A & E). repeat split; try assumption.
  - unfold gate_amount, cost_or_zero in *. simpl in *. now apply (Qle_trans _ c).
  - intros R. specialize (E R). rewrite E in S. now apply sublist_nil_r in S.
Qed.

(** The delay claim resolves automatically at 1500, hence at 1000. *)
Lemma lower_cost_fewer_prompts_witness :
  can_auto_resolve (with_cost delay_claim (Some 1000%Q)) acme_policy true false
  = true.
Proof.
  destruct (lower_cost_fewer_prompts delay_claim acme_policy 1500 1000) as (_ & H);
    [discriminate |].
  apply H. reflexivity.
Defined.

(** *** Name verification at the edges *)

Lemma normalize_spaces (s : string) : spaces s -> _normalize_name (Some s) = "".
Proof.
  intros H. unfold _normalize_name. destruct (truthy s); [| reflexivity].
  now rewrite (strip_spaces s H).
Qed.

Lemma contains_empty (hay : string) : contains "" hay = true.
Proof. apply contains_spec. now exists "", hay. Qed.

(** X12: name verification judges the claimant's name by its normal form
    alone; a claimant name of white space only is always rejected; and a
    policy whose insured name is white space only (but not empty) accepts
    every claimant whose name is not blank. *)
Theorem verify_claimant_name_edges (policy : Policy) (claimant_name : option string) :
  verify_claimant_name policy claimant_name
  = verify_claimant_name policy (Some (_normalize_name claimant_name))
  /\ (forall s, claimant_name = Some s -> spaces s ->
      verify_claimant_name policy claimant_name = false)
  /\ (named_insured policy <> "" -> spaces (named_insured policy) ->
      verify_claimant_name policy claimant_name
      = truthy (_normalize_name claimant_name)).
Proof.
  split; [| split].
  - unfold verify_claimant_name.
    now rewrite (normalize_fixed _ (normalize_normal_form claimant_name)).
  - intros s -> H. unfold verify_claimant_name.
    rewrite (normalize_spaces s H). now destruct (truthy (named_insured policy)).
  - intros Hne%truthy_true H. unfold verify_claimant_name.
    rewrite Hne, (normalize_spaces _ H). cbn [negb].
    destruct (truthy (_normalize_name claimant_name)); [| reflexivity].
    cbn [negb]. rewrite contains_empty. apply orb_true_r.
Qed.

(** The policy whose insured name is three spaces accepts "Mallory". *)
Lemma verify_claimant_name_edges_witness :
  verify_claimant_name blank_insured_policy (Some "Mallory") = true.
Proof.
  destruct (verify_claimant_name_edges blank_insured_policy (Some "Mallory"))
    as (_ & _ & H).
  rewrite H; [reflexivity | discriminate | reflexivity].
Defined.

End PolicyMore.

(** ** The policy store and the lookup of a policy *)

Module StoreFacts.
Import Py PolicySchema PolicyStore PolicyServiceRest Spec Fixtures SpecMore
  FixturesMore PyFacts StringMore.

Section WithRows.

Variable Row : Type.
Variable row_of_policy : Policy -> Row.
Variable _row_to_policy : Row -> Policy.

Lemma get_by_policy_number_stored (table : gmap string Row) (policy_number : string) :
  get_by_policy_number Row _row_to_policy table policy_number
  = stored _row_to_policy table (strip policy_number).
Proof.
  unfold get_by_policy_number, stored. rewrite strip_empty_or_not.
  destruct (is_empty (strip policy_number)); [reflexivity |].
  now destruct (table !! strip policy_number).
Qed.

(** X13: [get_policy] over the store.  It answers with the row stored
    under the trimmed policy number; failing that, with the row stored under
    the digits of the number, taken together in their order; and with [None]
    when neither exists. *)
Theorem get_policy_spec (table : gmap string Row) (policy_number : string) :
  get_policy (get_by_policy_number Row _row_to_policy table) policy_number
  = match stored _row_to_policy table (strip policy_number) with
    | Some policy => Some policy
    | None => stored _row_to_policy table (digits_of policy_number)
    end.
Proof.
  unfold get_policy. destruct policy_number as [|c s]; [reflexivity |].
  cbn [truthy is_empty negb]. cbv zeta.
  rewrite get_by_policy_number_stored, strip_idem.
  destruct (stored _row_to_policy table (strip (String c s))); [reflexivity |].
  fold (digits_of (strip (String c s))). rewrite digits_strip.
  rewrite get_by_policy_number_stored, strip_digits.
  unfold truthy, stored. now destruct (is_empty (digits_of (String c s))).
Qed.

(** X14: saving and looking up.  A policy saved under a trimmed, non-empty
    number is found again under that number (as its row reads back); a lookup
    whose trimmed number is another one is not affected by the save; and a
    policy saved under a number with white space around it, or under an empty
    number, is found by no lookup at all. *)
Theorem save_then_get (table : gmap string Row) (policy : Policy) :
  (strip (policy_number policy) = policy_number policy ->
   policy_number policy <> "" ->
   get_by_policy_number Row _row_to_policy (save Row row_of_policy table policy)
     (policy_number policy)
   = Some (_row_to_policy (row_of_policy policy)))
  /\ (forall other, strip other <> policy_number policy ->
      get_by_policy_number Row _row_to_policy (save Row row_of_policy table policy)
        other
      = get_by_policy_number Row _row_to_policy table other)
  /\ (strip (policy_number policy) <> policy_number policy
      \/ policy_number policy = "" ->
      forall other,
        get_by_policy_number Row _row_to_policy
          (save Row row_of_policy table policy) other
        = get_by_policy_number Row _row_to_policy table other).
Proof.
  assert (O : forall other, strip other <> policy_number policy ->
      get_by_policy_number Row _row_to_policy (save Row row_of_policy table policy)
        other
      = get_by_policy_number Row _row_to_policy table other).
  { intros other H. rewrite !get_by_policy_number_stored. unfold stored, save.
    rewrite lookup_insert_ne by congruence. reflexivity. }
  split; [| split; [exact O |]].
  - intros E Hne. rewrite get_by_policy_number_stored, E. unfold stored, save.
    destruct (is_empty (policy_number policy)) eqn:I;
      [apply is_empty_true in I; contradiction |].
    now rewrite lookup_insert_eq.
  - intros H other.
    destruct (String.eqb_spec (strip other) (policy_number policy)) as [E | N];
      [| now apply O].
    rewrite !get_by_policy_number_stored, E. unfold stored.
    destruct H as [H | H].
    + exfalso. apply H. now rewrite <- E, strip_idem.
    + now rewrite H.
Qed.

#[local] Instance key_le_transitive : Transitive (@key_le Row).
Proof. intros a b c. unfold key_le. apply transitivity. Qed.

#[local] Instance key_le_total : Total (@key_le Row).
Proof. intros a b. unfold key_le. apply total, _. Qed.

Lemma list_all_rows (table : gmap string Row) (limit : nat) :
  list_all Row _row_to_policy table limit
  = (fun r : string * Row => _row_to_policy (snd r))
      <$> take limit (merge_sort key_le (map_to_list table)).
Proof. reflexivity. Qed.

Lemma first_rows_sorted (table : gmap string Row) (limit : nat) :
  first_rows table limit (take limit (merge_sort key_le (map_to_list table))).
Proof.
  set (sorted := merge_sort key_le (map_to_list table)).
  assert (P : sorted ≡ₚ map_to_list table) by apply merge_sort_Permutation.
  assert (S : StronglySorted key_le sorted)
    by (apply StronglySorted_merge_sort; apply _).
  rewrite <- (take_drop limit sorted) in S.
  apply StronglySorted_app in S as (S12 & S1 & _).
  split; [| split; [exact S1 | split]].
  - rewrite length_take, <- length_map_to_list. now rewrite P.
  - intros key row H. apply elem_of_map_to_list. rewrite <- P.
    eapply elem_of_sublist; [exact H | apply sublist_take].
  - intros key row H%elem_of_map_to_list. rewrite <- P in H.
    rewrite <- (take_drop limit sorted) in H.
    apply elem_of_app in H as [H | H]; [now left | right].
    intros kr Hkr. exact (S12 kr (key, row) Hkr H).
Qed.

(** X15: [list_all] answers with the first [limit] rows of the table in
    the order of their keys, each read back as a policy: there are as many as
    the limit and the table allow, every stored row is among them when the
    limit is not below the size of the table, and a smaller limit gives a
    prefix of what a larger one gives. *)
Theorem list_all_spec (table : gmap string Row) (limit : nat) :
  (exists rows,
     first_rows table limit rows
     /\ list_all Row _row_to_policy table limit
        = (fun r : string * Row => _row_to_policy (snd r)) <$> rows)
  /\ length (list_all Row _row_to_policy table limit) = Nat.min limit (size table)
  /\ ((size table <= limit)%nat ->
      forall key row, table !! key = Some row ->
                      In (_row_to_policy row)
                         (list_all Row _row_to_policy table limit))
  /\ (forall limit', (limit <= limit')%nat ->
      list_all Row _row_to_policy table limit
      = take limit (list_all Row _row_to_policy table limit')).
Proof.
  pose proof (first_rows_sorted table limit) as F.
  split; [| split; [| split]].
  - eexists. split; [exact F | apply list_all_rows].
  - rewrite list_all_rows, length_fmap. apply F.
  - intros Hs key row H. rewrite list_all_rows. apply list_elem_of_In.
    apply list_elem_of_fmap. exists (key, row). split; [reflexivity |].
    rewrite take_ge.
    + rewrite merge_sort_Permutation. now apply elem_of_map_to_list.
    + rewrite merge_sort_Permutation, length_map_to_list. exact Hs.
  - intros limit' H. rewrite !list_all_rows, <- fmap_take, take_take.
    now rewrite Nat.min_l.
Qed.

End WithRows.

(** The sample table holds one policy, under 987654, which the full
    number POL-TT-987654 reaches through its digits. *)
Lemma get_policy_spec_witness :
  get_policy (get_by_policy_number Policy id sample_table) "POL-TT-987654"
  = Some numbered_policy.
Proof.
  rewrite (get_policy_spec Policy id sample_table "POL-TT-987654").
  reflexivity.
Defined.

(** A policy saved under the number 987654 is found under that number. *)
Lemma save_then_get_witness :
  get_by_policy_number Policy id (save Policy id ∅ numbered_policy) "987654"
  = Some numbered_policy.
Proof.
  destruct (save_then_get Policy id id ∅ numbered_policy) as (H & _).
  apply H; [reflexivity | discriminate].
Defined.

(** With the default limit of 500 the one policy of the sample table is
    listed. *)
Lemma list_all_spec_witness :
  In numbered_policy (list_all Policy id sample_table 500).
Proof.
  destruct (list_all_spec Policy id sample_table 500) as (_ & _ & H & _).
  apply (H ltac:(vm_compute; lia) "987654" numbered_policy). reflexivity.
Defined.

End StoreFacts.

(** ** The code fence around a reply *)

Module LlmFacts.
Import Py LlmCoverage Spec SpecMore PyFacts NameFacts StringMore.

Lemma split_on_nonempty (sep : ascii) (s : string) : split_on sep s <> [].
Proof.
  destruct s as [|c r]; [discriminate |]. cbn [split_on].
  destruct (Ascii.eqb c sep); [discriminate |].
  destruct (split_on sep r); discriminate.
Qed.

Lemma split_on_cons (sep c : ascii) (r : string) :
  Ascii.eqb c sep = false ->
  exists w ws, split_on sep r = w :: ws
               /\ split_on sep (String c r) = String c w :: ws.
Proof.
  intros E. cbn [split_on]. rewrite E.
  destruct (split_on sep r) as [|w ws] eqn:S;
    [now apply split_on_nonempty in S |].
  now exists w, ws.
Qed.

Lemma split_on_app (sep : ascii) (a b : string) :
  split_on sep (a +:+ String sep b) = split_on sep a ++ split_on sep b.
Proof.
  induction a as [|c a IH].
  - cbn. now rewrite Ascii.eqb_refl.
  - change (String c a +:+ String sep b) with (String c (a +:+ String sep b)).
    destruct (Ascii.eqb c sep) eqn:E.
    + cbn [split_on]. rewrite E, IH. reflexivity.
    + destruct (split_on_cons sep c a E) as (w & ws & S & ->).
      destruct (split_on_cons sep c (a +:+ String sep b) E) as (w' & ws' & S' & ->).
      rewrite IH, S in S'. injection S' as <- <-. reflexivity.
Qed.

Lemma split_on_line (sep : ascii) (s : string) :
  all_chars (fun c => negb (Ascii.eqb c sep)) s = true -> split_on sep s = [s].
Proof.
  induction s as [|c s IH]; [reflexivity |].
  simpl all_chars. intros [Hc Hs]%andb_true_iff. apply negb_true_iff in Hc.
  cbn [split_on]. rewrite Hc, (IH Hs). reflexivity.
Qed.

(** Joining the lines gives the text back. *)
Lemma join_split_on (sep : ascii) (s : string) :
  join (String sep "") (split_on sep s) = s.
Proof.
  unfold join. induction s as [|c r IH]; [reflexivity |].
  destruct (Ascii.eqb c sep) eqn:E.
  - cbn [split_on]. rewrite E. apply Ascii.eqb_eq in E. subst c.
    destruct (split_on sep r) as [|w ws] eqn:S;
      [now apply split_on_nonempty in S |].
    rewrite <- IH. reflexivity.
  - destruct (split_on_cons sep c r E) as (w & ws & S & ->).
    rewrite S in IH. destruct ws; cbn [String.concat] in *; now rewrite <- IH.
Qed.

Lemma rstrip_spaces (s : string) : spaces s -> rstrip s = "".
Proof.
  induction s as [|c s IH]; [reflexivity |].
  unfold spaces. simpl all_chars. intros [Hc Hs]%andb_true_iff.
  cbn [rstrip]. now rewrite (IH Hs), Hc.
Qed.

Lemma rstrip_app_spaces (a ws : string) : spaces ws -> rstrip (a +:+ ws) = rstrip a.
Proof.
  intros H. induction a as [|c a IH]; [now apply rstrip_spaces |].
  change (String c a +:+ ws) with (String c (a +:+ ws)).
  cbn [rstrip]. now rewrite IH.
Qed.

Lemma strip_around (ws1 ws2 : string) (c : ascii) (r : string) :
  spaces ws1 -> spaces ws2 -> isspace c = false ->
  rstrip (String c r) = String c r ->
  strip (ws1 +:+ String c r +:+ ws2) = String c r.
Proof.
  intros H1 H2 Hc Hr. unfold strip, lstrip.
  rewrite skip_while_app by exact H1.
  change (String c r +:+ ws2) with (String c (r +:+ ws2)).
  rewrite skip_while_stop by exact Hc.
  change (String c (r +:+ ws2)) with (String c r +:+ ws2).
  now rewrite rstrip_app_spaces.
Qed.

Lemma fenced_trimmed (lang body : string) :
  rstrip (fenced lang body) = fenced lang body.
Proof.
  unfold fenced.
  change (String LF (body +:+ String LF fence))
    with (String LF "" +:+ (body +:+ (String LF "" +:+ fence))).
  rewrite <- !app_assoc. apply rstrip_app; [reflexivity | discriminate].
Qed.

Lemma fenced_lines (lang body : string) :
  no_line_feed lang ->
  split_on LF (fenced lang body)
  = (fence +:+ lang) :: split_on LF body ++ [fence].
Proof.
  intros H. unfold fenced.
  rewrite <- app_assoc, split_on_app, split_on_app.
  rewrite (split_on_line LF (fence +:+ lang)).
  - reflexivity.
  - rewrite all_chars_app. now rewrite H.
Qed.

(** X16: the reply of the model, before it is parsed.  A reply wrapped in
    a Markdown code fence (an opening fence with or without a language tag,
    the body, a closing fence on its own line), with any white space around
    it, is reduced to exactly its body; a reply that does not start with a
    fence is only trimmed; and a reply that is just an opening fence is
    reduced to the empty text. *)
Theorem unfence_spec :
  (forall ws1 ws2 lang body,
     spaces ws1 -> spaces ws2 -> no_line_feed lang ->
     unfence (ws1 +:+ fenced lang body +:+ ws2) = body)
  /\ (forall content,
       startswith fence (strip content) = false ->
       unfence content = strip content)
  /\ (forall lang,
       all_chars (fun c => negb (isspace c)) lang = true ->
       unfence (fence +:+ lang) = "").
Proof.
  split; [| split].
  - intros ws1 ws2 lang body H1 H2 Hl. unfold unfence.
    assert (E : strip (ws1 +:+ fenced lang body +:+ ws2) = fenced lang body).
    { apply (strip_around ws1 ws2 "`"); [assumption | assumption | reflexivity |].
      apply (fenced_trimmed lang body). }
    rewrite E. cbv zeta.
    assert (S : forall rest, startswith fence (fence +:+ rest) = true).
    { intros rest. unfold startswith. now rewrite drop_prefix_app. }
    unfold fenced at 1. rewrite S.
    rewrite (fenced_lines lang body Hl). cbn [hd tl]. rewrite S.
    assert (T : truthy_list (split_on LF body ++ [fence]) = true).
    { now destruct (split_on LF body). }
    rewrite T. unfold last_line. rewrite last_last. cbn [andb].
    change (String.eqb (strip fence) fence) with true. cbv iota.
    rewrite removelast_last. apply join_split_on.
  - intros content H. unfold unfence. now rewrite H.
  - intros lang H. unfold unfence.
    assert (N : all_chars (fun c => negb (isspace c)) (fence +:+ lang) = true).
    { rewrite all_chars_app. now rewrite H. }
    rewrite (strip_no_space _ N). cbv zeta.
    assert (S : startswith fence (fence +:+ lang) = true).
    { unfold startswith. now rewrite drop_prefix_app. }
    rewrite S.
    assert (L : split_on LF (fence +:+ lang) = [fence +:+ lang]).
    { apply split_on_line.
      apply (all_chars_impl (fun c => negb (isspace c))); [| exact N].
      intros c Hc. apply negb_true_iff. apply negb_true_iff in Hc.
      destruct (Ascii.eqb_spec c LF) as [-> |]; [discriminate Hc | reflexivity]. }
    rewrite L. cbn [hd tl]. rewrite S. reflexivity.
Qed.

(** A reply in a fence tagged json, with white space around it. *)
Lemma unfence_spec_witness :
  unfence (" " +:+ fenced "json" "{}" +:+ String LF "") = "{}".
Proof.
  destruct unfence_spec as (H & _).
  apply (H " " (String LF "") "json" "{}"); reflexivity.
Defined.

End LlmFacts.
